(** * Vision Cortex: the SOP lifecycle engine

    A shallow embedding of [doc_system/auto_sop_agent.py] (the
    [AutoSOPAgent] store, executor, refiner and execution history) and of
    [doc_system/sop_validator_refiner.py] (the [SOPValidator] checks and
    scoring), followed by the properties established about them.

    Conventions of the embedding.
    - Python [int] is [Z]; Python [str] is [string], read as a sequence of
      code points below 256; [Optional[str]] is [option string].  The
      limits the interpreter puts on very large ints (the number of digits
      [int()] and [str()] accept, the range in which an int converts to a
      float) are not part of the embedding.
    - Python [float] is IEEE binary64.  The measured durations and the
      rolling [average_duration] computed from them are binary64 values
      ([float], with the operations of [PrimFloat]).  The scores and rates
      ([quality_score], [success_rate]) are embedded as rationals [Q]: the
      scores the validator computes are multiples of one half, which
      binary64 represents exactly, and for [success_rate] the rational is
      the quantity the float rounds.
    - A [dict] keyed by step number ([SOPExecution.output]) is a
      [gmap Z string]; the agent's [sops] registry is a
      [gmap string SOPDefinition].
    - The operating system is reached in two places only: the clock and
      [subprocess.run].  Clock readings are passed in as arguments; the
      command collaborator is a function on an abstract world state.
      [hashlib.sha256] is a parameter as well. *)

From Stdlib Require Import ZArith QArith Qminmax Lia Lqa Ascii String.
From Stdlib Require Import PrimFloat SpecFloat FloatOps.
From stdpp Require Import base gmap strings list pretty.

Local Open Scope string_scope.
Local Open Scope list_scope.
Local Open Scope Z_scope.

(** ** Data model ([auto_sop_agent.py], lines 17-101) *)

Inductive SOPStatus := DRAFT | VALIDATED | IN_USE | DEPRECATED | ARCHIVED.

Inductive StepStatus := PENDING | RUNNING | COMPLETED | FAILED | SKIPPED.

Inductive ValidationLevel := PERMISSIVE | MODERATE | STRICT | CERTIFIED.

Record SOPStep := mkSOPStep {
  step_number : Z;
  name : string;
  description : string;
  command : string;
  component : string;
  expected_output : option string;
  validation_check : option string;
  rollback_command : option string;
  timeout_seconds : Z;
  retry_on_failure : bool;
  max_retries : Z;
  dependencies : list Z;
  tags : list string
}.

Record SOPExecution := mkSOPExecution {
  execution_id : string;
  exec_sop_id : string;
  sop_version : string;
  start_time : string;
  end_time : option string;
  duration_seconds : float;
  status : StepStatus;
  steps_completed : Z;
  steps_total : Z;
  success_rate : Q;
  failed_steps : list Z;
  output : gmap Z string;
  error : option string
}.

Record SOPDefinition := mkSOPDefinition {
  sop_id : string;
  sop_name : string;
  version : string;
  sop_status : SOPStatus;
  sop_description : string;
  sop_component : string;
  purpose : string;
  created_date : string;
  last_modified : string;
  created_by : string;
  last_modified_by : string;
  steps : list SOPStep;
  prerequisites : list string;
  sop_tags : list string;
  validation_level : ValidationLevel;
  execution_count : Z;
  success_count : Z;
  failure_count : Z;
  average_duration : float;
  content_hash : string
}.

(** The agent object: the in-memory registry and the execution log.  The
    [operations_log] and the logger are write-only diagnostics and are not
    part of the embedding; [_save_sop] writes the definition to disk and
    swallows every exception, so it leaves the agent unchanged. *)
Record Agent := mkAgent {
  sops : gmap string SOPDefinition;
  execution_history : list SOPExecution
}.

(** ** Python helpers *)

(** Truth value of a [str] and of an [Optional[str]]. *)
Definition str_truthy (s : string) : bool :=
  match s with EmptyString => false | _ => true end.

Definition opt_truthy (o : option string) : bool :=
  match o with Some s => str_truthy s | None => false end.

Definition list_truthy {A} (l : list A) : bool :=
  match l with [] => false | _ => true end.

(** [len(s)] as a Python int. *)
Definition len (s : string) : Z := Z.of_nat (String.length s).

(** [str(n)] for an int. *)
Definition str_of_int (n : Z) : string := pretty n.

(** The exceptions the embedded code can raise, and the two ways a call
    can end. *)
Inductive py_exception :=
| IndexError
| ValueError (literal : string)
| ZeroDivisionError.

Inductive py_result (A : Type) :=
| Return (a : A)
| Raise (e : py_exception).

Arguments Return {A} a.
Arguments Raise {A} e.

(** The success flag of a call that returns [(success, _)]; a call that
    raises has not succeeded. *)
Definition succeeded {A} (r : py_result (bool * A)) : bool :=
  match r with
  | Return (ok, _) => ok
  | Raise _ => false
  end.

(** [k in d] for a dict keyed by step number. *)
Definition dict_has (d : gmap Z string) (k : Z) : bool :=
  match d !! k with Some _ => true | None => false end.

(** ** The command collaborator

    What one call of [subprocess.run(cmd, shell=True, timeout=t)] can do:
    return a completed process, raise [TimeoutExpired], or raise anything
    else. *)
Inductive cmd_result :=
| Exited (returncode : Z) (stdout stderr : string)
| TimeoutExpired
| Raised (msg : string).

(** The clock readings of one [execute_sop] call: [datetime.now()] at the
    start (ISO text and whole epoch seconds), at the end, and the elapsed
    seconds. *)
Record ExecClock := mkExecClock {
  t_start_iso : string;
  t_start_epoch : Z;
  t_end_iso : string;
  t_elapsed : float
}.

(** Field updates of the mutable records. *)
Definition with_steps_completed (e : SOPExecution) (n : Z) : SOPExecution :=
  mkSOPExecution (execution_id e) (exec_sop_id e) (sop_version e) (start_time e)
    (end_time e) (duration_seconds e) (status e) n (steps_total e)
    (success_rate e) (failed_steps e) (output e) (error e).

Definition with_metrics (e : SOPExecution) (out : gmap Z string) (failed : list Z)
    (rate : Q) (st : StepStatus) (fin : string) (dur : float) : SOPExecution :=
  mkSOPExecution (execution_id e) (exec_sop_id e) (sop_version e) (start_time e)
    (Some fin) dur st (steps_completed e) (steps_total e) rate failed out (error e).

Definition with_counters (s : SOPDefinition) (ec sc fc : Z) (avg : float) : SOPDefinition :=
  mkSOPDefinition (sop_id s) (sop_name s) (version s) (sop_status s)
    (sop_description s) (sop_component s) (purpose s) (created_date s)
    (last_modified s) (created_by s) (last_modified_by s) (steps s)
    (prerequisites s) (sop_tags s) (validation_level s) ec sc fc avg
    (content_hash s).

Definition with_status (s : SOPDefinition) (st : SOPStatus) : SOPDefinition :=
  mkSOPDefinition (sop_id s) (sop_name s) (version s) st
    (sop_description s) (sop_component s) (purpose s) (created_date s)
    (last_modified s) (created_by s) (last_modified_by s) (steps s)
    (prerequisites s) (sop_tags s) (validation_level s) (execution_count s)
    (success_count s) (failure_count s) (average_duration s) (content_hash s).

Definition with_refinement (s : SOPDefinition) (v now who h : string) : SOPDefinition :=
  mkSOPDefinition (sop_id s) (sop_name s) v (sop_status s)
    (sop_description s) (sop_component s) (purpose s) (created_date s)
    now (created_by s) who (steps s)
    (prerequisites s) (sop_tags s) (validation_level s) (execution_count s)
    (success_count s) (failure_count s) (average_duration s) h.

Definition with_steps (s : SOPDefinition) (l : list SOPStep) : SOPDefinition :=
  mkSOPDefinition (sop_id s) (sop_name s) (version s) (sop_status s)
    (sop_description s) (sop_component s) (purpose s) (created_date s)
    (last_modified s) (created_by s) (last_modified_by s) l
    (prerequisites s) (sop_tags s) (validation_level s) (execution_count s)
    (success_count s) (failure_count s) (average_duration s) (content_hash s).

(** ** SOPExecutor ([AutoSOPAgent.execute_sop], [_execute_step]) *)

Section Executor.

Variable World : Type.
Variable run_command : World -> string -> Z -> cmd_result * World.

(** [_execute_step], lines 364-411.  The validation command runs with a
    fixed timeout of 30 seconds; a timeout of either command reports the
    step's own [timeout_seconds]. *)
Definition _execute_step (w : World) (step : SOPStep) (dry_run : bool)
  : bool * string * World :=
  if dry_run then (true, "[DRY RUN] " +:+ command step, w)
  else
    let timeout_msg :=
      "Command timeout after " +:+ str_of_int (timeout_seconds step) +:+ "s" in
    match run_command w (command step) (timeout_seconds step) with
    | (Exited rc out err, w1) =>
        if opt_truthy (validation_check step) && (Z.eqb rc 0) then
          match run_command w1 (default "" (validation_check step)) 30 with
          | (Exited vrc _ verr, w2) =>
              if negb (Z.eqb vrc 0) then (false, "Validation failed: " +:+ verr, w2)
              else if Z.eqb rc 0 then (true, out, w2)
              else (false, "Command failed: " +:+ err, w2)
          | (TimeoutExpired, w2) => (false, timeout_msg, w2)
          | (Raised e, w2) => (false, "Execution error: " +:+ e, w2)
          end
        else if Z.eqb rc 0 then (true, out, w1)
        else (false, "Command failed: " +:+ err, w1)
    | (TimeoutExpired, w1) => (false, timeout_msg, w1)
    | (Raised e, w1) => (false, "Execution error: " +:+ e, w1)
    end.

(** The state the [for step in sop.steps] loop works on: the execution
    record (whose [steps_completed] it increments), the two locals
    [failed_steps] and [step_outputs], and the world. *)
Record loop_state := mkLoop {
  ls_execution : SOPExecution;
  ls_failed_steps : list Z;
  ls_step_outputs : gmap Z string;
  ls_world : World
}.

(** The dependency test of line 311 reads [execution.output], the field
    of the record, not the local [step_outputs]. *)
Definition deps_met (execution : SOPExecution) (step : SOPStep) : bool :=
  forallb (dict_has (output execution)) (dependencies step).

(** The loop of lines 306-330; [continue] goes on with the remaining
    steps, [break] returns the state as it is. *)
Fixpoint run_steps (dry_run : bool) (todo : list SOPStep) (st : loop_state)
  : loop_state :=
  match todo with
  | [] => st
  | step :: rest =>
      if list_truthy (dependencies step) && negb (deps_met (ls_execution st) step)
      then
        run_steps dry_run rest
          (mkLoop (ls_execution st) (ls_failed_steps st ++ [step_number step])
             (ls_step_outputs st) (ls_world st))
      else
        let '(success, out, w') := _execute_step (ls_world st) step dry_run in
        let outputs := <[step_number step := out]> (ls_step_outputs st) in
        if success then
          run_steps dry_run rest
            (mkLoop (with_steps_completed (ls_execution st)
                       (steps_completed (ls_execution st) + 1))
               (ls_failed_steps st) outputs w')
        else
          let st' := mkLoop (ls_execution st)
                       (ls_failed_steps st ++ [step_number step]) outputs w' in
          if negb (retry_on_failure step) then st'
          else run_steps dry_run rest st'
  end.

(** [len(failed_steps) == 0] decides the final status. *)
Definition final_status (failed : list Z) : StepStatus :=
  match failed with [] => COMPLETED | _ => FAILED end.

Definition is_completed (st : StepStatus) : bool :=
  match st with COMPLETED => true | _ => false end.

(** Line 335. *)
Definition compute_success_rate (completed total : Z) : Q :=
  if 0 <? total then (inject_Z completed / inject_Z total * 100)%Q else 0%Q.

(** The record built at lines 290-301 for the id the caller passed: status
    running, nothing completed, the dataclass defaults for [failed_steps],
    [output] and [error]. *)
Definition new_execution (clk : ExecClock) (id : string) (sop : SOPDefinition)
  : SOPExecution :=
  mkSOPExecution
    (id +:+ "_" +:+ str_of_int (t_start_epoch clk))
    id (version sop) (t_start_iso clk) None 0%float RUNNING
    0 (Z.of_nat (length (steps sop))) 0%Q [] ∅ None.

(** Lines 303-338 on one definition: the loop, then the metrics. *)
Definition run_execution (w : World) (clk : ExecClock) (id : string)
    (sop : SOPDefinition) (dry_run : bool) : SOPExecution * World :=
  let st := run_steps dry_run (steps sop) (mkLoop (new_execution clk id sop) [] ∅ w) in
  let e := ls_execution st in
  (with_metrics e (ls_step_outputs st) (ls_failed_steps st)
     (compute_success_rate (steps_completed e) (steps_total e))
     (final_status (ls_failed_steps st)) (t_end_iso clk) (t_elapsed clk),
   ls_world st).

(** Lines 341-345: the counters. *)
Definition count_execution (sop : SOPDefinition) (e : SOPExecution) : SOPDefinition :=
  with_counters sop (execution_count sop + 1)
    (if is_completed (status e) then success_count sop + 1 else success_count sop)
    (if is_completed (status e) then failure_count sop else failure_count sop + 1)
    (average_duration sop).

(** The int operand of a float operation is converted to the nearest
    binary64 value, ties to even.  (Beyond the range of binary64, about
    1.8e308, Python raises [OverflowError] where the conversion here gives
    an infinity; counters of that size are outside the embedding.) *)
Definition float_of_int (n : Z) : float :=
  SF2Prim (binary_normalize prec emax n 0 false).

(** Lines 348-349: the rolling average, on the definition whose counters
    are already updated, in binary64 arithmetic; the division raises when
    the count is 0. *)
Definition update_average (sop : SOPDefinition) (e : SOPExecution)
  : py_result SOPDefinition :=
  let n := execution_count sop in
  let total_duration :=
    (average_duration sop * float_of_int (n - 1) + duration_seconds e)%float in
  if n =? 0 then Raise ZeroDivisionError
  else
    Return (with_counters sop n (success_count sop) (failure_count sop)
              (total_duration / float_of_int n)%float).

(** [execute_sop], lines 271-362.  The registry is keyed by the id the
    caller passes.  When the average cannot be computed the exception
    leaves the call with the counters updated and nothing appended to the
    history. *)
Definition execute_sop (ag : Agent) (w : World) (clk : ExecClock) (id : string)
    (dry_run : bool) : Agent * World * py_result (bool * option SOPExecution) :=
  match sops ag !! id with
  | None => (ag, w, Return (false, None))
  | Some sop =>
      let '(e, w') := run_execution w clk id sop dry_run in
      let counted := count_execution sop e in
      match update_average counted e with
      | Raise x =>
          (mkAgent (<[id := counted]> (sops ag)) (execution_history ag), w', Raise x)
      | Return sop' =>
          (mkAgent (<[id := sop']> (sops ag)) (execution_history ag ++ [e]),
           w', Return (is_completed (status e), Some e))
      end
  end.

End Executor.

Arguments _execute_step {World} run_command w step dry_run.
Arguments mkLoop {World} _ _ _ _.
Arguments ls_execution {World} _.
Arguments ls_failed_steps {World} _.
Arguments ls_step_outputs {World} _.
Arguments ls_world {World} _.
Arguments run_steps {World} run_command dry_run todo st.
Arguments run_execution {World} run_command w clk id sop dry_run.
Arguments execute_sop {World} run_command ag w clk id dry_run.

(** ** [json.dumps(..., sort_keys=True)] of a step list

    The default encoder ([ensure_ascii=True], separators [", "] and
    [": "]).  Every character outside the printable ASCII range, the
    double quote and the backslash are escaped. *)

Definition dquote : ascii := "034"%char.
Definition backslash : ascii := "092"%char.

Definition chr (c : ascii) : string := String c EmptyString.

Definition hex_digit (n : N) : ascii :=
  if (n <? 10)%N then ascii_of_N (48 + n) else ascii_of_N (87 + n).

(** ['\\u{0:04x}'.format(n)] for a code point below 256. *)
Definition unicode_escape (n : N) : string :=
  String backslash ("u00" +:+ chr (hex_digit (n / 16)) +:+ chr (hex_digit (n mod 16))).

Definition json_escape_char (c : ascii) : string :=
  let n := N_of_ascii c in
  if (n =? 34)%N then String backslash (chr dquote)
  else if (n =? 92)%N then String backslash (chr backslash)
  else if (n =? 8)%N then String backslash "b"
  else if (n =? 12)%N then String backslash "f"
  else if (n =? 10)%N then String backslash "n"
  else if (n =? 13)%N then String backslash "r"
  else if (n =? 9)%N then String backslash "t"
  else if ((32 <=? n) && (n <=? 126))%N then chr c
  else unicode_escape n.

Fixpoint json_escape (s : string) : string :=
  match s with
  | EmptyString => EmptyString
  | String c r => json_escape_char c +:+ json_escape r
  end.

Definition json_str (s : string) : string :=
  chr dquote +:+ json_escape s +:+ chr dquote.

Definition json_opt_str (o : option string) : string :=
  match o with Some s => json_str s | None => "null" end.

Definition json_bool (b : bool) : string := if b then "true" else "false".

(** [", ".join(items)]. *)
Fixpoint join (sep : string) (items : list string) : string :=
  match items with
  | [] => EmptyString
  | [x] => x
  | x :: r => x +:+ sep +:+ join sep r
  end.

Definition json_list (items : list string) : string :=
  "[" +:+ join ", " items +:+ "]".

Definition json_member (key value : string) : string :=
  json_str key +:+ ": " +:+ value.

(** [asdict(s)] with its keys in sorted order. *)
Definition json_step (s : SOPStep) : string :=
  "{" +:+ join ", "
    [ json_member "command" (json_str (command s));
      json_member "component" (json_str (component s));
      json_member "dependencies" (json_list (str_of_int <$> dependencies s));
      json_member "description" (json_str (description s));
      json_member "expected_output" (json_opt_str (expected_output s));
      json_member "max_retries" (str_of_int (max_retries s));
      json_member "name" (json_str (name s));
      json_member "retry_on_failure" (json_bool (retry_on_failure s));
      json_member "rollback_command" (json_opt_str (rollback_command s));
      json_member "step_number" (str_of_int (step_number s));
      json_member "tags" (json_list (json_str <$> tags s));
      json_member "timeout_seconds" (str_of_int (timeout_seconds s));
      json_member "validation_check" (json_opt_str (validation_check s)) ]
  +:+ "}".

Definition json_dumps (l : list SOPStep) : string := json_list (json_step <$> l).

(** ** [str.split('.')], [int(s)] and the version bump *)

(** [s.split('.')]: always at least one part. *)
Fixpoint split_dot (s : string) : list string :=
  match s with
  | EmptyString => [EmptyString]
  | String c r =>
      if (N_of_ascii c =? 46)%N then EmptyString :: split_dot r
      else match split_dot r with
           | p :: ps => String c p :: ps
           | [] => [chr c]
           end
  end.

(** The code points below 256 that [int()] skips around a literal: the
    ASCII white space 9 to 13 and 32, and U+0085 and U+00A0.  (The
    separators U+001C to U+001F are white space for [str.isspace], but
    [int()] does not skip them.) *)
Definition is_space (c : ascii) : bool :=
  let n := N_of_ascii c in
  (((9 <=? n) && (n <=? 13)) || (n =? 32) || (n =? 133) || (n =? 160))%N.

Definition is_digit (c : ascii) : bool :=
  let n := N_of_ascii c in ((48 <=? n) && (n <=? 57))%N.

Fixpoint lstrip (l : list ascii) : list ascii :=
  match l with
  | c :: r => if is_space c then lstrip r else l
  | [] => []
  end.

Definition strip (l : list ascii) : list ascii := rev (lstrip (rev (lstrip l))).

(** Digits with single underscores between them; [prev] tells whether the
    previous character was a digit.  Returns the value read so far. *)
Fixpoint read_digits (l : list ascii) (prev : bool) (acc : Z) : option Z :=
  match l with
  | [] => if prev then Some acc else None
  | c :: r =>
      if is_digit c then read_digits r true (10 * acc + (Z.of_N (N_of_ascii c) - 48))
      else if (N_of_ascii c =? 95)%N && prev then read_digits r false acc
      else None
  end.

(** [int(s)] in base 10: [None] stands for [ValueError].  (The limit on
    the number of digits of a literal is not part of the embedding.) *)
Definition py_int (s : string) : option Z :=
  match strip (list_ascii_of_string s) with
  | [] => None
  | c :: r =>
      if (N_of_ascii c =? 45)%N then Z.opp <$> read_digits r false 0
      else if (N_of_ascii c =? 43)%N then read_digits r false 0
      else read_digits (c :: r) false 0
  end.

(** ** [repr] of a [str] and the text of an exception *)

Definition squote : ascii := "039"%char.

(** [str.isprintable] on one code point below 256. *)
Definition is_printable (c : ascii) : bool :=
  let n := N_of_ascii c in
  (((32 <=? n) && (n <=? 126)) || ((161 <=? n) && (n <=? 172))
   || ((174 <=? n) && (n <=? 255)))%N.

Fixpoint contains (c : ascii) (s : string) : bool :=
  match s with
  | EmptyString => false
  | String d r => (N_of_ascii d =? N_of_ascii c)%N || contains c r
  end.

(** The quote [repr] encloses the text in: the double quote when the text
    has a single quote and no double quote, the single quote otherwise. *)
Definition repr_quote (s : string) : ascii :=
  if contains squote s && negb (contains dquote s) then dquote else squote.

Definition repr_char (quote c : ascii) : string :=
  let n := N_of_ascii c in
  if (n =? N_of_ascii quote)%N || (n =? 92)%N then String backslash (chr c)
  else if (n =? 9)%N then String backslash "t"
  else if (n =? 10)%N then String backslash "n"
  else if (n =? 13)%N then String backslash "r"
  else if is_printable c then chr c
  else String backslash ("x" +:+ chr (hex_digit (n / 16)) +:+ chr (hex_digit (n mod 16))).

Fixpoint repr_chars (quote : ascii) (s : string) : string :=
  match s with
  | EmptyString => EmptyString
  | String c r => repr_char quote c +:+ repr_chars quote r
  end.

Definition py_repr (s : string) : string :=
  let quote := repr_quote s in
  chr quote +:+ repr_chars quote s +:+ chr quote.

(** [str(e)] for the exceptions of the embedding.  The message of
    [int()] is formatted with [%.200R]: the [repr] of the literal, cut
    after 200 characters. *)
Definition exception_text (e : py_exception) : string :=
  match e with
  | IndexError => "list index out of range"
  | ValueError s =>
      "invalid literal for int() with base 10: " +:+ String.substring 0 200 (py_repr s)
  | ZeroDivisionError => "float division by zero"
  end.

(** Lines 495-497: the third dot-separated part is read as an integer,
    incremented and written back. *)
Definition bump_version (v : string) : py_exception + string :=
  let version_parts := split_dot v in
  match version_parts !! 2%nat with
  | None => inl IndexError
  | Some p =>
      match py_int p with
      | None => inl (ValueError p)
      | Some n => inr (join "." (<[2%nat := str_of_int (n + 1)]> version_parts))
      end
  end.

(** ** SOPStore and SOPRefiner ([create_sop_from_operations], [refine_sop]) *)

(** One recorded operation: a dict read with [op.get(key, default)], so
    every key may be absent. *)
Record Operation := mkOperation {
  op_name : option string;
  op_description : option string;
  op_command : option string;
  op_expected_output : option string;
  op_validation_check : option string;
  op_rollback_command : option string;
  op_timeout_seconds : option Z;
  op_retry_on_failure : option bool;
  op_dependencies : option (list Z);
  op_tags : option (list string)
}.

(** The attributes of a step object, as [hasattr] sees the dataclass
    fields. *)
Inductive field :=
| F_step_number | F_name | F_description | F_command | F_component
| F_expected_output | F_validation_check | F_rollback_command
| F_timeout_seconds | F_retry_on_failure | F_max_retries | F_dependencies
| F_tags.

Global Instance field_eq_dec : EqDecision field.
Proof. solve_decision. Defined.

(** One entry [key: value] of a changes dict, with a value of the type the
    dataclass declares for the attribute; [set_other key] is an entry
    whose key is no attribute of the step ([hasattr] is false). *)
Inductive change :=
| set_step_number (v : Z)
| set_name (v : string)
| set_description (v : string)
| set_command (v : string)
| set_component (v : string)
| set_expected_output (v : option string)
| set_validation_check (v : option string)
| set_rollback_command (v : option string)
| set_timeout_seconds (v : Z)
| set_retry_on_failure (v : bool)
| set_max_retries (v : Z)
| set_dependencies (v : list Z)
| set_tags (v : list string)
| set_other (key : string).

Definition change_field (c : change) : option field :=
  match c with
  | set_step_number _ => Some F_step_number
  | set_name _ => Some F_name
  | set_description _ => Some F_description
  | set_command _ => Some F_command
  | set_component _ => Some F_component
  | set_expected_output _ => Some F_expected_output
  | set_validation_check _ => Some F_validation_check
  | set_rollback_command _ => Some F_rollback_command
  | set_timeout_seconds _ => Some F_timeout_seconds
  | set_retry_on_failure _ => Some F_retry_on_failure
  | set_max_retries _ => Some F_max_retries
  | set_dependencies _ => Some F_dependencies
  | set_tags _ => Some F_tags
  | set_other _ => None
  end.

(** [if hasattr(step, key): setattr(step, key, value)]. *)
Definition apply_change (s : SOPStep) (c : change) : SOPStep :=
  match c with
  | set_step_number v =>
      mkSOPStep v (name s) (description s) (command s) (component s)
        (expected_output s) (validation_check s) (rollback_command s)
        (timeout_seconds s) (retry_on_failure s) (max_retries s)
        (dependencies s) (tags s)
  | set_name v =>
      mkSOPStep (step_number s) v (description s) (command s) (component s)
        (expected_output s) (validation_check s) (rollback_command s)
        (timeout_seconds s) (retry_on_failure s) (max_retries s)
        (dependencies s) (tags s)
  | set_description v =>
      mkSOPStep (step_number s) (name s) v (command s) (component s)
        (expected_output s) (validation_check s) (rollback_command s)
        (timeout_seconds s) (retry_on_failure s) (max_retries s)
        (dependencies s) (tags s)
  | set_command v =>
      mkSOPStep (step_number s) (name s) (description s) v (component s)
        (expected_output s) (validation_check s) (rollback_command s)
        (timeout_seconds s) (retry_on_failure s) (max_retries s)
        (dependencies s) (tags s)
  | set_component v =>
      mkSOPStep (step_number s) (name s) (description s) (command s) v
        (expected_output s) (validation_check s) (rollback_command s)
        (timeout_seconds s) (retry_on_failure s) (max_retries s)
        (dependencies s) (tags s)
  | set_expected_output v =>
      mkSOPStep (step_number s) (name s) (description s) (command s) (component s)
        v (validation_check s) (rollback_command s)
        (timeout_seconds s) (retry_on_failure s) (max_retries s)
        (dependencies s) (tags s)
  | set_validation_check v =>
      mkSOPStep (step_number s) (name s) (description s) (command s) (component s)
        (expected_output s) v (rollback_command s)
        (timeout_seconds s) (retry_on_failure s) (max_retries s)
        (dependencies s) (tags s)
  | set_rollback_command v =>
      mkSOPStep (step_number s) (name s) (description s) (command s) (component s)
        (expected_output s) (validation_check s) v
        (timeout_seconds s) (retry_on_failure s) (max_retries s)
        (dependencies s) (tags s)
  | set_timeout_seconds v =>
      mkSOPStep (step_number s) (name s) (description s) (command s) (component s)
        (expected_output s) (validation_check s) (rollback_command s)
        v (retry_on_failure s) (max_retries s)
        (dependencies s) (tags s)
  | set_retry_on_failure v =>
      mkSOPStep (step_number s) (name s) (description s) (command s) (component s)
        (expected_output s) (validation_check s) (rollback_command s)
        (timeout_seconds s) v (max_retries s)
        (dependencies s) (tags s)
  | set_max_retries v =>
      mkSOPStep (step_number s) (name s) (description s) (command s) (component s)
        (expected_output s) (validation_check s) (rollback_command s)
        (timeout_seconds s) (retry_on_failure s) v
        (dependencies s) (tags s)
  | set_dependencies v =>
      mkSOPStep (step_number s) (name s) (description s) (command s) (component s)
        (expected_output s) (validation_check s) (rollback_command s)
        (timeout_seconds s) (retry_on_failure s) (max_retries s)
        v (tags s)
  | set_tags v =>
      mkSOPStep (step_number s) (name s) (description s) (command s) (component s)
        (expected_output s) (validation_check s) (rollback_command s)
        (timeout_seconds s) (retry_on_failure s) (max_retries s)
        (dependencies s) v
  | set_other _ => s
  end.

(** [for key, value in changes.items(): ...] on one step. *)
Definition apply_changes (changes : list change) (s : SOPStep) : SOPStep :=
  fold_left apply_change changes s.

(** [next((s for s in sop.steps if s.step_number == step_num), None)]
    followed by the in-place update of the step found: the first step
    carrying the number is the one changed; no such step, no change. *)
Fixpoint update_first (step_num : Z) (changes : list change) (l : list SOPStep)
  : list SOPStep :=
  match l with
  | [] => []
  | s :: r =>
      if step_number s =? step_num then apply_changes changes s :: r
      else s :: update_first step_num changes r
  end.

(** [for step_num, changes in updates.items(): ...]; the dict is walked in
    insertion order. *)
Definition apply_updates (updates : list (Z * list change)) (l : list SOPStep)
  : list SOPStep :=
  fold_left (fun acc u => update_first u.1 u.2 acc) updates l.

Section Store.

Variable sha256_hex : string -> string.

(** [_compute_hash], lines 591-594. *)
Definition _compute_hash (l : list SOPStep) : string :=
  sha256_hex (json_dumps l).

(** The step built from the [i]-th operation, lines 222-235;
    [max_retries] keeps its dataclass default. *)
Definition step_of_operation (comp : string) (i : Z) (op : Operation) : SOPStep :=
  mkSOPStep i
    (default ("Step " +:+ str_of_int i) (op_name op))
    (default "" (op_description op))
    (default "" (op_command op))
    comp
    (op_expected_output op) (op_validation_check op) (op_rollback_command op)
    (default 300 (op_timeout_seconds op))
    (default true (op_retry_on_failure op))
    3
    (default [] (op_dependencies op))
    (default [] (op_tags op)).

(** [for i, op in enumerate(operations, 1)]. *)
Fixpoint steps_from (comp : string) (i : Z) (ops : list Operation) : list SOPStep :=
  match ops with
  | [] => []
  | op :: r => step_of_operation comp i op :: steps_from comp (i + 1) r
  end.

(** [create_sop_from_operations], lines 199-269. *)
Definition create_sop_from_operations (ag : Agent) (now : string)
    (id nm descr comp purp : string) (operations : list Operation)
    (author : string) : Agent * (bool * string) :=
  match sops ag !! id with
  | Some _ => (ag, (false, "SOP already exists: " +:+ id))
  | None =>
      let l := steps_from comp 1 operations in
      let sop :=
        mkSOPDefinition id nm "1.0.0" DRAFT descr comp purp now now author author
          l [] [comp] PERMISSIVE 0 0 0 0%float (_compute_hash l) in
      (mkAgent (<[id := sop]> (sops ag)) (execution_history ag),
       (true, "SOP created: " +:+ id))
  end.

(** [refine_sop], lines 466-516.  The steps are updated in place before
    the version is parsed, so they stay updated when the parse raises and
    the call reports failure. *)
Definition refine_sop (ag : Agent) (now : string) (id : string)
    (updates : list (Z * list change)) (refined_by : string)
  : Agent * (bool * string) :=
  match sops ag !! id with
  | None => (ag, (false, "SOP not found: " +:+ id))
  | Some sop =>
      let sop1 := with_steps sop (apply_updates updates (steps sop)) in
      match bump_version (version sop1) with
      | inl e =>
          (mkAgent (<[id := sop1]> (sops ag)) (execution_history ag),
           (false, "Failed to refine SOP: " +:+ exception_text e))
      | inr v =>
          let sop2 := with_refinement sop1 v now refined_by (_compute_hash (steps sop1)) in
          (mkAgent (<[id := sop2]> (sops ag)) (execution_history ag),
           (true, "SOP refined to v" +:+ v))
      end
  end.

End Store.

(** ** ExecutionHistory ([get_execution_history], lines 668-683) *)

(** [l[start:]], with Python's treatment of a negative or too large start. *)
Definition slice_from {A} (start : Z) (l : list A) : list A :=
  let n := Z.of_nat (length l) in
  let i := if start <? 0 then Z.max 0 (start + n) else Z.min start n in
  drop (Z.to_nat i) l.

(** The filter is applied only to an id that is given and non-empty
    ([if sop_id:]); the records are returned as they are stored
    ([asdict] only changes their representation). *)
Definition get_execution_history (ag : Agent) (id : option string) (limit : Z)
  : list SOPExecution :=
  let history :=
    match id with
    | Some s =>
        if str_truthy s then filter (fun e => exec_sop_id e = s) (execution_history ag)
        else execution_history ag
    | None => execution_history ag
    end in
  slice_from (- limit) history.

(** ** The agent's own validation ([AutoSOPAgent.validate_sop]) *)

(** [for i, step in enumerate(sop.steps, 1): if step.step_number != i]. *)
Fixpoint numbered_from (i : Z) (l : list SOPStep) : bool :=
  match l with
  | [] => true
  | s :: r => if negb (step_number s =? i) then false else numbered_from (i + 1) r
  end.

Definition _validate_structure (sop : SOPDefinition) : bool :=
  if negb (str_truthy (sop_id sop)) || negb (str_truthy (sop_name sop))
     || negb (list_truthy (steps sop))
  then false
  else numbered_from 1 (steps sop).

Definition _validate_syntax (sop : SOPDefinition) : bool :=
  forallb (fun s => negb (negb (str_truthy (command s)) || negb (str_truthy (name s))))
    (steps sop).

(** [{s.step_number for s in steps}]. *)
Definition step_number_set (l : list SOPStep) : gset Z :=
  list_to_set (step_number <$> l).

Definition _validate_dependencies (sop : SOPDefinition) : bool :=
  let step_numbers := step_number_set (steps sop) in
  forallb (fun s =>
    forallb (fun dep =>
      negb (negb (bool_decide (dep ∈ step_numbers)) || (step_number s <=? dep)))
      (dependencies s))
    (steps sop).

Definition _validate_completeness (sop : SOPDefinition) : bool :=
  forallb (fun s => str_truthy (description s)) (steps sop).

(** The report dict of [validate_sop]. *)
Record AgentReport := mkAgentReport {
  ar_sop_id : string;
  ar_validation_time : string;
  chk_structure : bool;
  chk_syntax : bool;
  chk_dependencies : bool;
  chk_completeness : bool;
  test_success : bool;
  test_steps_completed : Z;
  test_success_rate : Q;
  ar_validation_level : ValidationLevel
}.

Section AgentValidation.

Variable World : Type.
Variable run_command : World -> string -> Z -> cmd_result * World.

(** [validate_sop], lines 413-464: four checks on the definition, then a
    dry-run execution through [execute_sop] (which also updates the
    definition's counters and the history); [None] is the error dict of
    an unknown id.  An exception of [execute_sop] is not caught. *)
Definition validate_sop (ag : Agent) (w : World) (now : string) (clk : ExecClock)
    (id : string) : Agent * World * py_result (bool * option AgentReport) :=
  match sops ag !! id with
  | None => (ag, w, Return (false, None))
  | Some sop =>
      let c1 := _validate_structure sop in
      let c2 := _validate_syntax sop in
      let c3 := _validate_dependencies sop in
      let c4 := _validate_completeness sop in
      match execute_sop run_command ag w clk id true with
      | (ag1, w1, Raise x) => (ag1, w1, Raise x)
      | (ag1, w1, Return (success, execution)) =>
          let report :=
            mkAgentReport id now c1 c2 c3 c4 success
              (from_option steps_completed 0 execution)
              (from_option success_rate 0%Q execution)
              (validation_level sop) in
          let is_valid := (c1 && c2 && c3 && c4) && success in
          let ag2 :=
            if is_valid then
              match sops ag1 !! id with
              | Some sop1 =>
                  mkAgent (<[id := with_status sop1 VALIDATED]> (sops ag1))
                    (execution_history ag1)
              | None => ag1
              end
            else ag1 in
          (ag2, w1, Return (is_valid, Some report))
      end
  end.

End AgentValidation.

Arguments validate_sop {World} run_command ag w now clk id.

(** ** SOPValidator ([sop_validator_refiner.py])

    The validator works on the dict form of a definition.  The embedding
    takes the dict [asdict] produces, so every key is present and the
    record [SOPDefinition] itself stands for it. *)

Inductive FindingType := error_ | warning | info | suggestion.

Inductive Category := structure | syntax | logic | efficiency | clarity.

Global Instance FindingType_eq_dec : EqDecision FindingType.
Proof. solve_decision. Defined.

Global Instance Category_eq_dec : EqDecision Category.
Proof. solve_decision. Defined.

Record ValidationFinding := mkFinding {
  finding_id : string;
  f_sop_id : string;
  finding_type : FindingType;
  category : Category;
  f_step_number : option Z;
  message : string;
  recommendation : string;
  severity : Z;
  fixed : bool
}.

Record PriorityFix := mkPriorityFix {
  pf_step : option Z;
  pf_issue : string;
  pf_action : string
}.

Record QualityImprovement := mkQualityImprovement {
  qi_step : option Z;
  qi_category : Category;
  qi_suggestion : string
}.

Record RefinementPlan := mkRefinementPlan {
  priority_fixes : list PriorityFix;
  quality_improvements : list QualityImprovement;
  timeline : string
}.

Record ValidationReport := mkReport {
  validation_id : string;
  r_sop_id : string;
  r_sop_version : string;
  validation_date : string;
  validator_name : string;
  total_findings : Z;
  errors : Z;
  warnings : Z;
  infos : Z;
  suggestions : Z;
  overall_quality_score : Q;
  is_approved : bool;
  findings : list ValidationFinding;
  recommendations : list string;
  refinement_plan : RefinementPlan
}.

(** The part of an execution-results dict that [_check_execution] reads. *)
Record ExecutionResults := mkExecutionResults {
  er_status : string;
  er_failed_steps : list Z
}.

Definition step_suffix (n : Z) : string := "_step" +:+ str_of_int n.

(** [_check_structure], lines 164-211. *)
Definition missing_field (sop : SOPDefinition) (fld : string) : ValidationFinding :=
  mkFinding ("STR_001_" +:+ sop_id sop) (sop_id sop) error_ structure None
    ("Missing required field: " +:+ fld)
    ("Add " +:+ fld +:+ " to SOP definition") 5 false.

Definition required_fields (sop : SOPDefinition) : list (string * bool) :=
  [ ("sop_id", str_truthy (sop_id sop));
    ("name", str_truthy (sop_name sop));
    ("version", str_truthy (version sop));
    ("description", str_truthy (sop_description sop));
    ("component", str_truthy (sop_component sop));
    ("steps", list_truthy (steps sop)) ].

Fixpoint check_numbering (sop : SOPDefinition) (i : Z) (l : list SOPStep)
  : list ValidationFinding :=
  match l with
  | [] => []
  | s :: r =>
      (if negb (step_number s =? i) then
         [ mkFinding ("STR_003_" +:+ sop_id sop +:+ step_suffix i) (sop_id sop)
             error_ structure (Some i)
             ("Step numbering is incorrect at position " +:+ str_of_int i)
             ("Renumber step to " +:+ str_of_int i) 4 false ]
       else [])
      ++ check_numbering sop (i + 1) r
  end.

Definition _check_structure (sop : SOPDefinition) : list ValidationFinding :=
  (missing_field sop <$> (fst <$> filter (fun p => p.2 = false) (required_fields sop)))
  ++ (if negb (list_truthy (steps sop)) then
        [ mkFinding ("STR_002_" +:+ sop_id sop) (sop_id sop) error_ structure None
            "SOP has no steps" "Add at least one step to the SOP" 5 false ]
      else [])
  ++ check_numbering sop 1 (steps sop).

(** [_check_syntax], lines 213-260. *)
Definition syntax_of_step (sop : SOPDefinition) (s : SOPStep) : list ValidationFinding :=
  let step_num := step_number s in
  (if negb (str_truthy (command s)) then
     [ mkFinding ("SYN_001_" +:+ sop_id sop +:+ step_suffix step_num) (sop_id sop)
         error_ syntax (Some step_num) "Step has no command"
         "Add a command to this step" 5 false ]
   else [])
  ++ (if negb (str_truthy (name s)) then
        [ mkFinding ("SYN_002_" +:+ sop_id sop +:+ step_suffix step_num) (sop_id sop)
            error_ syntax (Some step_num) "Step has no name"
            "Add a descriptive name to this step" 4 false ]
      else [])
  ++ (if negb (str_truthy (description s)) then
        [ mkFinding ("SYN_003_" +:+ sop_id sop +:+ step_suffix step_num) (sop_id sop)
            warning syntax (Some step_num) "Step has no description"
            "Add a description explaining what this step does" 3 false ]
      else []).

Definition _check_syntax (sop : SOPDefinition) : list ValidationFinding :=
  steps sop ≫= syntax_of_step sop.

(** [_check_logic], lines 262-299: two independent tests per dependency,
    each with a finding of its own. *)
Definition nonexistent_dependency (sop : SOPDefinition) (step_num dep : Z)
  : ValidationFinding :=
  mkFinding ("LOG_001_" +:+ sop_id sop +:+ step_suffix step_num) (sop_id sop)
    error_ logic (Some step_num)
    ("Dependency references non-existent step: " +:+ str_of_int dep)
    ("Remove or fix reference to step " +:+ str_of_int dep) 5 false.

Definition forward_dependency (sop : SOPDefinition) (step_num dep : Z)
  : ValidationFinding :=
  mkFinding ("LOG_002_" +:+ sop_id sop +:+ step_suffix step_num) (sop_id sop)
    error_ logic (Some step_num)
    ("Circular or forward dependency: step " +:+ str_of_int step_num
       +:+ " depends on step " +:+ str_of_int dep)
    "Reorder steps to remove circular dependencies" 5 false.

Definition logic_of_dep (sop : SOPDefinition) (step_numbers : gset Z) (step_num dep : Z)
  : list ValidationFinding :=
  (if negb (bool_decide (dep ∈ step_numbers)) then [nonexistent_dependency sop step_num dep]
   else [])
  ++ (if step_num <=? dep then [forward_dependency sop step_num dep] else []).

Definition logic_of_step (sop : SOPDefinition) (step_numbers : gset Z) (s : SOPStep)
  : list ValidationFinding :=
  dependencies s ≫= logic_of_dep sop step_numbers (step_number s).

Definition _check_logic (sop : SOPDefinition) : list ValidationFinding :=
  steps sop ≫= logic_of_step sop (step_number_set (steps sop)).

(** [_check_efficiency], lines 301-346. *)
Definition timeout_of_step (sop : SOPDefinition) (s : SOPStep) : list ValidationFinding :=
  if 3600 <? timeout_seconds s then
    [ mkFinding ("EFF_003_" +:+ sop_id sop +:+ step_suffix (step_number s))
        (sop_id sop) suggestion efficiency (Some (step_number s))
        ("Step has very long timeout: " +:+ str_of_int (timeout_seconds s) +:+ "s")
        "Review if timeout can be reduced" 1 false ]
  else [].

Definition _check_efficiency (sop : SOPDefinition) : list ValidationFinding :=
  let n := Z.of_nat (length (steps sop)) in
  (if 50 <? n then
     [ mkFinding ("EFF_001_" +:+ sop_id sop) (sop_id sop) warning efficiency None
         ("SOP has " +:+ str_of_int n +:+ " steps, which may be too many")
         "Consider breaking into smaller SOPs" 2 false ]
   else [])
  ++ (if n <? 1 then
        [ mkFinding ("EFF_002_" +:+ sop_id sop) (sop_id sop) info efficiency None
            "SOP has very few steps"
            "Consider if this is complex enough to warrant a SOP" 1 false ]
      else [])
  ++ (steps sop ≫= timeout_of_step sop).

(** [_check_clarity], lines 348-394. *)
Definition clarity_of_step (sop : SOPDefinition) (s : SOPStep) : list ValidationFinding :=
  if len (description s) <? 10 then
    [ mkFinding ("CLR_003_" +:+ sop_id sop +:+ step_suffix (step_number s))
        (sop_id sop) suggestion clarity (Some (step_number s))
        "Step description is too short"
        "Provide more detail about what this step accomplishes" 1 false ]
  else [].

Definition short_description (sop : SOPDefinition) : ValidationFinding :=
  mkFinding ("CLR_001_" +:+ sop_id sop) (sop_id sop) suggestion clarity None
    "SOP description is too short"
    "Provide a more detailed description of the SOP purpose" 1 false.

Definition no_prerequisites (sop : SOPDefinition) : ValidationFinding :=
  mkFinding ("CLR_002_" +:+ sop_id sop) (sop_id sop) suggestion clarity None
    "SOP has no prerequisites listed"
    "Add prerequisites section if applicable" 1 false.

Definition _check_clarity (sop : SOPDefinition) : list ValidationFinding :=
  (if len (sop_description sop) <? 20 then [short_description sop] else [])
  ++ (if negb (list_truthy (prerequisites sop)) then [no_prerequisites sop] else [])
  ++ (steps sop ≫= clarity_of_step sop).

(** [_check_execution], lines 396-414. *)
Definition failed_step_finding (sop : SOPDefinition) (step_num : Z) : ValidationFinding :=
  mkFinding ("EXE_001_" +:+ sop_id sop +:+ step_suffix step_num) (sop_id sop)
    error_ logic (Some step_num)
    ("Step " +:+ str_of_int step_num +:+ " failed during execution")
    "Review and fix the command in this step" 5 false.

Definition _check_execution (sop : SOPDefinition) (res : ExecutionResults)
  : list ValidationFinding :=
  if String.eqb (er_status res) "FAILED" then failed_step_finding sop <$> er_failed_steps res
  else [].

(** [sum(1 for f in findings if f.finding_type == t)]. *)
Definition count_type (t : FindingType) (l : list ValidationFinding) : Z :=
  Z.of_nat (length (filter (fun f => finding_type f = t) l)).

(** One round of the scoring loop, lines 119-125. *)
Definition deduct (score : Q) (f : ValidationFinding) : Q :=
  match finding_type f with
  | error_ => (score - inject_Z (severity f * 2))%Q
  | warning => (score - inject_Z (severity f * 1))%Q
  | suggestion => (score - (1 # 2))%Q
  | info => score
  end.

(** Lines 118-127: start from 100, deduct per finding, then [max(0, _)]. *)
Definition quality_score (l : list ValidationFinding) : Q :=
  let q := fold_left deduct l 100%Q in
  if Qle_bool q 0 then 0%Q else q.

(** [_generate_recommendations], lines 416-432. *)
Definition _generate_recommendations (l : list ValidationFinding) : list string :=
  let e := count_type error_ l in
  let w := count_type warning l in
  let s := count_type suggestion l in
  (if 0 <? e then ["Fix " +:+ str_of_int e +:+ " critical errors before using SOP"] else [])
  ++ (if 0 <? w then ["Review " +:+ str_of_int w +:+ " warnings for quality improvement"] else [])
  ++ (if 0 <? s then ["Consider " +:+ str_of_int s +:+ " suggestions for optimization"] else []).

(** [_create_refinement_plan], lines 434-456. *)
Definition _create_refinement_plan (l : list ValidationFinding) : RefinementPlan :=
  mkRefinementPlan
    ((fun f => mkPriorityFix (f_step_number f) (message f) (recommendation f))
       <$> filter (fun f => finding_type f = error_) l)
    ((fun f => mkQualityImprovement (f_step_number f) (category f) (recommendation f))
       <$> filter (fun f => finding_type f <> error_) l)
    "immediate for errors, next iteration for suggestions".

(** The findings gathered at lines 97-108, in the order of the checks. *)
Definition all_findings (sop : SOPDefinition) (execution_results : option ExecutionResults)
  : list ValidationFinding :=
  _check_structure sop ++ _check_syntax sop ++ _check_logic sop
  ++ _check_efficiency sop ++ _check_clarity sop
  ++ from_option (_check_execution sop) [] execution_results.

(** [validate_sop_comprehensive], lines 83-162.  [who] is the validator's
    name; the two clock readings give the id and the date of the report.
    (The call also appends the report to the validator's history, which
    nothing below reads.) *)
Definition validate_sop_comprehensive (who : string) (now_epoch : Z) (now_iso : string)
    (sop : SOPDefinition) (execution_results : option ExecutionResults)
  : ValidationReport :=
  let l := all_findings sop execution_results in
  let e := count_type error_ l in
  let q := quality_score l in
  mkReport
    ("val_" +:+ sop_id sop +:+ "_" +:+ str_of_int now_epoch)
    (sop_id sop) (version sop) now_iso who
    (Z.of_nat (length l)) e (count_type warning l) (count_type info l)
    (count_type suggestion l) q
    ((e =? 0) && Qle_bool 80 q)
    l (_generate_recommendations l) (_create_refinement_plan l).

(** ** Further operations of the agent *)

(** The [value] of the enum members, and the lookup by member name that
    [SOPStatus[...]] and [ValidationLevel[...]] perform ([None] stands for
    [KeyError]). *)
Definition status_value (st : SOPStatus) : string :=
  match st with
  | DRAFT => "draft"
  | VALIDATED => "validated"
  | IN_USE => "in_use"
  | DEPRECATED => "deprecated"
  | ARCHIVED => "archived"
  end.

Definition level_value (lv : ValidationLevel) : string :=
  match lv with
  | PERMISSIVE => "permissive"
  | MODERATE => "moderate"
  | STRICT => "strict"
  | CERTIFIED => "certified"
  end.

Definition status_by_name (s : string) : option SOPStatus :=
  if String.eqb s "DRAFT" then Some DRAFT
  else if String.eqb s "VALIDATED" then Some VALIDATED
  else if String.eqb s "IN_USE" then Some IN_USE
  else if String.eqb s "DEPRECATED" then Some DEPRECATED
  else if String.eqb s "ARCHIVED" then Some ARCHIVED
  else None.

Definition level_by_name (s : string) : option ValidationLevel :=
  if String.eqb s "PERMISSIVE" then Some PERMISSIVE
  else if String.eqb s "MODERATE" then Some MODERATE
  else if String.eqb s "STRICT" then Some STRICT
  else if String.eqb s "CERTIFIED" then Some CERTIFIED
  else None.

(** The dict [_save_sop] writes (lines 596-611): [asdict(sop)] with the
    two enum fields replaced by strings.  The other fields are kept in the
    definition [saved_fields]; its own two enum fields are not part of the
    dict.  Writing the dict as JSON text and reading it back returns the
    same dict, so the text is not modelled. *)
Record SavedSOP := mkSavedSOP {
  saved_fields : SOPDefinition;
  saved_status : string;
  saved_validation_level : string
}.

Definition _save_sop (sop : SOPDefinition) : SavedSOP :=
  mkSavedSOP sop (status_value (sop_status sop)) (level_value (validation_level sop)).

(** One round of the loop of [_load_sops] (lines 143-194) on a dict that
    has every key: the definition rebuilt from it, or [None] when the
    reconstruction raises, in which case the file is logged and skipped. *)
Definition _load_sop (d : SavedSOP) : option SOPDefinition :=
  match status_by_name (saved_status d) with
  | None => None
  | Some st =>
      match level_by_name (saved_validation_level d) with
      | None => None
      | Some lv =>
          let s := saved_fields d in
          Some (mkSOPDefinition (sop_id s) (sop_name s) (version s) st
                  (sop_description s) (sop_component s) (purpose s) (created_date s)
                  (last_modified s) (created_by s) (last_modified_by s) (steps s)
                  (prerequisites s) (sop_tags s) lv (execution_count s)
                  (success_count s) (failure_count s) (average_duration s)
                  (content_hash s))
      end
  end.

(** [_load_sops] over the dicts of the files found: every definition that
    could be rebuilt is registered under its own id, later files
    overwriting earlier ones. *)
Definition _load_sops (ag : Agent) (files : list SavedSOP) : Agent :=
  fold_left
    (fun acc d =>
       match _load_sop d with
       | Some sop => mkAgent (<[sop_id sop := sop]> (sops acc)) (execution_history acc)
       | None => acc
       end)
    files ag.

(** One row of [list_sops]. *)
Record SOPSummary := mkSOPSummary {
  sum_sop_id : string;
  sum_name : string;
  sum_version : string;
  sum_status : string;
  sum_component : string;
  sum_steps : Z;
  sum_execution_count : Z;
  sum_success_rate : Q
}.

Definition summary_of (s : SOPDefinition) : SOPSummary :=
  mkSOPSummary (sop_id s) (sop_name s) (version s) (status_value (sop_status s))
    (sop_component s) (Z.of_nat (length (steps s))) (execution_count s)
    (if 0 <? execution_count s
     then (inject_Z (success_count s) / inject_Z (execution_count s) * 100)%Q
     else 0%Q).

(** [list_sops], lines 636-666, on [values], the list
    [list(self.sops.values())] of the registry's definitions in the order
    they were inserted (an order the map of the embedding does not keep).
    A filter that is absent or empty is not applied. *)
Definition list_sops (values : list SOPDefinition) (comp st : option string)
  : list SOPSummary :=
  let l1 :=
    if opt_truthy comp
    then filter (fun s => sop_component s = default "" comp) values
    else values in
  let l2 :=
    if opt_truthy st
    then filter (fun s => status_value (sop_status s) = default "" st) l1
    else l1 in
  summary_of <$> l2.

(** How a call of [rebuild_from_sop] can end: with its pair, with the
    exception [execute_sop] raised, or with the [AttributeError] of reading
    a record that is [None]. *)
Inductive rebuild_result :=
| Rebuilt (success : bool) (summary : string)
| RebuildRaised (e : py_exception)
| RebuildNoRecord.

Section Rebuild.

Variable World : Type.
Variable run_command : World -> string -> Z -> cmd_result * World.

(** [rebuild_from_sop], lines 518-543: a run for real. *)
Definition rebuild_from_sop (ag : Agent) (w : World) (clk : ExecClock) (id : string)
  : Agent * World * rebuild_result :=
  match sops ag !! id with
  | None => (ag, w, Rebuilt false ("SOP not found: " +:+ id))
  | Some _ =>
      match execute_sop run_command ag w clk id false with
      | (ag', w', Raise x) => (ag', w', RebuildRaised x)
      | (ag', w', Return (_, None)) => (ag', w', RebuildNoRecord)
      | (ag', w', Return (true, Some e)) =>
          (ag', w',
           Rebuilt true
             ("Rebuild successful: " +:+ str_of_int (steps_completed e) +:+ "/"
                +:+ str_of_int (steps_total e) +:+ " steps"))
      | (ag', w', Return (false, Some e)) =>
          (ag', w',
           Rebuilt false
             ("Rebuild failed at step "
                +:+ match failed_steps e with
                    | n :: _ => str_of_int n
                    | [] => "unknown"
                    end))
      end
  end.

End Rebuild.

Arguments rebuild_from_sop {World} run_command ag w clk id.

(** ** SOPRefiner ([sop_validator_refiner.py], lines 459-573) *)

(** [_apply_auto_fix], lines 515-527. *)
Definition _apply_auto_fix (sop : SOPDefinition) (f : ValidationFinding)
  : bool * string :=
  (false, "Manual review required").

(** The entry [refine_from_validation] appends to the refiner's history. *)
Record RefinementRecord := mkRefinementRecord {
  rr_timestamp : string;
  rr_sop_id : string;
  rr_validation_id : string;
  refinements_applied : Z;
  rr_details : list string
}.

(** [refine_from_validation], lines 480-513: the shallow copy of the dict
    that is returned, and the history entry.  The copy is never written
    to. *)
Definition refine_from_validation (now : string) (sop : SOPDefinition)
    (report : ValidationReport) : SOPDefinition * RefinementRecord :=
  let refined_sop := sop in
  let refinements :=
    fold_left
      (fun acc f =>
         match finding_type f with
         | error_ =>
             let r := _apply_auto_fix refined_sop f in
             if r.1 then acc ++ [r.2] else acc
         | _ => acc
         end)
      (findings report) [] in
  (refined_sop,
   mkRefinementRecord now (sop_id sop) (validation_id report)
     (Z.of_nat (length refinements)) refinements).

(** One suggestion of [suggest_improvements]. *)
Record Improvement := mkImprovement {
  imp_step : option Z;
  imp_category : Category;
  current_issue : string;
  suggested_improvement : string;
  priority : string
}.

Definition priority_of (sev : Z) : string :=
  if 4 <=? sev then "high" else if 2 <=? sev then "medium" else "low".

Definition improvement_of (f : ValidationFinding) : Improvement :=
  mkImprovement (f_step_number f) (category f) (message f) (recommendation f)
    (priority_of (severity f)).

(** [suggest_improvements], lines 551-573 (the definition dict it is given
    is not read). *)
Definition suggest_improvements (report : ValidationReport) : list Improvement :=
  improvement_of
    <$> filter (fun f => finding_type f = suggestion \/ finding_type f = warning)
          (findings report).

(** ** Fixtures

    A command collaborator that keeps a log of the commands it was given:
    the command [false] exits with status 1, every other command exits
    with status 0.  The digest used with the fixtures is the identity, so
    the stored hash shows the serialised steps. *)
Module Fixtures.

Definition shell (log : list string) (cmd : string) (timeout : Z)
  : cmd_result * list string :=
  (if String.eqb cmd "false" then Exited 1 "" "exit status 1"
   else Exited 0 ("ran " +:+ cmd) "",
   log ++ [cmd]).

Definition plain_digest (s : string) : string := s.

Definition operation (cmd descr : string) (deps : option (list Z)) : Operation :=
  mkOperation None (Some descr) (Some cmd) None None None None None deps None.

Definition clock : ExecClock := mkExecClock "2024-01-01T00:00:00" 1704067200
                                  "2024-01-01T00:00:02" 1.5%float.

Definition empty_agent : Agent := mkAgent ∅ [].

(** Scenario A: [echo 1], then [echo 2] depending on step 1. *)
Definition agent_A : Agent :=
  (create_sop_from_operations plain_digest empty_agent "2024-01-01T00:00:00"
     "scenario_a" "Scenario" "Two echo commands, one after the other"
     "demo" "illustration"
     [ operation "echo 1" "Print the number one" None;
       operation "echo 2" "Print the number two" (Some [1]) ]
     "agent").1.

Definition step_A1 : SOPStep :=
  mkSOPStep 1 "Step 1" "Print the number one" "echo 1" "demo" None None None
    300 true 3 [] [].

Definition step_A2 : SOPStep :=
  mkSOPStep 2 "Step 2" "Print the number two" "echo 2" "demo" None None None
    300 true 3 [1] [].

Definition sop_with (id : string) (l : list SOPStep) (prereq : list string)
  : SOPDefinition :=
  mkSOPDefinition id "Scenario" "1.0.0" DRAFT
    "Two echo commands, one after the other" "demo" "illustration"
    "2024-01-01T00:00:00" "2024-01-01T00:00:00" "agent" "agent"
    l prereq ["demo"] PERMISSIVE 0 0 0 0%float (plain_digest (json_dumps l)).

(** The definition [agent_A] holds. *)
Definition sop_A : SOPDefinition := sop_with "scenario_a" [step_A1; step_A2] [].

(** Scenario B: step 2 depends on step 3, which does not exist. *)
Definition step_B2 : SOPStep :=
  mkSOPStep 2 "Step 2" "Print the number two" "echo 2" "demo" None None None
    300 true 3 [3] [].

Definition sop_B : SOPDefinition :=
  sop_with "scenario_b" [step_A1; step_B2] ["a shell"].

(** Scenario C: step 1 runs [false] and must not be retried. *)
Definition step_C1 : SOPStep :=
  mkSOPStep 1 "Step 1" "A command that fails" "false" "demo" None None None
    300 false 3 [] [].

Definition step_C2 : SOPStep :=
  mkSOPStep 2 "Step 2" "Print the number two" "echo 2" "demo" None None None
    300 true 3 [] [].

Definition sop_C : SOPDefinition := sop_with "scenario_c" [step_C1; step_C2] [].

Definition agent_C : Agent := mkAgent {[ "scenario_c" := sop_C ]} [].

End Fixtures.

(** ** Notions used in the statements *)

(** One [execute()] request: the clock readings of the call, the id and
    the dry-run flag. *)
Record call := mkCall {
  call_clock : ExecClock;
  call_id : string;
  call_dry_run : bool
}.

(** A sequence of [execute_sop] calls on one agent. *)
Fixpoint execute_all {World : Type}
    (run_command : World -> string -> Z -> cmd_result * World)
    (calls : list call) (ag : Agent) (w : World) : Agent * World :=
  match calls with
  | [] => (ag, w)
  | c :: rest =>
      let r := execute_sop run_command ag w (call_clock c) (call_id c) (call_dry_run c) in
      execute_all run_command rest r.1.1 r.1.2
  end.

(** The definition one call of [execute_sop] leaves in the registry, in
    place of [sop], when the run produced the record [e]. *)
Definition stored_after (sop : SOPDefinition) (e : SOPExecution) : SOPDefinition :=
  match update_average (count_execution sop e) e with
  | Return s => s
  | Raise _ => count_execution sop e
  end.

Definition balanced (sop : SOPDefinition) : Prop :=
  success_count sop + failure_count sop = execution_count sop.

Definition fresh (sop : SOPDefinition) : Prop :=
  execution_count sop = 0 /\ success_count sop = 0 /\ failure_count sop = 0.

(** Exactly one of the two outcome counters moves, by one. *)
Definition one_outcome_more (sop sop' : SOPDefinition) : Prop :=
  (success_count sop' = success_count sop + 1
   /\ failure_count sop' = failure_count sop)
  \/ (success_count sop' = success_count sop
      /\ failure_count sop' = failure_count sop + 1).

(** A log with three records of the id a and one of the id b in between. *)
Definition sample_history : Agent :=
  let rec (i : string) (n : Z) :=
    mkSOPExecution (i +:+ "_" +:+ str_of_int n) i "1.0.0" "t" (Some "t") 0%float
      COMPLETED n n 100%Q [] ∅ None in
  mkAgent ∅ [rec "a" 1; rec "b" 2; rec "a" 3; rec "a" 4].

(** What one finding costs. *)
Definition penalty (f : ValidationFinding) : Q :=
  match finding_type f with
  | error_ => inject_Z (severity f * 2)
  | warning => inject_Z (severity f * 1)
  | suggestion => 1 # 2
  | info => 0
  end.

Fixpoint total_penalty (l : list ValidationFinding) : Q :=
  match l with
  | [] => 0
  | f :: r => penalty f + total_penalty r
  end.

(** The range the data model gives for a severity. *)
Definition severity_in_range (f : ValidationFinding) : Prop := 1 <= severity f <= 5.

(** Two steps agree on an attribute. *)
Definition field_agree (f : field) (s s' : SOPStep) : Prop :=
  match f with
  | F_step_number => step_number s = step_number s'
  | F_name => name s = name s'
  | F_description => description s = description s'
  | F_command => command s = command s'
  | F_component => component s = component s'
  | F_expected_output => expected_output s = expected_output s'
  | F_validation_check => validation_check s = validation_check s'
  | F_rollback_command => rollback_command s = rollback_command s'
  | F_timeout_seconds => timeout_seconds s = timeout_seconds s'
  | F_retry_on_failure => retry_on_failure s = retry_on_failure s'
  | F_max_retries => max_retries s = max_retries s'
  | F_dependencies => dependencies s = dependencies s'
  | F_tags => tags s = tags s'
  end.

(** No entry of the changes dict names the attribute. *)
Definition untouched_by (f : field) (changes : list change) : Prop :=
  Forall (fun c => change_field c <> Some f) changes.

(** The step has the value an entry of a changes dict gives; an entry
    whose key is no attribute asks for nothing. *)
Definition has_value (c : change) (s : SOPStep) : Prop :=
  match c with
  | set_step_number v => step_number s = v
  | set_name v => name s = v
  | set_description v => description s = v
  | set_command v => command s = v
  | set_component v => component s = v
  | set_expected_output v => expected_output s = v
  | set_validation_check v => validation_check s = v
  | set_rollback_command v => rollback_command s = v
  | set_timeout_seconds v => timeout_seconds s = v
  | set_retry_on_failure v => retry_on_failure s = v
  | set_max_retries v => max_retries s = v
  | set_dependencies v => dependencies s = v
  | set_tags v => tags s = v
  | set_other _ => True
  end.

(** The attributes the entries of a changes dict name; the keys of a dict
    are distinct, so each attribute is named at most once. *)
Definition named_fields (changes : list change) : list field :=
  omap change_field changes.

(** [s], at position [i], is the first step of [l] that carries the
    number [n]: the step a key [n] of the updates finds. *)
Definition first_numbered (n : Z) (l : list SOPStep) (i : nat) (s : SOPStep) : Prop :=
  l !! i = Some s /\ step_number s = n
  /\ forall (j : nat) (s' : SOPStep), (j < i)%nat -> l !! j = Some s' -> step_number s' <> n.

(** No entry of the updates gives a step a number that is the key of
    another entry. *)
Definition renumbers_apart (updates : list (Z * list change)) : Prop :=
  Forall (fun u => forall v, set_step_number v ∈ u.2 -> v = u.1 \/ v ∉ updates.*1)
    updates.

(** The stored hash is the digest of the stored steps. *)
Definition hash_current (sha256_hex : string -> string) (sop : SOPDefinition) : Prop :=
  content_hash sop = _compute_hash sha256_hex (steps sop).

(** The number a list of decimal digits denotes, continuing from [acc],
    and the strings made of decimal digits only. *)
Definition feed (acc : Z) (l : list ascii) : Z :=
  fold_left (fun a c => 10 * a + (Z.of_N (N_of_ascii c) - 48)) l acc.

Definition all_digits (s : string) : Prop :=
  Forall (fun c => is_digit c = true) (list_ascii_of_string s).

(** ** Notions used in the further statements *)

(** The finding [_check_structure] reports for a definition without
    steps, and the severities the checks use for each type of finding. *)
Definition no_steps_finding (sop : SOPDefinition) : ValidationFinding :=
  mkFinding ("STR_002_" +:+ sop_id sop) (sop_id sop) error_ structure None
    "SOP has no steps" "Add at least one step to the SOP" 5 false.

Definition severity_fits_type (f : ValidationFinding) : Prop :=
  match finding_type f with
  | error_ => 4 <= severity f <= 5
  | warning => 2 <= severity f <= 3
  | info => severity f = 1
  | suggestion => severity f = 1
  end.

(** The [value] of the members of [StepStatus]. *)
Definition step_status_value (st : StepStatus) : string :=
  match st with
  | PENDING => "pending"
  | RUNNING => "running"
  | COMPLETED => "completed"
  | FAILED => "failed"
  | SKIPPED => "skipped"
  end.

(** One [refine_sop] request, and a sequence of them on one id: the agent
    afterwards and the success flags of the calls. *)
Record refinement := mkRefinement {
  ref_now : string;
  ref_updates : list (Z * list change);
  ref_by : string
}.

Fixpoint refine_all (sha256_hex : string -> string) (calls : list refinement)
    (ag : Agent) (id : string) : Agent * list bool :=
  match calls with
  | [] => (ag, [])
  | c :: rest =>
      let r := refine_sop sha256_hex ag (ref_now c) id (ref_updates c) (ref_by c) in
      let x := refine_all sha256_hex rest r.1 id in
      (x.1, r.2.1 :: x.2)
  end.

(** A string without a dot. *)
Definition dot_free (s : string) : Prop :=
  Forall (fun c => N_of_ascii c <> 46%N) (list_ascii_of_string s).

(** Reading the serialisation back.  [unescape_char] reads one escaped
    character from the front of a text; an item of a JSON list or the
    value of a member is followed by a comma, a bracket or a brace. *)
Definition hex_value (c : ascii) : N :=
  let n := N_of_ascii c in if (n <? 58)%N then (n - 48)%N else (n - 87)%N.

Definition unescape_char (l : list ascii) : option (ascii * list ascii) :=
  match l with
  | [] => None
  | c :: r =>
      if (N_of_ascii c =? 34)%N then None
      else if (N_of_ascii c =? 92)%N then
        match r with
        | [] => None
        | e :: r' =>
            let n := N_of_ascii e in
            if (n =? 34)%N then Some (dquote, r')
            else if (n =? 92)%N then Some (backslash, r')
            else if (n =? 98)%N then Some (ascii_of_N 8, r')
            else if (n =? 102)%N then Some (ascii_of_N 12, r')
            else if (n =? 110)%N then Some (ascii_of_N 10, r')
            else if (n =? 114)%N then Some (ascii_of_N 13, r')
            else if (n =? 116)%N then Some (ascii_of_N 9, r')
            else match r' with
                 | _ :: _ :: h1 :: h2 :: r'' =>
                     Some (ascii_of_N (16 * hex_value h1 + hex_value h2), r'')
                 | _ => None
                 end
        end
      else Some (c, r)
  end.

Definition is_int_char (c : ascii) : bool :=
  is_digit c || (N_of_ascii c =? 45)%N.

Definition is_delimiter (c : ascii) : bool :=
  let n := N_of_ascii c in ((n =? 44) || (n =? 93) || (n =? 125))%N.

Definition delimited (r : list ascii) : Prop :=
  match r with
  | c :: _ => is_delimiter c = true
  | [] => False
  end.

(** A value starts with a character that is no delimiter. *)
Definition starts_value (s : string) : Prop :=
  match s with
  | String c _ => is_delimiter c = false
  | EmptyString => False
  end.

(** No text of [enc] continues to another one: from a text followed by a
    delimiter, the value and what follows can be told. *)
Definition prefix_free {A : Type} (enc : A -> string) : Prop :=
  forall x y r1 r2, delimited r1 -> delimited r2 ->
    list_ascii_of_string (enc x) ++ r1 = list_ascii_of_string (enc y) ++ r2 ->
    x = y /\ r1 = r2.

(** What follows the first item of a joined list. *)
Definition join_tail (items : list string) (t : list ascii) : list ascii :=
  match items with
  | [] => t
  | _ :: _ => ","%char :: " "%char :: list_ascii_of_string (join ", " items) ++ t
  end.

(** * Properties *)

(** ** The executor loop *)

Section ExecutorFacts.

Context {World : Type}.
Variable run_command : World -> string -> Z -> cmd_result * World.

(** The loop never writes the [output] field of the execution record. *)
Lemma run_steps_output dry_run todo st :
  output (ls_execution (run_steps run_command dry_run todo st))
  = output (ls_execution st).
Proof.
  revert st. induction todo as [|step rest IH]; intros st; simpl; [done|].
  destruct (list_truthy (dependencies step) && negb (deps_met (ls_execution st) step)).
  - by rewrite IH.
  - destruct (_execute_step run_command (ls_world st) step dry_run) as [[ok out] w'].
    destruct ok.
    + by rewrite IH.
    + destruct (negb (retry_on_failure step)); [done | by rewrite IH].
Qed.

(** Against an empty [output] field no non-empty dependency list is met. *)
Lemma deps_unmet_on_empty e step :
  output e = ∅ -> dependencies step <> [] ->
  list_truthy (dependencies step) && negb (deps_met e step) = true.
Proof.
  intros He Hd. unfold deps_met. rewrite He.
  destruct (dependencies step) as [|d ds]; [done|].
  simpl. unfold dict_has. by rewrite lookup_empty.
Qed.

(** Hence a step that declares dependencies is put on the failed list
    with the world untouched, whatever the earlier steps produced. *)
Lemma run_steps_dependent_step dry_run step rest st :
  output (ls_execution st) = ∅ -> dependencies step <> [] ->
  run_steps run_command dry_run (step :: rest) st
  = run_steps run_command dry_run rest
      (mkLoop (ls_execution st) (ls_failed_steps st ++ [step_number step])
         (ls_step_outputs st) (ls_world st)).
Proof.
  intros He Hd. simpl. by rewrite deps_unmet_on_empty.
Qed.

(** In any run, dry or not, the steps that leave an output are steps
    without dependencies. *)
Lemma run_steps_outputs dry_run todo st k :
  output (ls_execution st) = ∅ ->
  is_Some (ls_step_outputs (run_steps run_command dry_run todo st) !! k) ->
  is_Some (ls_step_outputs st !! k)
  \/ exists s, s ∈ todo /\ step_number s = k /\ dependencies s = [].
Proof.
  revert st. induction todo as [|step rest IH]; intros st He Hk; [by left|].
  assert (forall st1,
    output (ls_execution st1) = ∅ ->
    ls_step_outputs st1 = <[step_number step := (_execute_step run_command
                              (ls_world st) step dry_run).1.2]> (ls_step_outputs st) ->
    dependencies step = [] ->
    is_Some (ls_step_outputs (run_steps run_command dry_run rest st1) !! k) ->
    is_Some (ls_step_outputs st !! k)
    \/ exists s, s ∈ step :: rest /\ step_number s = k /\ dependencies s = []) as Hrun.
  { intros st1 He1 Ho Hd Hk1. destruct (IH st1 He1 Hk1) as [Hs|(s & Hin & Hn & Hds)].
    - rewrite Ho in Hs. destruct (decide (step_number step = k)) as [E|E].
      + right. exists step. split; [left|done].
      + left. by rewrite lookup_insert_ne in Hs.
    - right. exists s. split; [by right|done]. }
  destruct (decide (dependencies step = [])) as [Hd|Hd].
  - cbn [run_steps] in Hk. rewrite Hd in Hk. cbn [list_truthy andb] in Hk.
    destruct (_execute_step run_command (ls_world st) step dry_run) as [[ok out] w'] eqn:E.
    destruct ok.
    + by apply Hrun in Hk.
    + destruct (negb (retry_on_failure step)).
      * cbn [ls_step_outputs] in Hk. destruct (decide (step_number step = k)) as [E'|E'].
        -- right. exists step. split; [left|done].
        -- left. by rewrite lookup_insert_ne in Hk.
      * by apply Hrun in Hk.
  - rewrite run_steps_dependent_step in Hk by done.
    apply IH in Hk; [|exact He].
    destruct Hk as [Hs|(s & Hin & Hn & Hds)]; [by left|].
    right. exists s. split; [by right|done].
Qed.

(** A dry run invokes nothing: every step without dependencies counts as
    completed, every step with dependencies goes to the failed list. *)
Lemma run_steps_dry_run todo st :
  output (ls_execution st) = ∅ ->
  let st' := run_steps run_command true todo st in
  ls_failed_steps st'
  = ls_failed_steps st ++ (step_number <$> filter (fun s => dependencies s <> []) todo)
  /\ steps_completed (ls_execution st')
     = steps_completed (ls_execution st)
       + Z.of_nat (length (filter (fun s => dependencies s = []) todo))
  /\ ls_world st' = ls_world st.
Proof.
  revert st. induction todo as [|step rest IH]; intros st He; cbv zeta.
  - cbn. rewrite app_nil_r. repeat split. lia.
  - destruct (decide (dependencies step = [])) as [Hd|Hd].
    + cbn [run_steps]. rewrite Hd. cbn [list_truthy andb _execute_step].
      rewrite filter_cons_False by (by intros ?).
      rewrite filter_cons_True by done.
      destruct (IH (mkLoop (with_steps_completed (ls_execution st)
                              (steps_completed (ls_execution st) + 1))
                      (ls_failed_steps st)
                      (<[step_number step := "[DRY RUN] " +:+ command step]>
                         (ls_step_outputs st))
                      (ls_world st)) He) as (-> & -> & ->).
      cbn [ls_failed_steps ls_execution ls_world steps_completed with_steps_completed length].
      repeat split. lia.
    + rewrite run_steps_dependent_step by done.
      rewrite filter_cons_True by done.
      rewrite filter_cons_False by (by intros ?).
      destruct (IH (mkLoop (ls_execution st) (ls_failed_steps st ++ [step_number step])
                      (ls_step_outputs st) (ls_world st)) He) as (-> & -> & ->).
      cbn [ls_failed_steps ls_execution ls_world fmap list_fmap].
      rewrite <- app_assoc. repeat split.
Qed.

(** What one call of [execute_sop] does to the registry and the world. *)
Lemma execute_sop_registry ag w clk id dry_run sop :
  sops ag !! id = Some sop ->
  let r := run_execution run_command w clk id sop dry_run in
  sops (execute_sop run_command ag w clk id dry_run).1.1
  = <[id := stored_after sop r.1]> (sops ag)
  /\ (execute_sop run_command ag w clk id dry_run).1.2 = r.2.
Proof.
  intros H r. unfold execute_sop, stored_after. rewrite H. subst r.
  destruct (run_execution run_command w clk id sop dry_run) as [e w'].
  cbn [fst snd]. by destruct (update_average (count_execution sop e) e).
Qed.

(** It returns, with the record appended to the history, unless the
    stored count is -1. *)
Lemma execute_sop_returns ag w clk id dry_run sop :
  sops ag !! id = Some sop ->
  execution_count sop <> -1 ->
  let r := run_execution run_command w clk id sop dry_run in
  execute_sop run_command ag w clk id dry_run
  = (mkAgent (<[id := stored_after sop r.1]> (sops ag)) (execution_history ag ++ [r.1]),
     r.2, Return (is_completed (status r.1), Some r.1)).
Proof.
  intros H Hn r. unfold execute_sop, stored_after. rewrite H. subst r.
  destruct (run_execution run_command w clk id sop dry_run) as [e w'].
  cbn [fst snd]. unfold update_average.
  destruct (Z.eqb_spec (execution_count (count_execution sop e)) 0) as [E|E];
    [cbn in E; lia | reflexivity].
Qed.

Lemma execute_sop_unknown ag w clk id dry_run :
  sops ag !! id = None ->
  execute_sop run_command ag w clk id dry_run = (ag, w, Return (false, None)).
Proof. intros H. unfold execute_sop. by rewrite H. Qed.

End ExecutorFacts.

(** C1.  The two-step definition of scenario A run for real: step 1 runs
    and leaves its output under key 1, and still step 2, whose only
    dependency is step 1, is reported failed and its command is never
    given to the shell. *)
Theorem execute_fails_satisfied_dependency :
  let r := run_execution Fixtures.shell [] Fixtures.clock "scenario_a" Fixtures.sop_A false in
  output r.1 !! 1 = Some "ran echo 1"
  /\ failed_steps r.1 = [2]
  /\ output r.1 !! 2 = None
  /\ steps_completed r.1 = 1
  /\ status r.1 = FAILED
  /\ r.2 = ["echo 1"].
Proof. vm_compute. repeat split; reflexivity. Qed.

Lemma agent_A_lookup :
  sops Fixtures.agent_A !! "scenario_a" = Some Fixtures.sop_A.
Proof. vm_compute. reflexivity. Qed.

(** C6.  A two-step definition whose first step is run and fails, with
    [retry_on_failure] off: the loop stops there and the call returns.
    The world returned is the one the first step left (the second command
    was not run), only the first step has an output, and the record reads
    0 of 2 steps, failed, rate 0. *)
Theorem execute_stops_on_first_failure
    {World : Type} (run_command : World -> string -> Z -> cmd_result * World)
    (ag : Agent) (w w1 : World) (clk : ExecClock) (id : string) (dry_run : bool)
    (sop : SOPDefinition) (s1 s2 : SOPStep) (out : string) :
  sops ag !! id = Some sop ->
  steps sop = [s1; s2] ->
  execution_count sop <> -1 ->
  dependencies s1 = [] ->
  retry_on_failure s1 = false ->
  _execute_step run_command w s1 dry_run = (false, out, w1) ->
  exists ag' e,
    execute_sop run_command ag w clk id dry_run = (ag', w1, Return (false, Some e))
    /\ steps_completed e = 0
    /\ steps_total e = 2
    /\ status e = FAILED
    /\ (success_rate e == 0)%Q
    /\ failed_steps e = [step_number s1]
    /\ output e = {[ step_number s1 := out ]}.
Proof.
  intros Hsop Hsteps Hcount Hdeps Hretry Hrun.
  rewrite (execute_sop_returns run_command _ _ _ _ _ _ Hsop Hcount).
  unfold run_execution. rewrite Hsteps. cbn [run_steps ls_execution ls_world].
  rewrite Hdeps. cbn [list_truthy andb]. rewrite Hrun, Hretry.
  cbn. rewrite Hsteps. eexists _, _. repeat split; try reflexivity.
  cbn. by rewrite Hsteps.
Qed.

(** The theorem at scenario C, where the first command is [false]. *)
Lemma execute_stops_on_first_failure_witness :
  exists ag' e,
    execute_sop Fixtures.shell Fixtures.agent_C [] Fixtures.clock "scenario_c" false
    = (ag', ["false"], Return (false, Some e))
    /\ steps_completed e = 0
    /\ steps_total e = 2
    /\ status e = FAILED
    /\ (success_rate e == 0)%Q
    /\ failed_steps e = [1]
    /\ output e = {[ 1 := "Command failed: exit status 1" ]}.
Proof.
  apply (execute_stops_on_first_failure Fixtures.shell Fixtures.agent_C [] ["false"]
           Fixtures.clock "scenario_c" false Fixtures.sop_C
           Fixtures.step_C1 Fixtures.step_C2 "Command failed: exit status 1");
    try (vm_compute; reflexivity); discriminate.
Defined.

(** ** The counters of a definition *)

Section Counters.

Context {World : Type}.
Variable run_command : World -> string -> Z -> cmd_result * World.

Lemma stored_after_counts sop e :
  execution_count (stored_after sop e) = execution_count sop + 1
  /\ one_outcome_more sop (stored_after sop e).
Proof.
  unfold stored_after, update_average, count_execution, one_outcome_more.
  destruct (_ =? 0); cbn; destruct (is_completed (status e)); auto.
Qed.

Lemma stored_after_frame sop e :
  steps (stored_after sop e) = steps sop
  /\ content_hash (stored_after sop e) = content_hash sop.
Proof.
  unfold stored_after, update_average, count_execution.
  destruct (_ =? 0); cbn; auto.
Qed.

Lemma stored_after_balanced sop e :
  balanced sop -> balanced (stored_after sop e).
Proof.
  unfold balanced. intros H.
  destruct (stored_after_counts sop e) as [-> [[-> ->]|[-> ->]]]; lia.
Qed.

(** One call keeps every stored definition balanced. *)
Lemma execute_sop_balanced ag w clk id dry_run :
  map_Forall (fun _ => balanced) (sops ag) ->
  map_Forall (fun _ => balanced)
    (sops (execute_sop run_command ag w clk id dry_run).1.1).
Proof.
  intros Hall. destruct (sops ag !! id) as [sop|] eqn:Hsop.
  - destruct (execute_sop_registry run_command ag w clk id dry_run sop Hsop) as [-> _].
    apply map_Forall_insert_2; [|done].
    apply stored_after_balanced. by apply (Hall id).
  - by rewrite (execute_sop_unknown run_command _ _ _ _ _ Hsop).
Qed.

Lemma execute_all_balanced calls ag w :
  map_Forall (fun _ => balanced) (sops ag) ->
  map_Forall (fun _ => balanced) (sops (execute_all run_command calls ag w).1).
Proof.
  revert ag w. induction calls as [|c rest IH]; intros ag w Hall; [done|].
  cbn [execute_all]. apply IH. by apply execute_sop_balanced.
Qed.

Lemma fresh_balanced sop : fresh sop -> balanced sop.
Proof. unfold fresh, balanced. lia. Qed.

End Counters.

(** C7.  Start from a registry in which every definition has its three
    counters at zero.  After any sequence of [execute_sop] calls every
    stored definition satisfies
    [success_count + failure_count = execution_count]; and one call on a
    stored definition, in any registry, adds one to [execution_count] and
    one to exactly one of [success_count] and [failure_count] (also when
    the call then raises on the average). *)
Theorem execute_keeps_counters_balanced
    {World : Type} (run_command : World -> string -> Z -> cmd_result * World)
    (ag : Agent) :
  map_Forall (fun _ => fresh) (sops ag) ->
  (forall (calls : list call) (w : World) (id : string) (sop : SOPDefinition),
      sops (execute_all run_command calls ag w).1 !! id = Some sop ->
      success_count sop + failure_count sop = execution_count sop)
  /\ (forall (ag0 : Agent) (w : World) (clk : ExecClock) (id : string)
        (dry_run : bool) (sop : SOPDefinition),
        sops ag0 !! id = Some sop ->
        exists sop',
          sops (execute_sop run_command ag0 w clk id dry_run).1.1 !! id = Some sop'
          /\ execution_count sop' = execution_count sop + 1
          /\ one_outcome_more sop sop').
Proof.
  intros Hfresh. split.
  - intros calls w id sop Hsop.
    refine (execute_all_balanced run_command calls ag w _ id sop Hsop).
    intros i s Hs. apply fresh_balanced. by apply (Hfresh i).
  - intros ag0 w clk id dry_run sop Hsop.
    destruct (execute_sop_registry run_command ag0 w clk id dry_run sop Hsop) as [-> _].
    eexists. rewrite lookup_insert_eq. split; [reflexivity|].
    apply stored_after_counts.
Qed.

(** The theorem at the registry holding scenario A, with a dry run, a real
    run and a call for an unknown id. *)
Lemma execute_keeps_counters_balanced_witness :
  (forall (calls : list call) (w : list string) (id : string) (sop : SOPDefinition),
      sops (execute_all Fixtures.shell calls Fixtures.agent_A w).1 !! id = Some sop ->
      success_count sop + failure_count sop = execution_count sop)
  /\ (forall (ag0 : Agent) (w : list string) (clk : ExecClock) (id : string)
        (dry_run : bool) (sop : SOPDefinition),
        sops ag0 !! id = Some sop ->
        exists sop',
          sops (execute_sop Fixtures.shell ag0 w clk id dry_run).1.1 !! id = Some sop'
          /\ execution_count sop' = execution_count sop + 1
          /\ one_outcome_more sop sop').
Proof.
  apply (execute_keeps_counters_balanced Fixtures.shell Fixtures.agent_A).
  unfold Fixtures.agent_A, create_sop_from_operations, Fixtures.empty_agent.
  cbn [sops]. rewrite lookup_empty. cbn [fst sops].
  apply map_Forall_insert_2; [|apply map_Forall_empty].
  vm_compute. auto.
Defined.

(** The counters after three calls on scenario A. *)
Example counters_after_three_calls :
  let ag := (execute_all Fixtures.shell
               [ mkCall Fixtures.clock "scenario_a" true;
                 mkCall Fixtures.clock "scenario_a" false;
                 mkCall Fixtures.clock "missing" false ]
               Fixtures.agent_A []).1 in
  (fun s => (execution_count s, success_count s, failure_count s))
    <$> sops ag !! "scenario_a" = Some (2, 0, 2).
Proof. vm_compute. reflexivity. Qed.

(** ** The execution history *)

Lemma slice_from_last {A} (l : list A) (limit : Z) :
  1 <= limit ->
  slice_from (- limit) l
  = drop (length l - Z.to_nat (Z.min limit (Z.of_nat (length l)))) l.
Proof.
  intros H. unfold slice_from.
  destruct (Z.ltb_spec (- limit) 0) as [_|?]; [|lia].
  f_equal. lia.
Qed.

Lemma slice_from_zero {A} (l : list A) : slice_from (- 0) l = l.
Proof. unfold slice_from. cbn. destruct l; reflexivity. Qed.

Lemma str_truthy_nonempty s : s <> "" -> str_truthy s = true.
Proof. by destruct s. Qed.

(** Without an id (or with an empty one) the whole log is sliced. *)
Lemma history_unfiltered ag limit :
  get_execution_history ag None limit = slice_from (- limit) (execution_history ag)
  /\ get_execution_history ag (Some "") limit
     = slice_from (- limit) (execution_history ag).
Proof. split; reflexivity. Qed.

(** C10.  For a non-empty id, let [m] be the records of that id in the
    order they were appended.  With [limit >= 1] the call returns the last
    [min limit (length m)] records of [m], in the same order; with
    [limit = 0] it returns all of [m]. *)
Theorem history_returns_last_records (ag : Agent) (id : string) (limit : Z) :
  id <> "" ->
  let m := filter (fun e => exec_sop_id e = id) (execution_history ag) in
  let k := Z.to_nat (Z.min limit (Z.of_nat (length m))) in
  (1 <= limit ->
     get_execution_history ag (Some id) limit = drop (length m - k) m
     /\ length (get_execution_history ag (Some id) limit) = k
     /\ exists older, m = older ++ get_execution_history ag (Some id) limit)
  /\ (limit = 0 -> get_execution_history ag (Some id) limit = m).
Proof.
  intros Hid m k. unfold get_execution_history.
  rewrite (str_truthy_nonempty _ Hid). fold m. split.
  - intros Hl. rewrite slice_from_last by done. fold k.
    split; [done|]. split.
    + rewrite length_drop. lia.
    + exists (take (length m - k) m). by rewrite take_drop.
  - intros ->. apply slice_from_zero.
Qed.

Lemma history_returns_last_records_witness :
  (1 <= 2 ->
     get_execution_history sample_history (Some "a") 2
     = drop 1 (filter (fun e => exec_sop_id e = "a") (execution_history sample_history))
     /\ length (get_execution_history sample_history (Some "a") 2) = 2%nat
     /\ exists older,
         filter (fun e => exec_sop_id e = "a") (execution_history sample_history)
         = older ++ get_execution_history sample_history (Some "a") 2)
  /\ (2 = 0 -> get_execution_history sample_history (Some "a") 2
               = filter (fun e => exec_sop_id e = "a") (execution_history sample_history)).
Proof.
  apply (history_returns_last_records sample_history "a" 2). discriminate.
Defined.

Example history_limit_two :
  steps_completed <$> get_execution_history sample_history (Some "a") 2 = [3; 4].
Proof. vm_compute. reflexivity. Qed.

Example history_limit_zero :
  steps_completed <$> get_execution_history sample_history (Some "a") 0 = [1; 3; 4].
Proof. vm_compute. reflexivity. Qed.

Example history_limit_large :
  steps_completed <$> get_execution_history sample_history (Some "a") 10 = [1; 3; 4].
Proof. vm_compute. reflexivity. Qed.

(** ** Scoring *)

Section Scoring.

Local Open Scope Q_scope.

Lemma deduct_penalty q f : deduct q f == q - penalty f.
Proof. unfold deduct, penalty. destruct (finding_type f); lra. Qed.

Lemma fold_deduct l q : fold_left deduct l q == q - total_penalty l.
Proof.
  revert q. induction l as [|f r IH]; intros q; cbn [fold_left total_penalty].
  - lra.
  - rewrite IH, deduct_penalty. lra.
Qed.

Lemma total_penalty_app l1 l2 :
  total_penalty (l1 ++ l2) == total_penalty l1 + total_penalty l2.
Proof.
  induction l1 as [|f r IH]; cbn [app total_penalty]; [lra|]. rewrite IH. lra.
Qed.

Lemma penalty_nonneg f : (0 <= severity f)%Z -> 0 <= penalty f.
Proof.
  intros H. unfold penalty.
  destruct (finding_type f); try lra;
    (change 0 with (inject_Z 0); rewrite <- Zle_Qle; lia).
Qed.

Lemma total_penalty_nonneg l :
  Forall (fun f => (0 <= severity f)%Z) l -> 0 <= total_penalty l.
Proof.
  induction 1 as [|f r Hf _ IH]; cbn [total_penalty]; [lra|].
  pose proof (penalty_nonneg f Hf). lra.
Qed.

(** The score is 100 less the penalties, cut off at 0. *)
Lemma quality_score_spec l :
  (100 - total_penalty l <= 0 -> quality_score l == 0)
  /\ (0 < 100 - total_penalty l -> quality_score l == 100 - total_penalty l).
Proof.
  unfold quality_score. pose proof (fold_deduct l 100) as E.
  destruct (Qle_bool (fold_left deduct l 100) 0) eqn:B.
  - apply Qle_bool_iff in B. split; intros; lra.
  - assert (~ fold_left deduct l 100 <= 0) as N
      by (rewrite <- Qle_bool_iff; congruence).
    split; intros; lra.
Qed.

Lemma quality_score_bounds l :
  Forall (fun f => (0 <= severity f)%Z) l ->
  0 <= quality_score l <= 100 - total_penalty l \/ quality_score l == 0.
Proof.
  intros H. destruct (Qlt_le_dec 0 (100 - total_penalty l)) as [Hp|Hn].
  - left. destruct (quality_score_spec l) as [_ E]. rewrite (E Hp). lra.
  - right. by apply quality_score_spec.
Qed.

End Scoring.

(** ** The findings the checks can produce *)

Lemma count_type_app t l1 l2 :
  count_type t (l1 ++ l2) = count_type t l1 + count_type t l2.
Proof. unfold count_type. rewrite filter_app, length_app. lia. Qed.

Lemma count_type_nonneg t l : 0 <= count_type t l.
Proof. unfold count_type. lia. Qed.

Local Ltac one_finding :=
  unfold compose; cbv beta zeta;
  repeat match goal with
         | |- Forall _ (_ ++ _) => apply Forall_app_2
         | |- Forall _ (if ?b then _ else _) => destruct b
         | |- Forall _ [] => constructor
         | |- Forall _ (_ :: _) => constructor
         | |- severity_in_range _ => unfold severity_in_range; cbn; lia
         | |- category _ = _ => reflexivity
         end.

Lemma check_numbering_severity sop i l :
  Forall severity_in_range (check_numbering sop i l).
Proof. revert i. induction l as [|s r IH]; intros i; cbn; one_finding. apply IH. Qed.

Lemma all_findings_severity sop res :
  Forall severity_in_range (all_findings sop res).
Proof.
  unfold all_findings. rewrite !Forall_app. repeat split.
  - unfold _check_structure. rewrite !Forall_app. repeat split.
    + apply Forall_fmap, Forall_true. intros fld. one_finding.
    + one_finding.
    + apply check_numbering_severity.
  - unfold _check_syntax. apply Forall_bind, Forall_true. intros s.
    unfold syntax_of_step. one_finding.
  - unfold _check_logic. apply Forall_bind, Forall_true. intros s.
    unfold compose, logic_of_step. apply Forall_bind, Forall_true. intros d.
    unfold logic_of_dep. one_finding.
  - unfold _check_efficiency. rewrite !Forall_app. repeat split; one_finding.
    apply Forall_bind, Forall_true. intros s. unfold timeout_of_step. one_finding.
  - unfold _check_clarity. rewrite !Forall_app. repeat split; one_finding.
    apply Forall_bind, Forall_true. intros s. unfold clarity_of_step. one_finding.
  - destruct res as [res|]; cbn; [|constructor].
    unfold _check_execution. destruct (String.eqb _ _); [|constructor].
    apply Forall_fmap, Forall_true. intros n. one_finding.
Qed.

Lemma all_findings_penalty_nonneg sop res :
  (0 <= total_penalty (all_findings sop res))%Q.
Proof.
  apply total_penalty_nonneg.
  eapply Forall_impl; [apply all_findings_severity|].
  unfold severity_in_range. intros f ?. cbn beta. lia.
Qed.

(** Each check reports under its own category. *)
Lemma check_numbering_category sop i l :
  Forall (fun f => category f = structure) (check_numbering sop i l).
Proof. revert i. induction l as [|s r IH]; intros i; cbn; one_finding. apply IH. Qed.

Lemma _check_structure_category sop :
  Forall (fun f => category f = structure) (_check_structure sop).
Proof.
  unfold _check_structure. rewrite !Forall_app. repeat split.
  - apply Forall_fmap, Forall_true. intros fld. one_finding.
  - one_finding.
  - apply check_numbering_category.
Qed.

Lemma _check_syntax_category sop :
  Forall (fun f => category f = syntax) (_check_syntax sop).
Proof.
  unfold _check_syntax. apply Forall_bind, Forall_true. intros s.
  unfold syntax_of_step. one_finding.
Qed.

Lemma _check_efficiency_category sop :
  Forall (fun f => category f = efficiency) (_check_efficiency sop).
Proof.
  unfold _check_efficiency. rewrite !Forall_app. repeat split; one_finding.
  apply Forall_bind, Forall_true. intros s. unfold timeout_of_step. one_finding.
Qed.

Lemma _check_clarity_category sop :
  Forall (fun f => category f = clarity) (_check_clarity sop).
Proof.
  unfold _check_clarity. rewrite !Forall_app. repeat split; one_finding.
  apply Forall_bind, Forall_true. intros s. unfold clarity_of_step. one_finding.
Qed.

Lemma filter_other_category (c c' : Category) (l : list ValidationFinding) :
  c <> c' -> Forall (fun f => category f = c) l ->
  filter (fun f => category f = c') l = [].
Proof.
  intros Hne. induction 1 as [|f r Hf _ IH]; [done|].
  rewrite filter_cons_False by congruence. done.
Qed.

(** Without execution results, the logic findings of a report are those of
    [_check_logic]. *)
Lemma logic_findings_of_report sop :
  Forall (fun f => category f = logic) (_check_logic sop) ->
  filter (fun f => category f = logic) (all_findings sop None) = _check_logic sop.
Proof.
  intros Hl. unfold all_findings. rewrite !filter_app. cbn [from_option].
  rewrite (filter_other_category structure logic (_check_structure sop)) by (done || apply _check_structure_category).
  rewrite (filter_other_category syntax logic (_check_syntax sop)) by (done || apply _check_syntax_category).
  rewrite (filter_other_category efficiency logic (_check_efficiency sop)) by (done || apply _check_efficiency_category).
  rewrite (filter_other_category clarity logic (_check_clarity sop)) by (done || apply _check_clarity_category).
  rewrite filter_nil, !app_nil_r. cbn [app].
  clear -Hl. induction Hl as [|f r Hf _ IH]; [done|].
  by rewrite filter_cons_True, IH.
Qed.

(** ** Scenario B: a dependency on a step that does not exist *)

(** C2, as found: on the definition of scenario B the report carries two
    logic findings, both errors, and the score is 80; so it is not the
    case that there is exactly one such finding and a score of 90. *)
Lemma scenario_B_not_one_error_score_90 :
  let r := validate_sop_comprehensive "validator" 0 "2024-01-01T00:00:00"
             Fixtures.sop_B None in
  ~ (length (filter (fun f => category f = logic /\ finding_type f = error_)
               (findings r)) = 1%nat
     /\ (overall_quality_score r == 90)%Q
     /\ is_approved r = false).
Proof. vm_compute. intros [H _]. discriminate H. Qed.

Example scenario_B_report :
  let r := validate_sop_comprehensive "validator" 0 "2024-01-01T00:00:00"
             Fixtures.sop_B None in
  findings r = [ nonexistent_dependency Fixtures.sop_B 2 3;
                 forward_dependency Fixtures.sop_B 2 3 ]
  /\ errors r = 2
  /\ overall_quality_score r = 80%Q
  /\ is_approved r = false.
Proof. vm_compute. repeat split; reflexivity. Qed.

Lemma scenario_B_logic sop s1 s2 :
  steps sop = [s1; s2] ->
  step_number s1 = 1 -> step_number s2 = 2 ->
  dependencies s1 = [] -> dependencies s2 = [3] ->
  _check_logic sop = [nonexistent_dependency sop 2 3; forward_dependency sop 2 3].
Proof.
  intros Hs H1 H2 D1 D2. unfold _check_logic, step_number_set. rewrite Hs.
  cbn [fmap list_fmap mbind list_bind app]. unfold logic_of_step.
  rewrite D1, D2, H1, H2. cbn [mbind list_bind app]. unfold logic_of_dep.
  set (b := bool_decide _). assert (b = false) as -> by (by vm_compute).
  reflexivity.
Qed.

(** C2, as amended.  A two-step definition, numbered 1 and 2, whose second
    step depends on step 3: [_check_logic] reports the missing step and
    the forward reference separately, two errors of severity 5; without
    execution results these are all the logic findings of the report.  The
    report is not approved, its score is at most 80, and it is 80 when the
    other checks find nothing. *)
Theorem forward_dependency_two_logic_errors
    (who : string) (now_epoch : Z) (now_iso : string)
    (sop : SOPDefinition) (s1 s2 : SOPStep) (res : option ExecutionResults) :
  steps sop = [s1; s2] ->
  step_number s1 = 1 -> step_number s2 = 2 ->
  dependencies s1 = [] -> dependencies s2 = [3] ->
  let r := validate_sop_comprehensive who now_epoch now_iso sop res in
  _check_logic sop = [nonexistent_dependency sop 2 3; forward_dependency sop 2 3]
  /\ filter (fun f => category f = logic)
       (findings (validate_sop_comprehensive who now_epoch now_iso sop None))
     = [nonexistent_dependency sop 2 3; forward_dependency sop 2 3]
  /\ 2 <= errors r
  /\ is_approved r = false
  /\ (overall_quality_score r <= 80)%Q
  /\ (findings r = _check_logic sop -> (overall_quality_score r == 80)%Q).
Proof.
  intros Hs H1 H2 D1 D2 r.
  pose proof (scenario_B_logic sop s1 s2 Hs H1 H2 D1 D2) as HL.
  assert (2 <= count_type error_ (all_findings sop res)) as He.
  { unfold all_findings.
    rewrite !count_type_app, HL.
    pose proof (count_type_nonneg error_ (_check_structure sop)).
    pose proof (count_type_nonneg error_ (_check_syntax sop)).
    pose proof (count_type_nonneg error_ (_check_efficiency sop)).
    pose proof (count_type_nonneg error_ (_check_clarity sop)).
    pose proof (count_type_nonneg error_ (from_option (_check_execution sop) [] res)).
    change (count_type error_ [nonexistent_dependency sop 2 3; forward_dependency sop 2 3]) with 2.
    lia. }
  assert (20 <= total_penalty (all_findings sop res))%Q as Hp.
  { unfold all_findings. rewrite !total_penalty_app, HL.
    pose proof (total_penalty_nonneg (_check_structure sop)) as P1.
    pose proof (all_findings_severity sop res) as Hsev. unfold all_findings in Hsev.
    rewrite !Forall_app in Hsev. destruct Hsev as (S1 & S2 & _ & S4 & S5 & S6).
    assert (forall l, Forall severity_in_range l -> (0 <= total_penalty l)%Q) as nn.
    { intros l Hl. apply total_penalty_nonneg. eapply Forall_impl; [exact Hl|].
      unfold severity_in_range. intros f ?. cbn beta. lia. }
    pose proof (nn _ S1). pose proof (nn _ S2). pose proof (nn _ S4).
    pose proof (nn _ S5). pose proof (nn _ S6).
    assert (total_penalty [nonexistent_dependency sop 2 3; forward_dependency sop 2 3] == 20)%Q
      as -> by reflexivity.
    lra. }
  split; [exact HL|]. split.
  { cbn [findings validate_sop_comprehensive].
    rewrite logic_findings_of_report; [exact HL|].
    rewrite HL. repeat constructor. }
  split; [exact He|]. split.
  { subst r. cbn [is_approved validate_sop_comprehensive].
    destruct (Z.eqb_spec (count_type error_ (all_findings sop res)) 0);
      [lia | reflexivity]. }
  split.
  { subst r. cbn [overall_quality_score validate_sop_comprehensive].
    destruct (quality_score_spec (all_findings sop res)) as [Hz Hpos].
    destruct (Qlt_le_dec 0 (100 - total_penalty (all_findings sop res))) as [Hc|Hc].
    - rewrite (Hpos Hc). lra.
    - rewrite (Hz Hc). lra. }
  { subst r. cbn [findings overall_quality_score validate_sop_comprehensive].
    intros ->. rewrite HL. reflexivity. }
Qed.

Lemma forward_dependency_two_logic_errors_witness :
  let r := validate_sop_comprehensive "validator" 0 "2024-01-01T00:00:00"
             Fixtures.sop_B None in
  _check_logic Fixtures.sop_B
  = [nonexistent_dependency Fixtures.sop_B 2 3; forward_dependency Fixtures.sop_B 2 3]
  /\ filter (fun f => category f = logic) (findings r)
     = [nonexistent_dependency Fixtures.sop_B 2 3; forward_dependency Fixtures.sop_B 2 3]
  /\ 2 <= errors r
  /\ is_approved r = false
  /\ (overall_quality_score r <= 80)%Q
  /\ (findings r = _check_logic Fixtures.sop_B -> (overall_quality_score r == 80)%Q).
Proof.
  apply (forward_dependency_two_logic_errors "validator" 0 "2024-01-01T00:00:00"
           Fixtures.sop_B Fixtures.step_A1 Fixtures.step_B2 None); reflexivity.
Defined.

(** ** Approval *)

(** C3, as found: the report on scenario A is approved, while the dry run
    of the same definition through [execute_sop] does not succeed; so
    approval is not equivalent to "no errors, score at least 80 and a
    successful self-test". *)
Lemma approval_without_successful_self_test :
  let r := validate_sop_comprehensive "validator" 0 "2024-01-01T00:00:00"
             Fixtures.sop_A None in
  let self_test :=
    succeeded
      (execute_sop Fixtures.shell Fixtures.agent_A [] Fixtures.clock "scenario_a" true).2 in
  ~ (is_approved r = true
     <-> errors r = 0 /\ (80 <= overall_quality_score r)%Q /\ self_test = true).
Proof.
  intros r self_test [H _].
  assert (is_approved r = true) as Ha by (vm_compute; reflexivity).
  assert (self_test = false) as Hs by (vm_compute; reflexivity).
  destruct (H Ha) as (_ & _ & Ht). congruence.
Qed.

(** C3, as amended.  The report of [validate_sop_comprehensive] is
    approved exactly when it counts no error and its score is at least 80;
    no execution enters.  The dry-run self-test belongs to the agent's
    [validate_sop], whose verdict is that its four checks pass and the dry
    run succeeds. *)
Theorem approval_is_no_errors_and_score
    (who : string) (now_epoch : Z) (now_iso : string) (sop : SOPDefinition)
    (res : option ExecutionResults)
    {World : Type} (run_command : World -> string -> Z -> cmd_result * World)
    (ag : Agent) (w : World) (now : string) (clk : ExecClock) (id : string) :
  let r := validate_sop_comprehensive who now_epoch now_iso sop res in
  (is_approved r = true <-> errors r = 0 /\ (80 <= overall_quality_score r)%Q)
  /\ succeeded (validate_sop run_command ag w now clk id).2
     = match sops ag !! id with
       | None => false
       | Some s =>
           _validate_structure s && _validate_syntax s && _validate_dependencies s
           && _validate_completeness s
           && succeeded (execute_sop run_command ag w clk id true).2
       end.
Proof.
  intros r. split.
  - subst r. cbn [is_approved errors overall_quality_score validate_sop_comprehensive].
    rewrite andb_true_iff, Z.eqb_eq, Qle_bool_iff. reflexivity.
  - unfold validate_sop. destruct (sops ag !! id) as [s|]; [|reflexivity].
    destruct (execute_sop run_command ag w clk id true) as [[ag1 w1] [[ok e]|x]];
      cbn; [reflexivity | by rewrite andb_false_r].
Qed.

(** ** Scenario A: two echo steps, the second after the first *)

(** C8, as found: the definition [create_sop_from_operations] builds for
    scenario A (it has no prerequisites) gets one clarity suggestion and
    the score 99.5, not 100. *)
Lemma scenario_A_created_scores_below_100 :
  let r := validate_sop_comprehensive "validator" 0 "2024-01-01T00:00:00"
             Fixtures.sop_A None in
  ~ (errors r = 0 /\ (overall_quality_score r == 100)%Q /\ is_approved r = true).
Proof.
  intros r (_ & H & _).
  assert (overall_quality_score r = 199 # 2) as E by (vm_compute; reflexivity).
  rewrite E in H. discriminate H.
Qed.

Lemma len_nonempty s : 1 <= len s -> str_truthy s = true.
Proof. destruct s; [unfold len; cbn; lia | done]. Qed.

(** The findings of a well-formed two-step definition in which step 2
    depends on step 1: only the two clarity remarks on the definition
    itself can appear. *)
Lemma scenario_A_findings sop s1 s2 :
  steps sop = [s1; s2] ->
  sop_id sop <> "" -> sop_name sop <> "" -> version sop <> "" ->
  sop_description sop <> "" -> sop_component sop <> "" ->
  step_number s1 = 1 -> step_number s2 = 2 ->
  command s1 <> "" -> command s2 <> "" ->
  name s1 <> "" -> name s2 <> "" ->
  dependencies s1 = [] -> dependencies s2 = [1] ->
  10 <= len (description s1) -> 10 <= len (description s2) ->
  timeout_seconds s1 <= 3600 -> timeout_seconds s2 <= 3600 ->
  all_findings sop None
  = (if len (sop_description sop) <? 20 then [short_description sop] else [])
    ++ (if negb (list_truthy (prerequisites sop)) then [no_prerequisites sop] else []).
Proof.
  intros Hs Hid Hnm Hv Hd Hc N1 N2 C1 C2 M1 M2 D1 D2 L1 L2 T1 T2.
  unfold all_findings.
  assert (_check_structure sop = []) as ->.
  { unfold _check_structure, required_fields. rewrite Hs. cbn [list_truthy negb].
    rewrite (str_truthy_nonempty (sop_id sop)), (str_truthy_nonempty (sop_name sop)),
      (str_truthy_nonempty (version sop)), (str_truthy_nonempty (sop_description sop)),
      (str_truthy_nonempty (sop_component sop)) by done.
    cbn. by rewrite N1, N2. }
  assert (_check_syntax sop = []) as ->.
  { unfold _check_syntax. rewrite Hs. cbn [mbind list_bind]. unfold syntax_of_step.
    rewrite (str_truthy_nonempty (command s1)), (str_truthy_nonempty (command s2)),
      (str_truthy_nonempty (name s1)), (str_truthy_nonempty (name s2)),
      (len_nonempty (description s1)), (len_nonempty (description s2)) by (done || lia).
    reflexivity. }
  assert (_check_logic sop = []) as ->.
  { unfold _check_logic, step_number_set. rewrite Hs.
    cbn [fmap list_fmap mbind list_bind app]. unfold logic_of_step.
    rewrite D1, D2, N1, N2. cbn [mbind list_bind app]. unfold logic_of_dep.
    set (b := bool_decide _). assert (b = true) as -> by (by vm_compute).
    reflexivity. }
  assert (_check_efficiency sop = []) as ->.
  { unfold _check_efficiency. rewrite Hs. cbn [mbind list_bind length].
    unfold timeout_of_step.
    destruct (Z.ltb_spec 3600 (timeout_seconds s1)); [lia|].
    destruct (Z.ltb_spec 3600 (timeout_seconds s2)); [lia|]. reflexivity. }
  unfold _check_clarity. rewrite Hs. cbn [mbind list_bind from_option app].
  unfold clarity_of_step.
  destruct (Z.ltb_spec (len (description s1)) 10); [lia|].
  destruct (Z.ltb_spec (len (description s2)) 10); [lia|].
  cbn [app]. by rewrite !app_nil_r.
Qed.

(** C8, as amended.  Take a definition with a non-empty id, name,
    version, description and component, whose two steps are numbered 1
    and 2 and run [echo 1] and [echo 2], the first without dependencies
    and the second depending on step 1, both steps with a non-empty name,
    a description of at least 10 characters and a timeout of at most 3600
    seconds.  Validated without execution results, it has no error and is
    approved.  Its score is 100 less one half for a definition
    description under 20 characters and one half for an empty
    prerequisites list; it is 100 exactly when neither applies. *)
Theorem scenario_A_validation
    (who : string) (now_epoch : Z) (now_iso : string)
    (sop : SOPDefinition) (s1 s2 : SOPStep) :
  steps sop = [s1; s2] ->
  sop_id sop <> "" -> sop_name sop <> "" -> version sop <> "" ->
  sop_description sop <> "" -> sop_component sop <> "" ->
  step_number s1 = 1 -> step_number s2 = 2 ->
  command s1 = "echo 1" -> command s2 = "echo 2" ->
  name s1 <> "" -> name s2 <> "" ->
  dependencies s1 = [] -> dependencies s2 = [1] ->
  10 <= len (description s1) -> 10 <= len (description s2) ->
  timeout_seconds s1 <= 3600 -> timeout_seconds s2 <= 3600 ->
  let r := validate_sop_comprehensive who now_epoch now_iso sop None in
  errors r = 0
  /\ is_approved r = true
  /\ (overall_quality_score r
      == 100 - (if len (sop_description sop) <? 20 then 1 # 2 else 0)
             - (if negb (list_truthy (prerequisites sop)) then 1 # 2 else 0))%Q
  /\ ((overall_quality_score r == 100)%Q
      <-> 20 <= len (sop_description sop) /\ prerequisites sop <> []).
Proof.
  intros Hs Hid Hnm Hv Hd Hc N1 N2 C1 C2 M1 M2 D1 D2 L1 L2 T1 T2 r.
  assert (all_findings sop None
          = (if len (sop_description sop) <? 20 then [short_description sop] else [])
            ++ (if negb (list_truthy (prerequisites sop)) then [no_prerequisites sop]
                else [])) as E.
  { apply (scenario_A_findings sop s1 s2); try done; by rewrite ?C1, ?C2. }
  subst r.
  cbn [errors is_approved overall_quality_score validate_sop_comprehensive].
  rewrite E. clear E.
  destruct (Z.ltb_spec (len (sop_description sop)) 20) as [Hlt|Hge];
    destruct (prerequisites sop) as [|p ps];
    cbn [list_truthy negb app];
    (split; [reflexivity|]); (split; [reflexivity|]); (split; [reflexivity|]);
    split; try (intros H; discriminate H); try (intros [? ?]; (lia || done));
    try (intros _; split; (lia || done)).
Qed.

Lemma scenario_A_validation_witness :
  let sop := Fixtures.sop_with "scenario_a" [Fixtures.step_A1; Fixtures.step_A2]
               ["a shell"] in
  let r := validate_sop_comprehensive "validator" 0 "2024-01-01T00:00:00" sop None in
  errors r = 0
  /\ is_approved r = true
  /\ (overall_quality_score r
      == 100 - (if len (sop_description sop) <? 20 then 1 # 2 else 0)
             - (if negb (list_truthy (prerequisites sop)) then 1 # 2 else 0))%Q
  /\ ((overall_quality_score r == 100)%Q
      <-> 20 <= len (sop_description sop) /\ prerequisites sop <> []).
Proof.
  apply (scenario_A_validation "validator" 0 "2024-01-01T00:00:00"
           (Fixtures.sop_with "scenario_a" [Fixtures.step_A1; Fixtures.step_A2] ["a shell"])
           Fixtures.step_A1 Fixtures.step_A2);
    try reflexivity; try discriminate; vm_compute; discriminate.
Defined.

Example scenario_A_with_prerequisites_scores_100 :
  let sop := Fixtures.sop_with "scenario_a" [Fixtures.step_A1; Fixtures.step_A2]
               ["a shell"] in
  let r := validate_sop_comprehensive "validator" 0 "2024-01-01T00:00:00" sop None in
  findings r = [] /\ overall_quality_score r = 100%Q /\ is_approved r = true.
Proof. vm_compute. repeat split; reflexivity. Qed.

(** ** Refinement *)

Section RefineFacts.

Lemma field_agree_refl f s : field_agree f s s.
Proof. by destruct f. Qed.

Lemma field_agree_trans f s1 s2 s3 :
  field_agree f s1 s2 -> field_agree f s2 s3 -> field_agree f s1 s3.
Proof. destruct f; cbn; congruence. Qed.

Lemma apply_change_agree f s c :
  change_field c <> Some f -> field_agree f s (apply_change s c).
Proof. destruct c, f; cbn; congruence. Qed.

Lemma apply_changes_agree f changes s :
  untouched_by f changes -> field_agree f s (apply_changes changes s).
Proof.
  unfold apply_changes. intros H. revert s.
  induction H as [|c r Hc _ IH]; intros s; cbn [fold_left].
  - apply field_agree_refl.
  - eapply field_agree_trans; [by apply apply_change_agree | apply IH].
Qed.

Lemma update_first_length n changes l :
  length (update_first n changes l) = length l.
Proof.
  induction l as [|s r IH]; cbn; [done|].
  destruct (step_number s =? n); cbn; congruence.
Qed.

(** A step carrying another number stays as it is. *)
Lemma update_first_other n changes l i s :
  l !! i = Some s -> step_number s <> n ->
  update_first n changes l !! i = Some s.
Proof.
  revert i. induction l as [|x r IH]; intros i Hi Hn; [done|].
  cbn [update_first]. destruct (Z.eqb_spec (step_number x) n) as [E|E].
  - destruct i as [|i]; cbn in *; [congruence | done].
  - destruct i as [|i]; cbn in *; [done | by apply IH].
Qed.


Lemma update_first_agree f n changes l :
  untouched_by f changes -> Forall2 (field_agree f) l (update_first n changes l).
Proof.
  intros H. induction l as [|s r IH]; cbn; [constructor|].
  destruct (step_number s =? n).
  - constructor; [by apply apply_changes_agree|].
    apply Forall_Forall2_diag, Forall_true. intros x. apply field_agree_refl.
  - constructor; [apply field_agree_refl | apply IH].
Qed.

Lemma apply_updates_length updates l :
  length (apply_updates updates l) = length l.
Proof.
  unfold apply_updates. revert l.
  induction updates as [|u r IH]; intros l; cbn [fold_left]; [done|].
  by rewrite IH, update_first_length.
Qed.

Lemma apply_updates_untargeted updates l i s :
  l !! i = Some s -> step_number s ∉ updates.*1 ->
  apply_updates updates l !! i = Some s.
Proof.
  unfold apply_updates. revert l.
  induction updates as [|u r IH]; intros l Hi Hn; cbn [fold_left]; [done|].
  rewrite fmap_cons, not_elem_of_cons in Hn. destruct Hn as [Hu Hr].
  apply IH; [|done]. by apply update_first_other.
Qed.


Lemma apply_updates_agree f updates l :
  Forall (fun u => untouched_by f u.2) updates ->
  Forall2 (field_agree f) l (apply_updates updates l).
Proof.
  unfold apply_updates. intros H. revert l.
  induction H as [|u r Hu _ IH]; intros l; cbn [fold_left].
  - apply Forall_Forall2_diag, Forall_true. intros x. apply field_agree_refl.
  - eapply Forall2_trans; [|by apply update_first_agree|apply IH].
    intros x y z. apply field_agree_trans.
Qed.

(** What an entry names, it sets. *)
Lemma apply_change_has_value c s : has_value c (apply_change s c).
Proof. by destruct c. Qed.

Lemma has_value_agree c f s s' :
  change_field c = Some f -> field_agree f s s' -> has_value c s -> has_value c s'.
Proof. destruct c; cbn; intros [= <-]; cbn; congruence. Qed.

Lemma apply_changes_has_value changes s c :
  NoDup (named_fields changes) -> c ∈ changes -> has_value c (apply_changes changes s).
Proof.
  unfold apply_changes, named_fields. revert s.
  induction changes as [|c0 r IH]; intros s Hnd Hin; [by apply elem_of_nil in Hin|].
  cbn [fold_left]. cbn [omap list_omap] in Hnd.
  apply elem_of_cons in Hin as [->|Hin].
  - destruct (change_field c0) as [f|] eqn:Ef; [|by destruct c0].
    apply NoDup_cons in Hnd as [Hf _].
    eapply (has_value_agree c0 f); [exact Ef | | apply apply_change_has_value].
    apply apply_changes_agree. apply Forall_forall. intros c' Hc' E.
    apply Hf. apply list_elem_of_omap. by exists c'.
  - apply IH; [|done]. destruct (change_field c0); [by apply NoDup_cons in Hnd as [_ ?] | done].
Qed.

(** The number a step carries after its changes is the one it had, or one
    the changes give. *)
Lemma apply_changes_number changes s :
  step_number (apply_changes changes s) = step_number s
  \/ set_step_number (step_number (apply_changes changes s)) ∈ changes.
Proof.
  unfold apply_changes. revert s.
  induction changes as [|c r IH]; intros s; cbn [fold_left]; [by left|].
  destruct (IH (apply_change s c)) as [E|E]; [|right; by apply list_elem_of_further].
  rewrite E. destruct c; cbn; auto. right. apply list_elem_of_here.
Qed.

Lemma update_first_first n changes l i s :
  first_numbered n l i s ->
  update_first n changes l !! i = Some (apply_changes changes s).
Proof.
  revert i. induction l as [|x r IH]; intros i (Hi & Hn & Hfirst); [done|].
  cbn [update_first]. destruct (Z.eqb_spec (step_number x) n) as [E|E].
  - destruct i as [|i]; [cbn in *; congruence|].
    exfalso. apply (Hfirst 0%nat x); [lia | done | done].
  - destruct i as [|i]; [cbn in *; congruence|]. cbn [lookup list_lookup].
    apply IH. split_and!; [done | done |].
    intros j s' Hj Hs'. apply (Hfirst (S j) s'); [lia | done].
Qed.

Lemma update_first_lookup n changes l j s' :
  update_first n changes l !! j = Some s' ->
  l !! j = Some s'
  \/ exists s0, l !! j = Some s0 /\ step_number s0 = n /\ s' = apply_changes changes s0.
Proof.
  revert j. induction l as [|x r IH]; intros j; [done|].
  cbn [update_first]. destruct (Z.eqb_spec (step_number x) n) as [E|E].
  - destruct j as [|j]; cbn; [|by left]. intros [= <-]. right. by exists x.
  - destruct j as [|j]; cbn; [by left | apply IH].
Qed.

(** Each entry of the updates reaches the first step that carries its key,
    and what it leaves there stays. *)
Lemma apply_updates_targeted updates l n changes i s :
  NoDup updates.*1 -> renumbers_apart updates ->
  (n, changes) ∈ updates -> first_numbered n l i s ->
  apply_updates updates l !! i = Some (apply_changes changes s).
Proof.
  unfold apply_updates, renumbers_apart. revert l.
  induction updates as [|[m cm] r IH]; intros l Hnd Hra Hin Hf;
    [by apply elem_of_nil in Hin|].
  cbn [fold_left fst snd]. rewrite fmap_cons in Hnd. cbn [fst] in Hnd.
  apply NoDup_cons in Hnd as [Hm Hnd].
  apply Forall_cons in Hra as [Hhead Hra]. cbn [fst snd] in Hhead.
  assert (Forall (fun u => forall v, set_step_number v ∈ u.2 -> v = u.1 \/ v ∉ r.*1) r)
    as Hra'.
  { eapply Forall_impl; [exact Hra|]. intros u Hu v Hv. cbn beta in Hu.
    destruct (Hu v Hv) as [?|Hv']; [by left|]. right. intros ?. apply Hv'.
    rewrite fmap_cons. by apply list_elem_of_further. }
  apply elem_of_cons in Hin as [[= -> ->]|Hin].
  - apply (apply_updates_untargeted r); [by apply update_first_first|].
    destruct (apply_changes_number cm s) as [E|E].
    + rewrite E. destruct Hf as (_ & -> & _). exact Hm.
    + destruct (Hhead _ E) as [->|Hv]; [exact Hm|].
      intros ?. apply Hv. rewrite fmap_cons. by apply list_elem_of_further.
  - assert (n ∈ r.*1) as Hn by (apply list_elem_of_fmap; by exists (n, changes)).
    assert (n <> m) as Hnm by (by intros ->).
    destruct Hf as (Hi & Hs & Hfirst).
    apply IH; [done | done | done |]. split_and!; [|done|].
    + apply update_first_other; [done | by rewrite Hs].
    + intros j s' Hj Hs'. apply update_first_lookup in Hs' as [Hs'|(s0 & H0 & Hn0 & ->)].
      * by apply (Hfirst j).
      * destruct (apply_changes_number cm s0) as [E|E].
        -- rewrite E, Hn0. by intros ->.
        -- destruct (Hhead _ E) as [->|Hv]; [by intros ->|].
           intros E'. apply Hv. rewrite E', fmap_cons. by apply list_elem_of_further.
Qed.

Lemma update_first_not_first n changes l j s :
  l !! j = Some s -> ~ first_numbered n l j s ->
  update_first n changes l !! j = Some s.
Proof.
  revert j. induction l as [|x r IH]; intros j Hj Hnf; [done|].
  cbn [update_first]. destruct (Z.eqb_spec (step_number x) n) as [E|E].
  - destruct j as [|j]; [|done]. exfalso. apply Hnf. cbn in Hj. injection Hj as <-.
    split_and!; [done | done | intros j s' Hlt; lia].
  - destruct j as [|j]; [done|]. cbn [lookup list_lookup]. apply IH; [done|].
    intros (Hi & Hn & Hfirst). apply Hnf. split_and!; [done | done |].
    intros [|k] s' Hk Hs'; cbn in Hs'; [congruence|].
    apply (Hfirst k s'); [lia | done].
Qed.

(** A step that is not the first to carry the key of an entry is left as
    it is. *)
Lemma apply_updates_others updates l j s :
  NoDup updates.*1 -> l !! j = Some s ->
  (forall n changes, (n, changes) ∈ updates -> ~ first_numbered n l j s) ->
  apply_updates updates l !! j = Some s.
Proof.
  unfold apply_updates. revert l.
  induction updates as [|[m cm] r IH]; intros l Hnd Hj Hnf; [done|].
  cbn [fold_left fst snd]. rewrite fmap_cons in Hnd. cbn [fst] in Hnd.
  apply NoDup_cons in Hnd as [Hm Hnd].
  assert (update_first m cm l !! j = Some s) as Hj1.
  { apply update_first_not_first; [done|]. apply (Hnf m cm), list_elem_of_here. }
  apply IH; [done | done |].
  intros n changes Hin (Hi & Hn & Hfirst).
  assert (n <> m) as Hnm.
  { intros ->. apply Hm. apply list_elem_of_fmap. by exists (m, changes). }
  apply (Hnf n changes); [by apply list_elem_of_further|].
  split_and!; [done | done |].
  intros k s' Hk Hs' E. apply (Hfirst k s'); [done | | done].
  apply update_first_other; [done | by rewrite E].
Qed.


Variable sha256_hex : string -> string.

(** The definition [refine_sop] leaves in the registry. *)
Lemma refine_sop_steps ag now id updates who sop :
  sops ag !! id = Some sop ->
  exists sop',
    sops (refine_sop sha256_hex ag now id updates who).1 !! id = Some sop'
    /\ steps sop' = apply_updates updates (steps sop).
Proof.
  intros H. unfold refine_sop. rewrite H.
  destruct (bump_version _); cbn [fst sops]; rewrite lookup_insert_eq;
    eexists; (split; [reflexivity|]); reflexivity.
Qed.

Lemma refine_sop_success ag now id updates who sop v :
  sops ag !! id = Some sop ->
  bump_version (version sop) = inr v ->
  let l := apply_updates updates (steps sop) in
  refine_sop sha256_hex ag now id updates who
  = (mkAgent
       (<[id := with_refinement (with_steps sop l) v now who (_compute_hash sha256_hex l)]>
          (sops ag))
       (execution_history ag),
     (true, "SOP refined to v" +:+ v)).
Proof.
  intros H Hv l. unfold refine_sop. rewrite H. cbn [version with_steps].
  by rewrite Hv.
Qed.

End RefineFacts.




(** C5, as found: an update of step 1 of scenario A that names
    [step_number], [retry_on_failure], [max_retries] and [component] is
    applied to all four. *)
Lemma refine_changes_undeclared_fields :
  let updates := [(1, [ set_retry_on_failure false; set_max_retries 0;
                        set_component "other"; set_step_number 9 ])] in
  let ag' := (refine_sop Fixtures.plain_digest Fixtures.agent_A "2024-01-02T00:00:00"
                "scenario_a" updates "validator").1 in
  steps Fixtures.sop_A !! 0%nat = Some Fixtures.step_A1
  /\ exists sop' s',
       sops ag' !! "scenario_a" = Some sop'
       /\ steps sop' !! 0%nat = Some s'
       /\ step_number s' = 9 /\ step_number Fixtures.step_A1 = 1
       /\ retry_on_failure s' = false /\ retry_on_failure Fixtures.step_A1 = true
       /\ max_retries s' = 0 /\ max_retries Fixtures.step_A1 = 3
       /\ component s' = "other" /\ component Fixtures.step_A1 = "demo".
Proof.
  split; [reflexivity|].
  eexists _, _. split; [vm_compute; reflexivity|].
  split; [reflexivity|]. repeat split; reflexivity.
Qed.

(** C5, as amended.  After [refine_sop] on a stored definition: the list
    of steps has the length it had; a step whose number is no key of
    [updates] is unchanged; an attribute that no changes dict names has,
    in every step, the value it had; and each entry is applied to the
    first step that carries its key: that step becomes the step with the
    changes applied, in which every attribute the changes name, whichever
    it is, has the value given, and every other attribute the value it
    had; a step that is not the first to carry the key of an entry is
    unchanged.  The keys of [updates] are distinct, as are the names in
    one changes dict; the part on the targeted step is for updates in
    which no entry gives a step the number that is the key of another
    entry. *)
Theorem refine_changes_named_fields_only
    (sha256_hex : string -> string) (ag : Agent) (now id : string)
    (updates : list (Z * list change)) (who : string) (sop : SOPDefinition) :
  sops ag !! id = Some sop ->
  exists sop',
    sops (refine_sop sha256_hex ag now id updates who).1 !! id = Some sop'
    /\ length (steps sop') = length (steps sop)
    /\ (forall (i : nat) (s : SOPStep),
          steps sop !! i = Some s -> step_number s ∉ updates.*1 ->
          steps sop' !! i = Some s)
    /\ (forall f : field,
          Forall (fun u => untouched_by f u.2) updates ->
          Forall2 (field_agree f) (steps sop) (steps sop'))
    /\ (NoDup updates.*1 -> renumbers_apart updates ->
        forall (n : Z) (changes : list change) (i : nat) (s : SOPStep),
          (n, changes) ∈ updates -> first_numbered n (steps sop) i s ->
          exists s',
            steps sop' !! i = Some s'
            /\ s' = apply_changes changes s
            /\ (forall f : field, untouched_by f changes -> field_agree f s s')
            /\ (NoDup (named_fields changes) ->
                forall c : change, c ∈ changes -> has_value c s'))
    /\ (NoDup updates.*1 ->
        forall (j : nat) (s : SOPStep),
          steps sop !! j = Some s ->
          (forall n changes, (n, changes) ∈ updates ->
             ~ first_numbered n (steps sop) j s) ->
          steps sop' !! j = Some s).
Proof.
  intros Hsop.
  destruct (refine_sop_steps sha256_hex ag now id updates who sop Hsop) as (sop' & Hl & Hs).
  exists sop'. split; [exact Hl|]. rewrite Hs. split; [apply apply_updates_length|].
  split_and!.
  - intros i s. apply apply_updates_untargeted.
  - intros f. apply apply_updates_agree.
  - intros Hnd Hra n changes i s Hin Hfirst. eexists. split_and!.
    + by apply (apply_updates_targeted updates (steps sop) n changes i s).
    + reflexivity.
    + intros f. apply apply_changes_agree.
    + intros Hnames c. by apply apply_changes_has_value.
  - intros Hnd j s. by apply apply_updates_others.
Qed.

Lemma refine_changes_named_fields_only_witness :
  let updates := [(1, [set_name "First"; set_step_number 9])] in
  exists sop',
    sops (refine_sop Fixtures.plain_digest Fixtures.agent_A "2024-01-02T00:00:00"
            "scenario_a" updates "validator").1 !! "scenario_a" = Some sop'
    /\ length (steps sop') = length (steps Fixtures.sop_A)
    /\ (forall (i : nat) (s : SOPStep),
          steps Fixtures.sop_A !! i = Some s -> step_number s ∉ updates.*1 ->
          steps sop' !! i = Some s)
    /\ (forall f : field,
          Forall (fun u => untouched_by f u.2) updates ->
          Forall2 (field_agree f) (steps Fixtures.sop_A) (steps sop'))
    /\ (NoDup updates.*1 -> renumbers_apart updates ->
        forall (n : Z) (changes : list change) (i : nat) (s : SOPStep),
          (n, changes) ∈ updates -> first_numbered n (steps Fixtures.sop_A) i s ->
          exists s',
            steps sop' !! i = Some s'
            /\ s' = apply_changes changes s
            /\ (forall f : field, untouched_by f changes -> field_agree f s s')
            /\ (NoDup (named_fields changes) ->
                forall c : change, c ∈ changes -> has_value c s'))
    /\ (NoDup updates.*1 ->
        forall (j : nat) (s : SOPStep),
          steps Fixtures.sop_A !! j = Some s ->
          (forall n changes, (n, changes) ∈ updates ->
             ~ first_numbered n (steps Fixtures.sop_A) j s) ->
          steps sop' !! j = Some s).
Proof.
  apply (refine_changes_named_fields_only Fixtures.plain_digest Fixtures.agent_A
           "2024-01-02T00:00:00" "scenario_a"
           [(1, [set_name "First"; set_step_number 9])] "validator" Fixtures.sop_A).
  vm_compute. reflexivity.
Defined.

(** The entry of the witness, followed through: its key is the key of no
    other entry, step 1 of scenario A is the first step numbered 1, and
    after the call that step is named First and numbered 9. *)
Example refine_sets_what_is_named :
  let updates := [(1, [set_name "First"; set_step_number 9])] in
  NoDup updates.*1 /\ renumbers_apart updates
  /\ first_numbered 1 (steps Fixtures.sop_A) 0 Fixtures.step_A1
  /\ NoDup (named_fields [set_name "First"; set_step_number 9])
  /\ name (apply_changes [set_name "First"; set_step_number 9] Fixtures.step_A1) = "First"
  /\ step_number (apply_changes [set_name "First"; set_step_number 9] Fixtures.step_A1) = 9.
Proof.
  cbv zeta. split_and!.
  - cbn. apply NoDup_singleton.
  - unfold renumbers_apart. apply Forall_singleton. intros v Hv. cbn [fst snd] in *.
    apply elem_of_cons in Hv as [Hv|Hv]; [discriminate Hv|].
    apply list_elem_of_singleton in Hv. injection Hv as Hv. subst v.
    right. cbn. rewrite list_elem_of_singleton. lia.
  - split_and!; [reflexivity | reflexivity | intros j s' Hj; lia].
  - unfold named_fields. cbn. apply NoDup_cons. split; [|apply NoDup_singleton].
    rewrite list_elem_of_singleton. discriminate.
  - reflexivity.
  - reflexivity.
Qed.

(** ** Versions written by the engine

    [create_sop_from_operations] writes the version 1.0.0 and [refine_sop]
    writes back what [str] prints, so the versions the engine itself
    produces are 1.0.n; on those the bump never raises. *)

Lemma list_ascii_app s1 s2 :
  list_ascii_of_string (s1 +:+ s2) = list_ascii_of_string s1 ++ list_ascii_of_string s2.
Proof. induction s1 as [|c r IH]; simpl; [done | by f_equal]. Qed.

Lemma append_assoc (s1 s2 s3 : string) : (s1 +:+ s2) +:+ s3 = s1 +:+ s2 +:+ s3.
Proof.
  induction s1 as [|c r IH]; [done|].
  change (String c ((r +:+ s2) +:+ s3) = String c (r +:+ s2 +:+ s3)).
  by rewrite IH.
Qed.

Lemma pretty_N_go_app (x : N) (s : string) : pretty_N_go x s = pretty_N_go x "" +:+ s.
Proof.
  revert s. induction (N.lt_wf_0 x) as [x _ IH]; intros s.
  destruct (decide (x = 0)%N) as [->|Hx]; [done|].
  assert (x `div` 10 < x)%N as Hlt by (apply N.div_lt; lia).
  rewrite !(pretty_N_go_step x) by lia.
  rewrite (IH _ Hlt (String _ s)), (IH _ Hlt (String _ "")).
  rewrite append_assoc. reflexivity.
Qed.

Lemma pretty_N_char_digit (d : N) :
  (d < 10)%N ->
  is_digit (pretty_N_char d) = true
  /\ Z.of_N (N_of_ascii (pretty_N_char d)) - 48 = Z.of_N d.
Proof.
  intros H.
  assert (d = 0 \/ d = 1 \/ d = 2 \/ d = 3 \/ d = 4 \/ d = 5 \/ d = 6 \/ d = 7
          \/ d = 8 \/ d = 9)%N as Hd by lia.
  repeat (destruct Hd as [->|Hd]; [by vm_compute|]). subst d. by vm_compute.
Qed.

Lemma feed_snoc acc l c :
  feed acc (l ++ [c]) = 10 * feed acc l + (Z.of_N (N_of_ascii c) - 48).
Proof. unfold feed. by rewrite fold_left_app. Qed.

(** The digits [pretty] prints, read back. *)
Lemma pretty_N_go_digits (x : N) :
  all_digits (pretty_N_go x "")
  /\ feed 0 (list_ascii_of_string (pretty_N_go x "")) = Z.of_N x.
Proof.
  induction (N.lt_wf_0 x) as [x _ IH].
  destruct (decide (x = 0)%N) as [->|Hx]; [by split; [constructor|]|].
  rewrite pretty_N_go_step, pretty_N_go_app by lia.
  destruct (IH (x `div` 10)%N) as [Hd Hv]; [apply N.div_lt; lia|].
  destruct (pretty_N_char_digit (x `mod` 10)%N) as [Hc Hn]; [apply N.mod_lt; lia|].
  unfold all_digits. rewrite list_ascii_app. cbn [list_ascii_of_string]. split.
  - apply Forall_app_2; [exact Hd | by repeat constructor].
  - rewrite feed_snoc, Hv, Hn. rewrite (N.div_mod x 10) at 3 by lia. lia.
Qed.

Lemma pretty_N_go_nonempty (x : N) : (0 < x)%N -> pretty_N_go x "" <> "".
Proof.
  intros H. rewrite pretty_N_go_step, pretty_N_go_app by done.
  by destruct (pretty_N_go (x `div` 10)%N "").
Qed.

Lemma read_digits_feed l prev acc :
  Forall (fun c => is_digit c = true) l ->
  l <> [] \/ prev = true ->
  read_digits l prev acc = Some (feed acc l).
Proof.
  intros H. revert prev acc. induction H as [|c r Hc _ IH]; intros prev acc Hne.
  - destruct Hne as [? | ->]; [done | reflexivity].
  - cbn [read_digits]. rewrite Hc. rewrite IH by auto. reflexivity.
Qed.

Lemma digit_not_space c : is_digit c = true -> is_space c = false.
Proof.
  unfold is_digit, is_space. intros H.
  apply andb_true_iff in H as [H1 H2]. apply N.leb_le in H1, H2.
  repeat match goal with
         | |- context [(?a <=? ?b)%N] => destruct (N.leb_spec a b); try lia
         | |- context [(?a =? ?b)%N] => destruct (N.eqb_spec a b); try lia
         end; reflexivity.
Qed.

Lemma lstrip_digits l : Forall (fun c => is_digit c = true) l -> lstrip l = l.
Proof. destruct 1 as [|c r Hc _]; cbn; [done | by rewrite digit_not_space]. Qed.

Lemma strip_digits l : Forall (fun c => is_digit c = true) l -> strip l = l.
Proof.
  intros H. unfold strip. rewrite (lstrip_digits l H).
  rewrite lstrip_digits by (by apply Forall_rev). apply rev_involutive.
Qed.

(** [int(str(n)) == n] for a count. *)
Lemma py_int_str_of_int (n : Z) : 0 <= n -> py_int (str_of_int n) = Some n.
Proof.
  intros Hn. destruct n as [|p|p]; [reflexivity| |lia].
  unfold str_of_int, pretty, pretty_Z, pretty, pretty_positive, pretty, pretty_N.
  rewrite decide_False by done.
  destruct (pretty_N_go_digits (N.pos p)) as [Hd Hv].
  pose proof (pretty_N_go_nonempty (N.pos p) eq_refl) as Hne.
  unfold py_int. unfold all_digits in Hd. rewrite strip_digits by done.
  destruct (list_ascii_of_string (pretty_N_go (N.pos p) "")) as [|c r] eqn:E.
  { destruct (pretty_N_go (N.pos p) ""); [done | discriminate E]. }
  assert (is_digit c = true) as Hc by (by inversion Hd).
  unfold is_digit in Hc. apply andb_true_iff in Hc as [H1 H2]. apply N.leb_le in H1, H2.
  destruct (N.eqb_spec (N_of_ascii c) 45); [lia|].
  destruct (N.eqb_spec (N_of_ascii c) 43); [lia|].
  rewrite read_digits_feed by (done || by left). by rewrite Hv.
Qed.

Lemma str_of_int_digits (n : Z) : 0 <= n -> all_digits (str_of_int n).
Proof.
  intros Hn. destruct n as [|p|p]; [by repeat constructor| |lia].
  unfold str_of_int, pretty, pretty_Z, pretty, pretty_positive, pretty, pretty_N.
  rewrite decide_False by done. apply pretty_N_go_digits.
Qed.

Lemma split_dot_digits (s : string) : all_digits s -> split_dot s = [s].
Proof.
  unfold all_digits. induction s as [|c r IH]; cbn; [done|].
  intros H. inversion H as [|? ? Hc Hr]; subst.
  unfold is_digit in Hc. apply andb_true_iff in Hc as [H1 H2]. apply N.leb_le in H1, H2.
  destruct (N.eqb_spec (N_of_ascii c) 46); [lia|]. by rewrite IH.
Qed.

Lemma split_dot_prefix (d : string) :
  split_dot d = [d] -> split_dot ("1.0." +:+ d) = ["1"; "0"; d].
Proof.
  intros H.
  change ("1.0." +:+ d)
    with (String "1"%char (String "."%char (String "0"%char (String "."%char d)))).
  cbn. rewrite H. reflexivity.
Qed.

(** Scenario D in general: the bump of 1.0.n is 1.0.(n+1). *)
Lemma bump_version_numbered (n : Z) :
  0 <= n ->
  bump_version ("1.0." +:+ str_of_int n) = inr ("1.0." +:+ str_of_int (n + 1)).
Proof.
  intros Hn. unfold bump_version.
  assert (split_dot ("1.0." +:+ str_of_int n) = ["1"; "0"; str_of_int n]) as ->.
  { apply split_dot_prefix, split_dot_digits, str_of_int_digits, Hn. }
  cbn [lookup list_lookup]. rewrite py_int_str_of_int by done. reflexivity.
Qed.

Example two_refinements :
  let ag1 := (refine_sop Fixtures.plain_digest Fixtures.agent_A "2024-01-02T00:00:00"
                "scenario_a" [(1, [set_name "First"])] "validator").1 in
  let ag2 := (refine_sop Fixtures.plain_digest ag1 "2024-01-03T00:00:00"
                "scenario_a" [(2, [set_name "Second"])] "validator").1 in
  version <$> sops ag1 !! "scenario_a" = Some "1.0.1"
  /\ version <$> sops ag2 !! "scenario_a" = Some "1.0.2".
Proof. vm_compute. split; reflexivity. Qed.

(** A definition whose version the engine wrote is refined without fail,
    and carries the next number afterwards. *)
Lemma refine_sop_on_numbered_version
    (sha256_hex : string -> string) (ag : Agent) (now id : string)
    (updates : list (Z * list change)) (who : string) (sop : SOPDefinition) (n : Z) :
  sops ag !! id = Some sop ->
  0 <= n ->
  version sop = "1.0." +:+ str_of_int n ->
  (refine_sop sha256_hex ag now id updates who).2
  = (true, "SOP refined to v" +:+ "1.0." +:+ str_of_int (n + 1))
  /\ exists sop',
       sops (refine_sop sha256_hex ag now id updates who).1 !! id = Some sop'
       /\ version sop' = "1.0." +:+ str_of_int (n + 1)
       /\ hash_current sha256_hex sop'.
Proof.
  intros Hsop Hn Hv.
  assert (bump_version (version sop) = inr ("1.0." +:+ str_of_int (n + 1))) as Hb
    by (rewrite Hv; by apply bump_version_numbered).
  rewrite (refine_sop_success sha256_hex _ _ _ _ _ _ _ Hsop Hb).
  split; [reflexivity|]. cbn [fst sops]. rewrite lookup_insert_eq.
  eexists. split; [reflexivity|]. by split.
Qed.

Example py_int_examples :
  py_int "42" = Some 42
  /\ py_int " 12 " = Some 12
  /\ py_int "-5" = Some (-5)
  /\ py_int "+007" = Some 7
  /\ py_int "1_000" = Some 1000
  /\ py_int "1__0" = None
  /\ py_int "_1" = None
  /\ py_int "" = None
  /\ py_int "1a" = None.
Proof. vm_compute. repeat split; reflexivity. Qed.

Example bump_version_examples :
  bump_version "1.0.9" = inr "1.0.10"
  /\ bump_version "2.5.0.1" = inr "2.5.1.1"
  /\ bump_version "1.0" = inl IndexError
  /\ bump_version "1.0.beta" = inl (ValueError "beta").
Proof. vm_compute. repeat split; reflexivity. Qed.

Example json_escape_examples :
  json_escape ("a" +:+ chr "010"%char +:+ "b") = "a" +:+ chr backslash +:+ "nb"
  /\ json_escape (chr "127"%char) = chr backslash +:+ "u007f"
  /\ json_escape (chr "233"%char) = chr backslash +:+ "u00e9"
  /\ json_list (str_of_int <$> [1; 2; -3]) = "[1, 2, -3]".
Proof. vm_compute. repeat split; reflexivity. Qed.

(** * Further properties *)

(** ** Creating definitions *)

Lemma steps_from_length comp i ops :
  length (steps_from comp i ops) = length ops.
Proof. revert i. induction ops as [|op r IH]; intros i; cbn; [done | by rewrite IH]. Qed.

Lemma steps_from_lookup comp i ops (k : nat) :
  steps_from comp i ops !! k
  = step_of_operation comp (i + Z.of_nat k) <$> ops !! k.
Proof.
  revert i k. induction ops as [|op r IH]; intros i k; [done|].
  destruct k as [|k]; cbn [steps_from lookup list_lookup fmap option_fmap option_map].
  - by rewrite Z.add_0_r.
  - rewrite IH. do 2 f_equal. lia.
Qed.

Lemma check_numbering_steps_from sop comp i ops :
  check_numbering sop i (steps_from comp i ops) = [].
Proof.
  revert i. induction ops as [|op r IH]; intros i; cbn; [done|].
  rewrite Z.eqb_refl. cbn. apply IH.
Qed.

Lemma numbered_from_steps_from comp i ops :
  numbered_from i (steps_from comp i ops) = true.
Proof.
  revert i. induction ops as [|op r IH]; intros i; cbn; [done|].
  rewrite Z.eqb_refl. cbn. apply IH.
Qed.

(** X1.  Creating a definition under a free id from N operations stores a
    draft of version 1.0.0 with all counters at zero and no
    prerequisites, whose steps are N in number; the step at position k
    (from 0) is numbered k+1, runs the command of the k-th operation (the
    empty command if the operation has none) and belongs to the
    definition's component.  Both numbering checks accept the steps. *)
Theorem create_numbers_steps_in_order
    (sha256_hex : string -> string) (ag : Agent) (now id nm descr comp purp : string) (ops : list Operation)
    (author : string) :
  sops ag !! id = None ->
  exists sop,
    create_sop_from_operations sha256_hex ag now id nm descr comp purp ops author
    = (mkAgent (<[id := sop]> (sops ag)) (execution_history ag),
       (true, "SOP created: " +:+ id))
    /\ sop_id sop = id /\ sop_status sop = DRAFT /\ version sop = "1.0.0"
    /\ fresh sop /\ prerequisites sop = []
    /\ length (steps sop) = length ops
    /\ (forall (k : nat) (op : Operation),
          ops !! k = Some op ->
          exists s, steps sop !! k = Some s
                    /\ step_number s = Z.of_nat k + 1
                    /\ command s = default "" (op_command op)
                    /\ dependencies s = default [] (op_dependencies op)
                    /\ component s = comp)
    /\ check_numbering sop 1 (steps sop) = []
    /\ numbered_from 1 (steps sop) = true.
Proof.
  intros Hnone. unfold create_sop_from_operations. rewrite Hnone.
  eexists. split; [reflexivity|]. cbn.
  repeat split.
  - apply steps_from_length.
  - intros k op Hop. rewrite steps_from_lookup, Hop. cbn.
    eexists. split; [reflexivity|]. cbn. repeat split. lia.
  - apply check_numbering_steps_from.
  - apply numbered_from_steps_from.
Qed.

Lemma create_numbers_steps_in_order_witness :
  exists sop,
    create_sop_from_operations Fixtures.plain_digest Fixtures.empty_agent
      "2024-01-01T00:00:00" "w" "W" "d" "c" "p"
      [Fixtures.operation "echo 1" "one" None] "agent"
    = (mkAgent (<["w" := sop]> (sops Fixtures.empty_agent))
         (execution_history Fixtures.empty_agent),
       (true, "SOP created: " +:+ "w"))
    /\ sop_id sop = "w" /\ sop_status sop = DRAFT /\ version sop = "1.0.0"
    /\ fresh sop /\ prerequisites sop = []
    /\ length (steps sop) = length [Fixtures.operation "echo 1" "one" None]
    /\ (forall (k : nat) (op : Operation),
          [Fixtures.operation "echo 1" "one" None] !! k = Some op ->
          exists s, steps sop !! k = Some s
                    /\ step_number s = Z.of_nat k + 1
                    /\ command s = default "" (op_command op)
                    /\ dependencies s = default [] (op_dependencies op)
                    /\ component s = "c")
    /\ check_numbering sop 1 (steps sop) = []
    /\ numbered_from 1 (steps sop) = true.
Proof.
  apply (create_numbers_steps_in_order Fixtures.plain_digest Fixtures.empty_agent "2024-01-01T00:00:00"
           "w" "W" "d" "c" "p" [Fixtures.operation "echo 1" "one" None] "agent").
  reflexivity.
Defined.

(** X2.  Creation never overwrites: under an id already in the registry
    the call fails and returns the agent as it was; under a free id every
    other entry of the registry and the execution history stay as they
    were. *)
Theorem create_never_overwrites
    (sha256_hex : string -> string) (ag : Agent) (now id nm descr comp purp : string) (ops : list Operation)
    (author : string) :
  let r := create_sop_from_operations sha256_hex ag now id nm descr comp purp ops author in
  (is_Some (sops ag !! id) -> r = (ag, (false, "SOP already exists: " +:+ id)))
  /\ (forall id', id' <> id -> sops r.1 !! id' = sops ag !! id')
  /\ execution_history r.1 = execution_history ag.
Proof.
  intros r. subst r. unfold create_sop_from_operations.
  destruct (sops ag !! id) as [sop|] eqn:E; cbn.
  - repeat split; done.
  - repeat split.
    + intros [? ?]. done.
    + intros id' Hne. by rewrite lookup_insert_ne.
Qed.

(** ** Execution records *)

Section RecordFacts.

Context {World : Type}.
Variable run_command : World -> string -> Z -> cmd_result * World.

(** What the loop does to its state: it only appends to the failed list
    and only raises the completed count. *)
Lemma run_steps_progress dry_run todo st :
  let st' := run_steps run_command dry_run todo st in
  exists extra,
    ls_failed_steps st' = ls_failed_steps st ++ extra
    /\ sublist extra (step_number <$> todo)
    /\ ls_execution st'
       = with_steps_completed (ls_execution st) (steps_completed (ls_execution st'))
    /\ steps_completed (ls_execution st) <= steps_completed (ls_execution st')
    /\ steps_completed (ls_execution st') + Z.of_nat (length extra)
       <= steps_completed (ls_execution st) + Z.of_nat (length todo)
    /\ (extra = [] ->
        steps_completed (ls_execution st')
        = steps_completed (ls_execution st) + Z.of_nat (length todo))
    /\ (output (ls_execution st) = ∅ -> extra = [] ->
        Forall (fun s => dependencies s = []) todo).
Proof.
  revert st. induction todo as [|step rest IH]; intros st; cbv zeta.
  - exists []. rewrite app_nil_r. cbn. split_and!; try lia; try constructor.
    by destruct (ls_execution st).
  - cbn [run_steps].
    destruct (list_truthy (dependencies step) && negb (deps_met (ls_execution st) step))
      eqn:Hdep.
    + destruct (IH (mkLoop (ls_execution st) (ls_failed_steps st ++ [step_number step])
                      (ls_step_outputs st) (ls_world st)))
        as (extra & Hf & Hsub & He & Hle & Hsum & _ & _).
      cbn [ls_failed_steps ls_execution] in *.
      exists (step_number step :: extra). rewrite Hf, <- app_assoc.
      split_and!.
      * done.
      * cbn. by apply sublist_skip.
      * done.
      * done.
      * cbn [length]. lia.
      * discriminate.
      * discriminate.
    + destruct (_execute_step run_command (ls_world st) step dry_run) as [[ok out] w'].
      assert (output (ls_execution st) = ∅ -> dependencies step = []) as Hnodep.
      { intros Ho. destruct (decide (dependencies step = [])) as [|Hne]; [done|].
        by rewrite (deps_unmet_on_empty _ _ Ho Hne) in Hdep. }
      destruct ok.
      * destruct (IH (mkLoop (with_steps_completed (ls_execution st)
                                (steps_completed (ls_execution st) + 1))
                        (ls_failed_steps st)
                        (<[step_number step := out]> (ls_step_outputs st)) w'))
          as (extra & Hf & Hsub & He & Hle & Hsum & Hall & Hdeps).
        cbn [ls_failed_steps ls_execution] in Hf, He, Hle, Hsum, Hall, Hdeps.
        exists extra. split_and!.
        -- done.
        -- cbn. by apply sublist_cons.
        -- etrans; [exact He|]. reflexivity.
        -- cbn in Hle. lia.
        -- cbn in Hsum. cbn [length]. lia.
        -- intros E. rewrite (Hall E). cbn [length]. cbn. lia.
        -- intros Ho E. constructor; [by apply Hnodep|]. by apply Hdeps.
      * destruct (negb (retry_on_failure step)).
        -- exists [step_number step]. cbn [ls_failed_steps ls_execution].
           split_and!.
           ++ done.
           ++ cbn. apply sublist_skip, sublist_nil_l.
           ++ by destruct (ls_execution st).
           ++ lia.
           ++ cbn [length]. lia.
           ++ discriminate.
           ++ discriminate.
        -- destruct (IH (mkLoop (ls_execution st)
                           (ls_failed_steps st ++ [step_number step])
                           (<[step_number step := out]> (ls_step_outputs st)) w'))
             as (extra & Hf & Hsub & He & Hle & Hsum & _ & _).
           cbn [ls_failed_steps ls_execution] in *.
           exists (step_number step :: extra). rewrite Hf, <- app_assoc.
           split_and!.
           ++ done.
           ++ cbn. by apply sublist_skip.
           ++ done.
           ++ done.
           ++ cbn [length]. lia.
           ++ discriminate.
           ++ discriminate.
Qed.

(** The two ways a call on a stored definition ends. *)
Lemma execute_sop_cases ag w clk id dry_run sop :
  sops ag !! id = Some sop ->
  let r := run_execution run_command w clk id sop dry_run in
  let x := execute_sop run_command ag w clk id dry_run in
  x.1.2 = r.2
  /\ ((x.2 = Return (is_completed (status r.1), Some r.1)
       /\ execution_history x.1.1 = execution_history ag ++ [r.1])
      \/ (x.2 = Raise ZeroDivisionError
          /\ execution_count sop = -1
          /\ execution_history x.1.1 = execution_history ag)).
Proof.
  intros H r x. subst r x. unfold execute_sop. rewrite H.
  destruct (run_execution run_command w clk id sop dry_run) as [e w'].
  cbn [fst snd]. unfold update_average.
  destruct (Z.eqb_spec (execution_count (count_execution sop e)) 0) as [E|E]; cbn.
  - split; [done|]. right. cbn in E. split_and!; [done | lia | done].
  - split; [done|]. by left.
Qed.

(** The record of a run, whatever the collaborator does. *)
Lemma run_execution_record w clk id sop dry_run :
  let e := (run_execution run_command w clk id sop dry_run).1 in
  exec_sop_id e = id
  /\ sop_version e = version sop
  /\ steps_total e = Z.of_nat (length (steps sop))
  /\ 0 <= steps_completed e
  /\ steps_completed e + Z.of_nat (length (failed_steps e)) <= steps_total e
  /\ sublist (failed_steps e) (step_number <$> steps sop)
  /\ status e = final_status (failed_steps e)
  /\ (failed_steps e = [] -> steps_completed e = steps_total e)
  /\ (output (new_execution clk id sop) = ∅ -> failed_steps e = [] ->
      Forall (fun s => dependencies s = []) (steps sop)).
Proof.
  cbv zeta. unfold run_execution.
  destruct (run_steps_progress dry_run (steps sop)
              (mkLoop (new_execution clk id sop) [] ∅ w))
    as (extra & Hf & Hsub & He & Hle & Hsum & Hall & Hdeps).
  cbn [ls_failed_steps ls_execution app] in Hf, He, Hle, Hsum, Hall, Hdeps.
  cbn [fst]. rewrite He. cbn. rewrite Hf.
  split_and!; done.
Qed.

End RecordFacts.

Lemma success_rate_bounds (completed total : Z) :
  0 <= completed <= total ->
  (0 <= compute_success_rate completed total <= 100)%Q
  /\ (0 < total -> completed = total -> (compute_success_rate completed total == 100)%Q).
Proof.
  intros [H0 H1]. unfold compute_success_rate.
  destruct (Z.ltb_spec 0 total) as [Ht|Ht].
  - assert (0 < inject_Z total)%Q as Hq
      by (change 0%Q with (inject_Z 0); by rewrite <- Zlt_Qlt).
    assert (0 <= inject_Z completed)%Q as Hc
      by (change 0%Q with (inject_Z 0); by rewrite <- Zle_Qle).
    assert (inject_Z completed <= inject_Z total)%Q as Hct by (by rewrite <- Zle_Qle).
    assert (0 <= inject_Z completed / inject_Z total)%Q as Hlo
      by (apply Qle_shift_div_l; [done | lra]).
    assert (inject_Z completed / inject_Z total <= 1)%Q as Hhi
      by (apply Qle_shift_div_r; [done | lra]).
    split; [lra|]. intros _ ->.
    assert (inject_Z total / inject_Z total == 1)%Q as -> by (field; lra). lra.
  - split; [lra | lia].
Qed.

(** X3.  The record [execute_sop] returns for a stored definition carries
    the id and the version it ran, counts every step of the definition in
    [steps_total], and accounts for each step at most once: completed
    steps and failed steps together never exceed the total, and the failed
    steps are step numbers of the definition, in its order.  The call
    reports success exactly when no step failed, which is exactly when
    every step completed; the rate lies between 0 and 100 and is 100 on
    success of a non-empty definition. *)
Theorem execution_record_is_consistent
    {World : Type} (run_command : World -> string -> Z -> cmd_result * World)
    (ag ag' : Agent) (w w' : World) (clk : ExecClock) (id : string) (dry_run : bool)
    (sop : SOPDefinition) (ok : bool) (e : SOPExecution) :
  sops ag !! id = Some sop ->
  execute_sop run_command ag w clk id dry_run = (ag', w', Return (ok, Some e)) ->
  exec_sop_id e = id
  /\ sop_version e = version sop
  /\ steps_total e = Z.of_nat (length (steps sop))
  /\ 0 <= steps_completed e
  /\ steps_completed e + Z.of_nat (length (failed_steps e)) <= steps_total e
  /\ sublist (failed_steps e) (step_number <$> steps sop)
  /\ (ok = true <-> failed_steps e = [])
  /\ (ok = true <-> status e = COMPLETED)
  /\ (ok = false <-> status e = FAILED)
  /\ (ok = true <-> steps_completed e = steps_total e)
  /\ (0 <= success_rate e <= 100)%Q
  /\ (ok = true -> steps sop <> [] -> (success_rate e == 100)%Q).
Proof.
  intros Hsop Hx.
  pose proof (execute_sop_cases run_command ag w clk id dry_run sop Hsop) as Hc.
  pose proof (run_execution_record run_command w clk id sop dry_run) as Hrec.
  cbv zeta in Hc, Hrec.
  remember (run_execution run_command w clk id sop dry_run) as r eqn:Er.
  assert (success_rate r.1 = compute_success_rate (steps_completed r.1) (steps_total r.1))
    as Hrate by (by rewrite Er).
  clear Er. rewrite Hx in Hc. cbn [fst snd] in Hc.
  destruct Hc as [_ [[Hr _]|[Hr _]]]; [|discriminate].
  injection Hr as -> ->.
  destruct Hrec as (H1 & H2 & H3 & H4 & H5 & H6 & H7 & H8 & _).
  set (e := r.1) in *.
  destruct (success_rate_bounds (steps_completed e) (steps_total e)) as [Hb Hfull]; [lia|].
  rewrite H7.
  split_and!; try done.
  - destruct (failed_steps e); cbn; split; done.
  - destruct (failed_steps e); cbn; split; done.
  - destruct (failed_steps e); cbn; split; done.
  - destruct (failed_steps e) as [|n l] eqn:E; cbn; split; try done.
    + intros _. by apply H8.
    + intros Heq. cbn [length] in H5. lia.
  - rewrite Hrate. apply Hb.
  - rewrite Hrate. apply Hb.
  - intros Hok Hne. rewrite Hrate. apply Hfull.
    + rewrite H3. destruct (steps sop); [done | cbn; lia].
    + apply H8. by destruct (failed_steps e).
Qed.

Lemma execution_record_is_consistent_witness :
  let x := execute_sop Fixtures.shell Fixtures.agent_C [] Fixtures.clock
             "scenario_c" false in
  let e := (run_execution Fixtures.shell [] Fixtures.clock "scenario_c"
              Fixtures.sop_C false).1 in
  exec_sop_id e = "scenario_c"
  /\ sop_version e = version Fixtures.sop_C
  /\ steps_total e = Z.of_nat (length (steps Fixtures.sop_C))
  /\ 0 <= steps_completed e
  /\ steps_completed e + Z.of_nat (length (failed_steps e)) <= steps_total e
  /\ sublist (failed_steps e) (step_number <$> steps Fixtures.sop_C)
  /\ (false = true <-> failed_steps e = [])
  /\ (false = true <-> status e = COMPLETED)
  /\ (false = false <-> status e = FAILED)
  /\ (false = true <-> steps_completed e = steps_total e)
  /\ (0 <= success_rate e <= 100)%Q
  /\ (false = true -> steps Fixtures.sop_C <> [] -> (success_rate e == 100)%Q).
Proof.
  intros x e.
  apply (execution_record_is_consistent Fixtures.shell Fixtures.agent_C x.1.1 [] x.1.2
           Fixtures.clock "scenario_c" false Fixtures.sop_C false e);
    vm_compute; reflexivity.
Defined.

(** X4.  A definition in which some step declares dependencies is never
    executed successfully, in a dry run or for real, whatever the commands
    do. *)
Theorem execute_never_succeeds_with_dependencies
    {World : Type} (run_command : World -> string -> Z -> cmd_result * World)
    (ag : Agent) (w : World) (clk : ExecClock) (id : string) (dry_run : bool)
    (sop : SOPDefinition) :
  sops ag !! id = Some sop ->
  Exists (fun s => dependencies s <> []) (steps sop) ->
  succeeded (execute_sop run_command ag w clk id dry_run).2 = false.
Proof.
  intros Hsop Hex.
  destruct (execute_sop_cases run_command ag w clk id dry_run sop Hsop)
    as [_ [[-> _]|[-> _]]]; [|done].
  destruct (run_execution_record run_command w clk id sop dry_run)
    as (_ & _ & _ & _ & _ & _ & H7 & _ & H9).
  cbn [succeeded]. rewrite H7.
  destruct (failed_steps _) as [|n l]; [|done].
  exfalso. apply Exists_exists in Hex as (s & Hin & Hd).
  specialize (H9 eq_refl eq_refl). rewrite Forall_forall in H9. by apply Hd, H9.
Qed.

Lemma execute_never_succeeds_with_dependencies_witness :
  succeeded (execute_sop Fixtures.shell Fixtures.agent_A [] Fixtures.clock
               "scenario_a" true).2 = false.
Proof.
  apply (execute_never_succeeds_with_dependencies Fixtures.shell Fixtures.agent_A []
           Fixtures.clock "scenario_a" true Fixtures.sop_A).
  - vm_compute. reflexivity.
  - apply Exists_cons_tl, Exists_cons_hd. discriminate.
Defined.

(** X5.  A dry run gives no command to the collaborator: the world comes
    back as it was.  Its record lists as failed exactly the steps that
    declare dependencies, in order, and counts the others as completed; so
    a dry run succeeds exactly when no step declares a dependency. *)
Theorem dry_run_runs_nothing
    {World : Type} (run_command : World -> string -> Z -> cmd_result * World)
    (ag : Agent) (w : World) (clk : ExecClock) (id : string) (sop : SOPDefinition) :
  sops ag !! id = Some sop ->
  let x := execute_sop run_command ag w clk id true in
  let e := (run_execution run_command w clk id sop true).1 in
  x.1.2 = w
  /\ failed_steps e = step_number <$> filter (fun s => dependencies s <> []) (steps sop)
  /\ steps_completed e
     = Z.of_nat (length (filter (fun s => dependencies s = []) (steps sop)))
  /\ (execution_count sop <> -1 ->
      x.2 = Return (bool_decide (Forall (fun s => dependencies s = []) (steps sop)),
                    Some e)).
Proof.
  intros Hsop x e.
  destruct (run_steps_dry_run run_command (steps sop)
              (mkLoop (new_execution clk id sop) [] ∅ w) eq_refl) as (Hf & Hc & Hw).
  cbn [ls_failed_steps ls_execution ls_world app] in Hf, Hc, Hw.
  assert (failed_steps e
          = step_number <$> filter (fun s => dependencies s <> []) (steps sop)) as Hfe.
  { subst e. unfold run_execution. cbn. exact Hf. }
  destruct (execute_sop_cases run_command ag w clk id true sop Hsop) as [Hw' Hcases].
  split_and!.
  - subst x. rewrite Hw'. unfold run_execution. cbn. exact Hw.
  - exact Hfe.
  - subst e. unfold run_execution. cbn. rewrite Hc. cbn. lia.
  - intros Hn. subst x. destruct Hcases as [[-> _]|[_ [? _]]]; [|done].
    fold e. do 2 f_equal.
    destruct (run_execution_record run_command w clk id sop true)
      as (_ & _ & _ & _ & _ & _ & H7 & _ & _).
    fold e in H7. rewrite H7, Hfe.
    clear. induction (steps sop) as [|s l IH]; [done|].
    destruct (decide (dependencies s = [])) as [Hd|Hd].
    + rewrite filter_cons_False by (by intros ?).
      rewrite IH. apply bool_decide_ext. rewrite Forall_cons. tauto.
    + rewrite filter_cons_True by done. cbn.
      symmetry. apply bool_decide_eq_false_2. rewrite Forall_cons. tauto.
Qed.

Lemma dry_run_runs_nothing_witness :
  let x := execute_sop Fixtures.shell Fixtures.agent_A [] Fixtures.clock "scenario_a" true in
  let e := (run_execution Fixtures.shell [] Fixtures.clock "scenario_a"
              Fixtures.sop_A true).1 in
  x.1.2 = []
  /\ failed_steps e
     = step_number <$> filter (fun s => dependencies s <> []) (steps Fixtures.sop_A)
  /\ steps_completed e
     = Z.of_nat (length (filter (fun s => dependencies s = []) (steps Fixtures.sop_A)))
  /\ (execution_count Fixtures.sop_A <> -1 ->
      x.2 = Return (bool_decide (Forall (fun s => dependencies s = [])
                                   (steps Fixtures.sop_A)),
                    Some e)).
Proof.
  apply (dry_run_runs_nothing Fixtures.shell Fixtures.agent_A [] Fixtures.clock
           "scenario_a" Fixtures.sop_A).
  vm_compute. reflexivity.
Defined.

(** X6.  Run for real, a step succeeds exactly when its command exits
    with status 0 and, if it has a non-empty validation check, that check
    (run after the command, with a timeout of 30 seconds) exits with
    status 0 as well; its output is then what the command printed.  After
    a command that exits with another status the check is not run, and
    without a check the collaborator is called exactly once. *)
Theorem step_succeeds_iff_command_and_check_exit_zero
    {World : Type} (run_command : World -> string -> Z -> cmd_result * World)
    (w : World) (step : SOPStep) :
  let r := _execute_step run_command w step false in
  let first := run_command w (command step) (timeout_seconds step) in
  (r.1.1 = true <->
   exists out err,
     first.1 = Exited 0 out err
     /\ r.1.2 = out
     /\ (opt_truthy (validation_check step) = false
         \/ exists vout verr,
              (run_command first.2 (default "" (validation_check step)) 30).1
              = Exited 0 vout verr))
  /\ (forall rc out err,
        first.1 = Exited rc out err -> rc <> 0 ->
        r = (false, "Command failed: " +:+ err, first.2))
  /\ (opt_truthy (validation_check step) = false -> r.2 = first.2).
Proof.
  cbv zeta. unfold _execute_step.
  destruct (run_command w (command step) (timeout_seconds step)) as [res w1] eqn:E1.
  cbn [fst snd].
  destruct res as [rc out err| |msg].
  - destruct (Z.eqb_spec rc 0) as [->|Hrc].
    + destruct (opt_truthy (validation_check step)) eqn:Hv; cbn [andb].
      * destruct (run_command w1 (default "" (validation_check step)) 30)
          as [vres w2] eqn:E2.
        destruct vres as [vrc vout verr| |vmsg]; cbn [fst snd].
        -- destruct (Z.eqb_spec vrc 0) as [->|Hvrc]; cbn.
           ++ split_and!; [|intros ? ? ? [= <- _ _]; done|done].
              split; [|done]. intros _. exists out, err. split_and!; eauto.
           ++ split_and!; [|intros ? ? ? [= <- _ _]; done|done].
              split; [done|]. intros (o & e & _ & _ & [?|(vo & ve & [= ? _ _])]); done.
        -- split_and!; [|intros ? ? ? [= <- _ _]; done|done].
           split; [done|]. intros (o & e & _ & _ & [?|(vo & ve & ?)]); done.
        -- split_and!; [|intros ? ? ? [= <- _ _]; done|done].
           split; [done|]. intros (o & e & _ & _ & [?|(vo & ve & ?)]); done.
      * cbn. split_and!; [|intros ? ? ? [= <- _ _]; done|done].
        split; [|done]. intros _. exists out, err. split_and!; eauto.
    + rewrite andb_false_r. cbn. split_and!.
      * split; [done|]. intros (o & e & [= ? _ _] & _); done.
      * by intros ? ? ? [= <- <- <-] _.
      * done.
  - cbn. split_and!; [|done..].
    split; [done|]. intros (o & e & ? & _); done.
  - cbn. split_and!; [|done..].
    split; [done|]. intros (o & e & ? & _); done.
Qed.

(** The rolling average is computed in binary64, as the code computes
    it: after two dry runs that took 0.1 and 0.2 seconds (the nearest
    binary64 values) the stored average is 0.15000000000000002, which is
    not the binary64 value nearest to 0.15. *)
Example average_is_computed_in_binary64 :
  let clk d := mkExecClock "2024-01-01T00:00:00" 1704067200 "2024-01-01T00:00:01" d in
  let ag1 := (execute_sop Fixtures.shell Fixtures.agent_A []
                (clk 0x1.999999999999ap-4%float) "scenario_a" true).1.1 in
  let ag2 := (execute_sop Fixtures.shell ag1 []
                (clk 0x1.999999999999ap-3%float) "scenario_a" true).1.1 in
  average_duration <$> sops ag1 !! "scenario_a" = Some 0x1.999999999999ap-4%float
  /\ average_duration <$> sops ag2 !! "scenario_a" = Some 0x1.3333333333334p-3%float
  /\ PrimFloat.eqb 0x1.3333333333334p-3 0x1.3333333333333p-3 = false.
Proof. vm_compute. repeat split; reflexivity. Qed.

Lemma slice_from_last_one {A} (l : list A) (x : A) : slice_from (- 1) (l ++ [x]) = [x].
Proof.
  unfold slice_from. rewrite length_app. cbn [length Z.ltb Z.compare].
  replace (Z.to_nat (Z.max 0 (-1 + Z.of_nat (length l + 1)))) with (length l) by lia.
  by rewrite drop_app_length.
Qed.

(** X8.  A call of [execute_sop] that returns appends its record, and only
    that, to the execution history; asked for the last record of that id,
    or the last record of any id, [get_execution_history] answers with
    it. *)
Theorem executed_record_is_latest_in_history
    {World : Type} (run_command : World -> string -> Z -> cmd_result * World)
    (ag ag' : Agent) (w w' : World) (clk : ExecClock) (id : string) (dry_run : bool)
    (ok : bool) (e : SOPExecution) :
  execute_sop run_command ag w clk id dry_run = (ag', w', Return (ok, Some e)) ->
  execution_history ag' = execution_history ag ++ [e]
  /\ get_execution_history ag' None 1 = [e]
  /\ (id <> "" -> get_execution_history ag' (Some id) 1 = [e])
  /\ (id <> "" ->
      get_execution_history ag' (Some id) 0 = get_execution_history ag (Some id) 0 ++ [e]).
Proof.
  intros Hx. destruct (sops ag !! id) as [sop|] eqn:Hsop.
  2:{ rewrite (execute_sop_unknown run_command _ _ _ _ _ Hsop) in Hx. discriminate. }
  pose proof (execute_sop_cases run_command ag w clk id dry_run sop Hsop) as Hc.
  pose proof (run_execution_record run_command w clk id sop dry_run) as Hrec.
  cbv zeta in Hc, Hrec.
  remember (run_execution run_command w clk id sop dry_run) as r eqn:Er. clear Er.
  rewrite Hx in Hc. cbn [fst snd] in Hc.
  destruct Hc as [_ [[Hr Hh]|[Hr _]]]; [|discriminate].
  injection Hr as -> ->. destruct Hrec as (Hid & _).
  assert (filter (fun x => exec_sop_id x = id) (execution_history ag')
          = filter (fun x => exec_sop_id x = id) (execution_history ag) ++ [r.1]) as Hf.
  { rewrite Hh, filter_app. f_equal. by rewrite filter_cons_True. }
  split_and!.
  - exact Hh.
  - unfold get_execution_history. rewrite Hh. apply slice_from_last_one.
  - intros Hne. unfold get_execution_history. rewrite (str_truthy_nonempty _ Hne), Hf.
    apply slice_from_last_one.
  - intros Hne. unfold get_execution_history. rewrite (str_truthy_nonempty _ Hne), Hf.
    by rewrite !slice_from_zero.
Qed.

Lemma executed_record_is_latest_in_history_witness :
  let x := execute_sop Fixtures.shell Fixtures.agent_C [] Fixtures.clock
             "scenario_c" false in
  let e := (run_execution Fixtures.shell [] Fixtures.clock "scenario_c"
              Fixtures.sop_C false).1 in
  execution_history x.1.1 = execution_history Fixtures.agent_C ++ [e]
  /\ get_execution_history x.1.1 None 1 = [e]
  /\ ("scenario_c" <> "" -> get_execution_history x.1.1 (Some "scenario_c") 1 = [e])
  /\ ("scenario_c" <> "" ->
      get_execution_history x.1.1 (Some "scenario_c") 0
      = get_execution_history Fixtures.agent_C (Some "scenario_c") 0 ++ [e]).
Proof.
  intros x e.
  apply (executed_record_is_latest_in_history Fixtures.shell Fixtures.agent_C x.1.1
           [] x.1.2 Fixtures.clock "scenario_c" false false e).
  vm_compute. reflexivity.
Defined.

(** X9.  [execute_sop] touches one definition only, and of it only the
    statistics: every other entry of the registry is as before, and the
    entry of the id executed differs from the old one at most in
    [execution_count], [success_count], [failure_count] and
    [average_duration].  For an id that is not in the registry the call
    returns failure without a record and changes neither agent nor
    world. *)
Theorem execute_changes_statistics_only
    {World : Type} (run_command : World -> string -> Z -> cmd_result * World)
    (ag : Agent) (w : World) (clk : ExecClock) (id : string) (dry_run : bool) :
  let x := execute_sop run_command ag w clk id dry_run in
  (forall id', id' <> id -> sops x.1.1 !! id' = sops ag !! id')
  /\ (forall sop, sops ag !! id = Some sop ->
        exists ec sc fc avg, sops x.1.1 !! id = Some (with_counters sop ec sc fc avg))
  /\ (sops ag !! id = None -> x = (ag, w, Return (false, None))).
Proof.
  intros x. subst x. split_and!.
  - intros id' Hne. destruct (sops ag !! id) as [sop|] eqn:Hsop.
    + destruct (execute_sop_registry run_command ag w clk id dry_run sop Hsop) as [-> _].
      by rewrite lookup_insert_ne.
    + by rewrite (execute_sop_unknown run_command _ _ _ _ _ Hsop).
  - intros sop Hsop.
    destruct (execute_sop_registry run_command ag w clk id dry_run sop Hsop) as [-> _].
    rewrite lookup_insert_eq. unfold stored_after, update_average, count_execution.
    destruct (_ =? 0); cbn; eexists _, _, _, _; reflexivity.
  - apply execute_sop_unknown.
Qed.

(** ** The agent's own validation *)

Lemma forallb_Forall {A} (f : A -> bool) (l : list A) :
  forallb f l = true <-> Forall (fun x => f x = true) l.
Proof.
  induction l as [|x r IH]; cbn; [by split|].
  rewrite andb_true_iff, Forall_cons, IH. done.
Qed.

Lemma bind_nil_Forall {A B} (f : A -> list B) (l : list A) :
  l ≫= f = [] <-> Forall (fun x => f x = []) l.
Proof.
  induction l as [|x r IH]; [by split|].
  rewrite bind_cons, Forall_cons, <- IH. split.
  - intros H. by apply app_eq_nil in H.
  - intros [-> ->]. done.
Qed.

Lemma numbered_from_check_numbering sop i l :
  numbered_from i l = true <-> check_numbering sop i l = [].
Proof.
  revert i. induction l as [|s r IH]; intros i; cbn; [done|].
  destruct (step_number s =? i); cbn; [apply IH | split; discriminate].
Qed.

(** The outcome of a dry run of a definition. *)
Lemma dry_run_outcome {World : Type}
    (run_command : World -> string -> Z -> cmd_result * World)
    (w : World) (clk : ExecClock) (id : string) (sop : SOPDefinition) :
  let r := run_execution run_command w clk id sop true in
  r.2 = w
  /\ failed_steps r.1 = step_number <$> filter (fun s => dependencies s <> []) (steps sop)
  /\ steps_completed r.1
     = Z.of_nat (length (filter (fun s => dependencies s = []) (steps sop)))
  /\ is_completed (status r.1)
     = bool_decide (Forall (fun s => dependencies s = []) (steps sop)).
Proof.
  cbv zeta.
  destruct (run_steps_dry_run run_command (steps sop)
              (mkLoop (new_execution clk id sop) [] ∅ w) eq_refl) as (Hf & Hc & Hw).
  cbn [ls_failed_steps ls_execution ls_world app] in Hf, Hc, Hw.
  unfold run_execution. cbn. rewrite Hf, Hc. split_and!; [done | done | cbn; lia |].
  clear. induction (steps sop) as [|s l IH]; [done|].
  destruct (decide (dependencies s = [])) as [Hd|Hd].
  - rewrite filter_cons_False by (by intros ?).
    rewrite IH. apply bool_decide_ext. rewrite Forall_cons. tauto.
  - rewrite filter_cons_True by done. cbn.
    symmetry. apply bool_decide_eq_false_2. rewrite Forall_cons. tauto.
Qed.

(** X10.  Validating through the agent is itself an execution: for a
    stored definition the call runs it dry, so the world is untouched, but
    [execution_count] goes up by one and the history grows by one record.
    The stored status becomes [validated] when the verdict is positive and
    is left as it was otherwise; the steps are not changed. *)
Theorem agent_validation_counts_as_execution
    {World : Type} (run_command : World -> string -> Z -> cmd_result * World)
    (ag : Agent) (w : World) (now : string) (clk : ExecClock) (id : string)
    (sop : SOPDefinition) :
  sops ag !! id = Some sop ->
  execution_count sop <> -1 ->
  let x := validate_sop run_command ag w now clk id in
  exists valid report sop',
    x.2 = Return (valid, Some report)
    /\ x.1.2 = w
    /\ sops x.1.1 !! id = Some sop'
    /\ execution_count sop' = execution_count sop + 1
    /\ length (execution_history x.1.1) = S (length (execution_history ag))
    /\ sop_status sop' = (if valid then VALIDATED else sop_status sop)
    /\ steps sop' = steps sop.
Proof.
  intros Hsop Hn x. subst x. unfold validate_sop. rewrite Hsop.
  rewrite (execute_sop_returns run_command _ _ _ _ _ _ Hsop Hn).
  destruct (dry_run_outcome run_command w clk id sop) as (Hw & _).
  set (r := run_execution run_command w clk id sop true) in *.
  destruct (stored_after_counts sop r.1) as [Hc _].
  destruct (stored_after_frame sop r.1) as [Hs _].
  assert (sop_status (stored_after sop r.1) = sop_status sop) as Hst.
  { unfold stored_after, update_average, count_execution. by destruct (_ =? 0). }
  destruct (_validate_structure sop && _validate_syntax sop && _validate_dependencies sop
            && _validate_completeness sop && is_completed (status r.1)) eqn:Hv;
    cbn [sops execution_history fst snd]; rewrite ?lookup_insert_eq.
  - eexists true, _, (with_status (stored_after sop r.1) VALIDATED).
    split_and!; try reflexivity; try done; try apply lookup_insert_eq.
    cbn. rewrite length_app. cbn. lia.
  - eexists false, _, (stored_after sop r.1).
    split_and!; try reflexivity; try done; try apply lookup_insert_eq.
    cbn. rewrite length_app. cbn. lia.
Qed.

Lemma agent_validation_counts_as_execution_witness :
  let x := validate_sop Fixtures.shell Fixtures.agent_A [] "2024-01-01T00:00:01"
             Fixtures.clock "scenario_a" in
  exists valid report sop',
    x.2 = Return (valid, Some report)
    /\ x.1.2 = []
    /\ sops x.1.1 !! "scenario_a" = Some sop'
    /\ execution_count sop' = execution_count Fixtures.sop_A + 1
    /\ length (execution_history x.1.1) = S (length (execution_history Fixtures.agent_A))
    /\ sop_status sop' = (if valid then VALIDATED else sop_status Fixtures.sop_A)
    /\ steps sop' = steps Fixtures.sop_A.
Proof.
  apply (agent_validation_counts_as_execution Fixtures.shell Fixtures.agent_A []
           "2024-01-01T00:00:01" Fixtures.clock "scenario_a" Fixtures.sop_A).
  - vm_compute. reflexivity.
  - discriminate.
Defined.

(** X11.  The agent validates a stored definition exactly when its
    structure, syntax and completeness checks pass and no step declares a
    dependency: a definition with a dependency, however well formed, is
    never validated by [validate_sop]. *)
Theorem agent_validates_iff_checks_pass_and_no_dependencies
    {World : Type} (run_command : World -> string -> Z -> cmd_result * World)
    (ag : Agent) (w : World) (now : string) (clk : ExecClock) (id : string)
    (sop : SOPDefinition) :
  sops ag !! id = Some sop ->
  execution_count sop <> -1 ->
  succeeded (validate_sop run_command ag w now clk id).2 = true
  <-> _validate_structure sop = true
      /\ _validate_syntax sop = true
      /\ _validate_completeness sop = true
      /\ Forall (fun s => dependencies s = []) (steps sop).
Proof.
  intros Hsop Hn. unfold validate_sop. rewrite Hsop.
  rewrite (execute_sop_returns run_command _ _ _ _ _ _ Hsop Hn).
  destruct (dry_run_outcome run_command w clk id sop) as (_ & _ & _ & ->).
  cbv beta iota zeta. cbn [succeeded snd]. rewrite !andb_true_iff, bool_decide_eq_true.
  split; [tauto|]. intros (H1 & H2 & H3 & H4). split_and!; try done.
  unfold _validate_dependencies. apply forallb_Forall.
  eapply Forall_impl; [exact H4|]. intros s ->. done.
Qed.

Lemma agent_validates_iff_checks_pass_and_no_dependencies_witness :
  succeeded (validate_sop Fixtures.shell Fixtures.agent_C [] "2024-01-01T00:00:01"
               Fixtures.clock "scenario_c").2 = true
  <-> _validate_structure Fixtures.sop_C = true
      /\ _validate_syntax Fixtures.sop_C = true
      /\ _validate_completeness Fixtures.sop_C = true
      /\ Forall (fun s => dependencies s = []) (steps Fixtures.sop_C).
Proof.
  apply (agent_validates_iff_checks_pass_and_no_dependencies Fixtures.shell
           Fixtures.agent_C [] "2024-01-01T00:00:01" Fixtures.clock "scenario_c"
           Fixtures.sop_C).
  - vm_compute. reflexivity.
  - discriminate.
Defined.

Lemma validate_dependencies_iff sop :
  _validate_dependencies sop = true <-> _check_logic sop = [].
Proof.
  unfold _validate_dependencies, _check_logic.
  rewrite forallb_Forall, bind_nil_Forall. apply Forall_iff. intros s.
  unfold logic_of_step. rewrite forallb_Forall, bind_nil_Forall.
  apply Forall_iff. intros d. unfold logic_of_dep.
  destruct (bool_decide (d ∈ step_number_set (steps sop)));
    destruct (step_number s <=? d); cbn; split; done.
Qed.

Lemma validate_syntax_iff sop :
  _validate_syntax sop && _validate_completeness sop = true <-> _check_syntax sop = [].
Proof.
  unfold _validate_syntax, _validate_completeness, _check_syntax.
  rewrite andb_true_iff, !forallb_Forall, bind_nil_Forall, <- Forall_and.
  apply Forall_iff. intros s. unfold syntax_of_step.
  destruct (str_truthy (command s)), (str_truthy (name s)),
    (str_truthy (description s)); cbn; split; (done || by intros [? ?]).
Qed.

Lemma check_structure_iff sop :
  _check_structure sop = []
  <-> _validate_structure sop = true
      /\ version sop <> "" /\ sop_description sop <> "" /\ sop_component sop <> "".
Proof.
  unfold _check_structure, _validate_structure, required_fields.
  rewrite !app_nil, <- (numbered_from_check_numbering sop).
  destruct (sop_id sop), (sop_name sop), (version sop), (sop_description sop),
    (sop_component sop), (steps sop); cbn;
    (split; [intros (? & ? & ?) | intros (? & ? & ? & ?)]); try done.
Qed.

Lemma validate_structure_parts sop :
  _validate_structure sop = true
  <-> sop_id sop <> "" /\ sop_name sop <> "" /\ steps sop <> []
      /\ check_numbering sop 1 (steps sop) = [].
Proof.
  unfold _validate_structure. rewrite <- (numbered_from_check_numbering sop).
  destruct (sop_id sop), (sop_name sop), (steps sop); cbn;
    (split; [intros ? | intros (? & ? & ? & ?)]); try done.
Qed.

(** X12.  The agent's boolean checks and the validator's findings agree:
    the dependency check passes exactly when [_check_logic] finds nothing;
    the syntax and completeness checks both pass exactly when
    [_check_syntax] finds nothing; and [_check_structure] finds nothing
    exactly when the structure check passes and the definition has, in
    addition, a version, a description and a component. *)
Theorem agent_checks_agree_with_validator (sop : SOPDefinition) :
  (_validate_dependencies sop = true <-> _check_logic sop = [])
  /\ (_validate_syntax sop && _validate_completeness sop = true
      <-> _check_syntax sop = [])
  /\ (_check_structure sop = []
      <-> _validate_structure sop = true
          /\ version sop <> "" /\ sop_description sop <> "" /\ sop_component sop <> "").
Proof.
  split_and!;
    [apply validate_dependencies_iff | apply validate_syntax_iff | apply check_structure_iff].
Qed.

(** ** Validation reports *)

Local Ltac finding_facts :=
  unfold compose; cbv beta zeta;
  repeat match goal with
         | |- Forall _ (_ ++ _) => apply Forall_app_2
         | |- Forall _ (if ?b then _ else _) => destruct b
         | |- Forall _ [] => constructor
         | |- Forall _ (_ :: _) => constructor
         | |- severity_fits_type _ => unfold severity_fits_type; cbn; lia
         | |- finding_type _ = _ => reflexivity
         end.

Lemma check_numbering_fits sop i l :
  Forall severity_fits_type (check_numbering sop i l).
Proof. revert i. induction l as [|s r IH]; intros i; cbn; finding_facts. apply IH. Qed.

Lemma check_numbering_errors sop i l :
  Forall (fun f => finding_type f = error_) (check_numbering sop i l).
Proof. revert i. induction l as [|s r IH]; intros i; cbn; finding_facts. apply IH. Qed.

(** Errors carry severity 4 or 5, warnings 2 or 3, the rest 1. *)
Lemma all_findings_fit sop res : Forall severity_fits_type (all_findings sop res).
Proof.
  unfold all_findings. rewrite !Forall_app. split_and!.
  - unfold _check_structure. rewrite !Forall_app. split_and!.
    + apply Forall_fmap, Forall_true. intros fld. finding_facts.
    + finding_facts.
    + apply check_numbering_fits.
  - unfold _check_syntax. apply Forall_bind, Forall_true. intros s.
    unfold syntax_of_step. finding_facts.
  - unfold _check_logic. apply Forall_bind, Forall_true. intros s.
    unfold compose, logic_of_step. apply Forall_bind, Forall_true. intros d.
    unfold logic_of_dep. finding_facts.
  - unfold _check_efficiency. rewrite !Forall_app. split_and!; finding_facts.
    apply Forall_bind, Forall_true. intros s. unfold timeout_of_step. finding_facts.
  - unfold _check_clarity. rewrite !Forall_app. split_and!; finding_facts.
    apply Forall_bind, Forall_true. intros s. unfold clarity_of_step. finding_facts.
  - destruct res as [res|]; cbn; [|constructor].
    unfold _check_execution. destruct (String.eqb _ _); [|constructor].
    apply Forall_fmap, Forall_true. intros n. finding_facts.
Qed.

Lemma _check_structure_errors sop :
  Forall (fun f => finding_type f = error_) (_check_structure sop).
Proof.
  unfold _check_structure. rewrite !Forall_app. split_and!.
  - apply Forall_fmap, Forall_true. intros fld. finding_facts.
  - finding_facts.
  - apply check_numbering_errors.
Qed.

Lemma _check_logic_errors sop :
  Forall (fun f => finding_type f = error_) (_check_logic sop).
Proof.
  unfold _check_logic. apply Forall_bind, Forall_true. intros s.
  unfold compose, logic_of_step. apply Forall_bind, Forall_true. intros d.
  unfold logic_of_dep. finding_facts.
Qed.

Lemma count_type_zero t l :
  count_type t l = 0 <-> Forall (fun f => finding_type f <> t) l.
Proof.
  unfold count_type. induction l as [|f r IH]; [by split|].
  rewrite Forall_cons. destruct (decide (finding_type f = t)) as [E|E].
  - rewrite filter_cons_True by done. cbn [length]. split; [lia | tauto].
  - rewrite filter_cons_False by done. rewrite IH. tauto.
Qed.

Lemma count_type_pos t l f : f ∈ l -> finding_type f = t -> 1 <= count_type t l.
Proof.
  intros Hin Ht. destruct (decide (count_type t l = 0)) as [E|E].
  - apply count_type_zero in E. rewrite Forall_forall in E. by destruct (E f Hin).
  - pose proof (count_type_nonneg t l). lia.
Qed.

Lemma no_errors_all_nil l :
  Forall (fun f => finding_type f = error_) l -> count_type error_ l = 0 -> l = [].
Proof.
  intros Hall Hz. apply count_type_zero in Hz.
  destruct l as [|f r]; [done|].
  inversion Hall; inversion Hz; subst. done.
Qed.

Lemma not_approved_with_error who now_epoch now_iso sop res f :
  f ∈ all_findings sop res -> finding_type f = error_ ->
  is_approved (validate_sop_comprehensive who now_epoch now_iso sop res) = false.
Proof.
  intros Hin Ht. cbn [is_approved validate_sop_comprehensive].
  pose proof (count_type_pos _ _ _ Hin Ht).
  destruct (Z.eqb_spec (count_type error_ (all_findings sop res)) 0); [lia | done].
Qed.

Lemma total_penalty_elem l f :
  Forall (fun f => 0 <= severity f) l -> f ∈ l -> (penalty f <= total_penalty l)%Q.
Proof.
  induction 1 as [|x r Hx Hr IH]; [by intros ?%elem_of_nil|].
  pose proof (penalty_nonneg x Hx). pose proof (total_penalty_nonneg r Hr).
  cbn [total_penalty]. intros [->|Hin]%elem_of_cons; [lra|].
  specialize (IH Hin). lra.
Qed.

Lemma severity_range_nonneg l :
  Forall severity_in_range l -> Forall (fun f => 0 <= severity f) l.
Proof.
  intros H. eapply Forall_impl; [exact H|].
  unfold severity_in_range. intros f ?. cbn beta. lia.
Qed.

Lemma score_at_most l (p : Q) :
  (p <= total_penalty l)%Q -> (p <= 100)%Q -> (quality_score l <= 100 - p)%Q.
Proof.
  intros Hp Hle. destruct (quality_score_spec l) as [Hz Hpos].
  destruct (Qlt_le_dec 0 (100 - total_penalty l)) as [Hc|Hc].
  - rewrite (Hpos Hc). lra.
  - rewrite (Hz Hc). lra.
Qed.

(** X13.  A definition without steps is never approved: its report has
    the two structure errors for the missing [steps] field and for the
    empty procedure, so a score of at most 80, and the information that
    it has very few steps. *)
Theorem empty_definition_is_never_approved
    (who : string) (now_epoch : Z) (now_iso : string) (sop : SOPDefinition)
    (res : option ExecutionResults) :
  steps sop = [] ->
  let r := validate_sop_comprehensive who now_epoch now_iso sop res in
  is_approved r = false
  /\ 2 <= errors r
  /\ missing_field sop "steps" ∈ findings r
  /\ no_steps_finding sop ∈ findings r
  /\ 1 <= infos r
  /\ (overall_quality_score r <= 80)%Q.
Proof.
  intros Hs r.
  assert (exists A, _check_structure sop = A ++ [no_steps_finding sop]
                    /\ missing_field sop "steps" ∈ A
                    /\ Forall severity_in_range A) as (A & HA & Hin & HsevA).
  { unfold _check_structure. rewrite Hs. cbn [list_truthy negb check_numbering].
    eexists. split; [by rewrite app_nil_r|]. split.
    - apply list_elem_of_fmap. exists "steps". split; [done|].
      apply list_elem_of_fmap. exists ("steps", false). split; [done|].
      apply list_elem_of_filter. split; [done|].
      unfold required_fields. rewrite Hs. set_solver.
    - apply Forall_fmap, Forall_true. intros f. unfold severity_in_range. cbn. lia. }
  assert (exists B, _check_efficiency sop
                    = mkFinding ("EFF_002_" +:+ sop_id sop) (sop_id sop) info efficiency
                        None "SOP has very few steps"
                        "Consider if this is complex enough to warrant a SOP" 1 false :: B)
    as (B & HB).
  { unfold _check_efficiency. rewrite Hs. cbn. eexists. reflexivity. }
  pose proof (all_findings_severity sop res) as Hsev.
  subst r. cbn [is_approved errors infos findings overall_quality_score
                  validate_sop_comprehensive].
  unfold all_findings in *. rewrite HA, HB in *.
  assert (1 <= count_type error_ A) as HcA by (by apply (count_type_pos _ _ _ Hin)).
  rewrite !Forall_app in Hsev. destruct Hsev as ((_ & S0) & S1 & S2 & S3 & S4 & S5).
  rewrite !count_type_app.
  change (count_type error_ [no_steps_finding sop]) with 1.
  repeat match goal with
         | |- context [count_type ?t ?l] =>
             lazymatch goal with
             | _ : 0 <= count_type t l |- _ => fail
             | _ => pose proof (count_type_nonneg t l)
             end
         end.
  assert (1 <= count_type info
                 ({| finding_id := "EFF_002_" +:+ sop_id sop; f_sop_id := sop_id sop;
                     finding_type := info; category := efficiency;
                     f_step_number := None; message := "SOP has very few steps";
                     recommendation := "Consider if this is complex enough to warrant a SOP";
                     severity := 1; fixed := false |} :: B)) as Hi.
  { eapply count_type_pos; [left | done]. }
  split_and!.
  - match goal with
    | |- (?n =? 0) && _ = false => destruct (Z.eqb_spec n 0); [lia | done]
    end.
  - lia.
  - set_solver.
  - set_solver.
  - lia.
  - change 80%Q with (100 - 20)%Q. apply score_at_most; [|lra].
    rewrite !total_penalty_app.
    pose proof (total_penalty_elem A _ (severity_range_nonneg _ HsevA) Hin) as HpA.
    change (penalty (missing_field sop "steps")) with (inject_Z 10) in HpA.
    change (total_penalty [no_steps_finding sop]) with (inject_Z 10 + 0)%Q.
    pose proof (total_penalty_nonneg _ (severity_range_nonneg _ S1)).
    pose proof (total_penalty_nonneg _ (severity_range_nonneg _ S2)).
    pose proof (total_penalty_nonneg _ (severity_range_nonneg _ S3)).
    pose proof (total_penalty_nonneg _ (severity_range_nonneg _ S4)).
    pose proof (total_penalty_nonneg _ (severity_range_nonneg _ S5)).
    change (inject_Z 10) with 10%Q in *. lra.
Qed.

Lemma empty_definition_is_never_approved_witness :
  let sop := Fixtures.sop_with "empty" [] [] in
  let r := validate_sop_comprehensive "validator" 0 "2024-01-01T00:00:00" sop None in
  is_approved r = false
  /\ 2 <= errors r
  /\ missing_field sop "steps" ∈ findings r
  /\ no_steps_finding sop ∈ findings r
  /\ 1 <= infos r
  /\ (overall_quality_score r <= 80)%Q.
Proof.
  apply (empty_definition_is_never_approved "validator" 0 "2024-01-01T00:00:00"
           (Fixtures.sop_with "empty" [] []) None).
  reflexivity.
Defined.

Lemma logic_finding_in_report sop res s d f :
  s ∈ steps sop -> d ∈ dependencies s ->
  f ∈ logic_of_dep sop (step_number_set (steps sop)) (step_number s) d ->
  f ∈ all_findings sop res.
Proof.
  intros Hs Hd Hf. unfold all_findings. rewrite !elem_of_app.
  right. right. left. unfold _check_logic.
  apply list_elem_of_bind. exists s. split; [|done].
  unfold logic_of_step. apply list_elem_of_bind. exists d. by split.
Qed.

(** X14.  A dependency that is the number of no step, or that is not
    smaller than the number of the step declaring it, is reported as a
    logic error of severity 5 carrying that step's number, and such a
    report is not approved and scores at most 90. *)
Theorem bad_dependency_is_a_logic_error
    (who : string) (now_epoch : Z) (now_iso : string) (sop : SOPDefinition)
    (res : option ExecutionResults) (s : SOPStep) (d : Z) :
  s ∈ steps sop ->
  d ∈ dependencies s ->
  (forall s', s' ∈ steps sop -> step_number s' <> d) \/ step_number s <= d ->
  let r := validate_sop_comprehensive who now_epoch now_iso sop res in
  (exists f, f ∈ findings r
             /\ finding_type f = error_ /\ category f = logic /\ severity f = 5
             /\ f_step_number f = Some (step_number s)
             /\ ((forall s', s' ∈ steps sop -> step_number s' <> d) ->
                 nonexistent_dependency sop (step_number s) d ∈ findings r)
             /\ (step_number s <= d ->
                 forward_dependency sop (step_number s) d ∈ findings r))
  /\ is_approved r = false
  /\ (overall_quality_score r <= 90)%Q.
Proof.
  intros Hs Hd Hbad r.
  assert ((forall s', s' ∈ steps sop -> step_number s' <> d) ->
          nonexistent_dependency sop (step_number s) d ∈ all_findings sop res) as Hmiss.
  { intros Hno. apply (logic_finding_in_report sop res s d); [done..|].
    unfold logic_of_dep. rewrite bool_decide_eq_false_2; [cbn; left|].
    unfold step_number_set. rewrite elem_of_list_to_set, list_elem_of_fmap.
    intros (s' & -> & Hin). by apply (Hno s'). }
  assert (step_number s <= d ->
          forward_dependency sop (step_number s) d ∈ all_findings sop res) as Hfwd.
  { intros Hle. apply (logic_finding_in_report sop res s d); [done..|].
    unfold logic_of_dep. apply elem_of_app. right.
    destruct (Z.leb_spec (step_number s) d); [left | lia]. }
  assert (exists f, f ∈ all_findings sop res
                    /\ finding_type f = error_ /\ category f = logic /\ severity f = 5
                    /\ f_step_number f = Some (step_number s)) as (f & Hf & Ht & Hc & Hv & Hn).
  { destruct Hbad as [Hno|Hle]; eexists; (split; [eauto|]); done. }
  subst r. cbn [findings is_approved overall_quality_score validate_sop_comprehensive].
  split_and!.
  - exists f. split_and!; done.
  - by apply (not_approved_with_error who now_epoch now_iso sop res f).
  - change 90%Q with (100 - 10)%Q. apply score_at_most; [|lra].
    pose proof (total_penalty_elem _ f
                  (severity_range_nonneg _ (all_findings_severity sop res)) Hf) as Hp.
    unfold penalty in Hp. rewrite Ht, Hv in Hp. exact Hp.
Qed.

Lemma bad_dependency_is_a_logic_error_witness :
  let sop := Fixtures.sop_B in
  let r := validate_sop_comprehensive "validator" 0 "2024-01-01T00:00:00" sop None in
  (exists f, f ∈ findings r
             /\ finding_type f = error_ /\ category f = logic /\ severity f = 5
             /\ f_step_number f = Some (step_number Fixtures.step_B2)
             /\ ((forall s', s' ∈ steps sop -> step_number s' <> 3) ->
                 nonexistent_dependency sop (step_number Fixtures.step_B2) 3 ∈ findings r)
             /\ (step_number Fixtures.step_B2 <= 3 ->
                 forward_dependency sop (step_number Fixtures.step_B2) 3 ∈ findings r))
  /\ is_approved r = false
  /\ (overall_quality_score r <= 90)%Q.
Proof.
  apply (bad_dependency_is_a_logic_error "validator" 0 "2024-01-01T00:00:00"
           Fixtures.sop_B None Fixtures.step_B2 3).
  - right. left.
  - left.
  - right. cbn. lia.
Defined.

Lemma check_numbering_positions sop i l (k : nat) s :
  check_numbering sop i l = [] -> l !! k = Some s -> step_number s = i + Z.of_nat k.
Proof.
  revert i k. induction l as [|x r IH]; intros i k Hc Hk; [done|].
  cbn in Hc. destruct (Z.eqb_spec (step_number x) i) as [E|E]; [|done].
  destruct k as [|k]; cbn in Hk.
  - injection Hk as <-. lia.
  - rewrite (IH (i + 1) k Hc Hk). lia.
Qed.

(** X15.  A report without errors certifies the data model: the
    definition has an id, a name, a version, a description, a component
    and at least one step; the step at position k (from 0) is numbered
    k+1 and has a command and a name; and every dependency of a step is a
    number between 1 and the number just before the step's own. *)
Theorem no_errors_means_well_formed
    (who : string) (now_epoch : Z) (now_iso : string) (sop : SOPDefinition)
    (res : option ExecutionResults) :
  errors (validate_sop_comprehensive who now_epoch now_iso sop res) = 0 ->
  (sop_id sop <> "" /\ sop_name sop <> "" /\ version sop <> ""
   /\ sop_description sop <> "" /\ sop_component sop <> "" /\ steps sop <> [])
  /\ (forall (k : nat) (s : SOPStep),
        steps sop !! k = Some s ->
        step_number s = Z.of_nat k + 1
        /\ command s <> "" /\ name s <> ""
        /\ forall d, d ∈ dependencies s -> 1 <= d < step_number s).
Proof.
  cbn [errors validate_sop_comprehensive]. unfold all_findings.
  rewrite !count_type_app. intros Hz.
  repeat match goal with
         | _ : context [count_type ?t ?l] |- _ =>
             lazymatch goal with
             | _ : 0 <= count_type t l |- _ => fail
             | _ => pose proof (count_type_nonneg t l)
             end
         end.
  assert (_check_structure sop = []) as Hstr
    by (apply no_errors_all_nil; [apply _check_structure_errors | lia]).
  assert (_check_logic sop = []) as Hlog
    by (apply no_errors_all_nil; [apply _check_logic_errors | lia]).
  assert (count_type error_ (_check_syntax sop) = 0) as Hsyn by lia.
  apply check_structure_iff in Hstr as (Hvs & Hver & Hdesc & Hcomp).
  apply validate_dependencies_iff in Hlog.
  apply validate_structure_parts in Hvs as (Hid & Hnm & Hne & Hnum).
  split; [done|]. intros k s Hk.
  assert (step_number s = Z.of_nat k + 1) as Hn
    by (rewrite (check_numbering_positions _ _ _ _ _ Hnum Hk); lia).
  assert (s ∈ steps sop) as Hin by (apply list_elem_of_lookup; eauto).
  split_and!; [done| | |].
  - intros Hc. apply count_type_zero in Hsyn. rewrite Forall_forall in Hsyn.
    apply (Hsyn (mkFinding ("SYN_001_" +:+ sop_id sop +:+ step_suffix (step_number s))
                   (sop_id sop) error_ syntax (Some (step_number s)) "Step has no command"
                   "Add a command to this step" 5 false)); [|done].
    unfold _check_syntax. apply list_elem_of_bind. exists s. split; [|done].
    unfold syntax_of_step. rewrite Hc. cbn. left.
  - intros Hc. apply count_type_zero in Hsyn. rewrite Forall_forall in Hsyn.
    apply (Hsyn (mkFinding ("SYN_002_" +:+ sop_id sop +:+ step_suffix (step_number s))
                   (sop_id sop) error_ syntax (Some (step_number s)) "Step has no name"
                   "Add a descriptive name to this step" 4 false)); [|done].
    unfold _check_syntax. apply list_elem_of_bind. exists s. split; [|done].
    unfold syntax_of_step. rewrite Hc. cbn. rewrite !elem_of_app. right. left.
  - intros d Hd. unfold _validate_dependencies in Hlog.
    rewrite forallb_Forall, Forall_forall in Hlog. specialize (Hlog s Hin).
    rewrite forallb_Forall, Forall_forall in Hlog. specialize (Hlog d Hd).
    cbn beta in Hlog. apply negb_true_iff, orb_false_iff in Hlog as [Hex Hlt].
    apply negb_false_iff, bool_decide_eq_true in Hex. apply Z.leb_gt in Hlt.
    split; [|done].
    unfold step_number_set in Hex. rewrite elem_of_list_to_set, list_elem_of_fmap in Hex.
    destruct Hex as (s' & -> & [j Hj]%list_elem_of_lookup).
    rewrite (check_numbering_positions _ _ _ _ _ Hnum Hj). lia.
Qed.

Lemma no_errors_means_well_formed_witness :
  let sop := Fixtures.sop_A in
  (sop_id sop <> "" /\ sop_name sop <> "" /\ version sop <> ""
   /\ sop_description sop <> "" /\ sop_component sop <> "" /\ steps sop <> [])
  /\ (forall (k : nat) (s : SOPStep),
        steps sop !! k = Some s ->
        step_number s = Z.of_nat k + 1
        /\ command s <> "" /\ name s <> ""
        /\ forall d, d ∈ dependencies s -> 1 <= d < step_number s).
Proof.
  apply (no_errors_means_well_formed "validator" 0 "2024-01-01T00:00:00"
           Fixtures.sop_A None).
  vm_compute. reflexivity.
Defined.

Lemma count_types_total (l : list ValidationFinding) :
  Z.of_nat (length l)
  = count_type error_ l + count_type warning l + count_type info l
    + count_type suggestion l.
Proof.
  unfold count_type. induction l as [|f r IH]; [done|].
  rewrite !filter_cons. cbn [length].
  repeat case_decide; try congruence; cbn [length]; try lia.
  by destruct (finding_type f).
Qed.

Lemma length_filter_split {A} (P : A -> Prop) `{!forall x, Decision (P x)} (l : list A) :
  (length (filter P l) + length (filter (fun x => ~ P x) l) = length l)%nat.
Proof.
  induction l as [|x r IH]; [done|].
  rewrite !filter_cons. destruct (decide (P x)).
  - rewrite decide_False by tauto. cbn. lia.
  - rewrite decide_True by done. cbn. lia.
Qed.

(** X16.  The numbers of a report add up: [total_findings] is the number
    of findings and the sum of the four counts by type; the refinement
    plan has one priority fix per error and one quality improvement per
    other finding; and the approval recorded is the one the counts and
    the score give. *)
Theorem report_counts_add_up
    (who : string) (now_epoch : Z) (now_iso : string) (sop : SOPDefinition)
    (res : option ExecutionResults) :
  let r := validate_sop_comprehensive who now_epoch now_iso sop res in
  total_findings r = Z.of_nat (length (findings r))
  /\ total_findings r = errors r + warnings r + infos r + suggestions r
  /\ Z.of_nat (length (priority_fixes (refinement_plan r))) = errors r
  /\ Z.of_nat (length (quality_improvements (refinement_plan r)))
     = warnings r + infos r + suggestions r
  /\ (errors r = 0 <-> priority_fixes (refinement_plan r) = [])
  /\ Z.of_nat (length (recommendations r))
     = (if 0 <? errors r then 1 else 0) + (if 0 <? warnings r then 1 else 0)
       + (if 0 <? suggestions r then 1 else 0).
Proof.
  intros r. subst r.
  cbn [total_findings findings errors warnings infos suggestions refinement_plan
         recommendations validate_sop_comprehensive].
  set (l := all_findings sop res).
  pose proof (count_types_total l) as Ht.
  pose proof (length_filter_split (fun f => finding_type f = error_) l) as Hsplit.
  unfold _create_refinement_plan, _generate_recommendations.
  cbn [priority_fixes quality_improvements].
  rewrite !length_fmap. fold (count_type error_ l).
  split_and!; try done.
  - unfold count_type in *. lia.
  - unfold count_type. split.
    + intros H. by destruct (filter _ l).
    + intros H. apply fmap_nil_inv in H. by rewrite H.
  - rewrite !length_app.
    destruct (0 <? count_type error_ l), (0 <? count_type warning l),
      (0 <? count_type suggestion l); cbn; lia.
Qed.

(** X17.  The quality score of a report lies between 0 and 100, and it is
    100 exactly when the report has no error, warning or suggestion.  On
    lists of findings with non-negative severities the score is
    antitone: findings added to a list never raise it. *)
Theorem quality_score_is_bounded_and_antitone
    (who : string) (now_epoch : Z) (now_iso : string) (sop : SOPDefinition)
    (res : option ExecutionResults) :
  let r := validate_sop_comprehensive who now_epoch now_iso sop res in
  (0 <= overall_quality_score r <= 100)%Q
  /\ ((overall_quality_score r == 100)%Q
      <-> errors r = 0 /\ warnings r = 0 /\ suggestions r = 0)
  /\ (forall l l' : list ValidationFinding,
        Forall (fun f => 0 <= severity f) l ->
        Forall (fun f => 0 <= severity f) l' ->
        (quality_score (l ++ l') <= quality_score l)%Q).
Proof.
  intros r. subst r. cbn [overall_quality_score errors warnings suggestions
                            validate_sop_comprehensive].
  set (l := all_findings sop res).
  pose proof (all_findings_fit sop res) as Hfit. fold l in Hfit.
  assert (Forall (fun f => 0 <= severity f) l) as Hnn
    by (apply severity_range_nonneg, all_findings_severity).
  pose proof (total_penalty_nonneg l Hnn) as Hp.
  destruct (quality_score_spec l) as [Hz Hpos].
  split_and!.
  - destruct (Qlt_le_dec 0 (100 - total_penalty l)) as [Hc|Hc];
      [rewrite (Hpos Hc) | rewrite (Hz Hc)]; lra.
  - destruct (Qlt_le_dec 0 (100 - total_penalty l)) as [Hc|Hc];
      [rewrite (Hpos Hc) | rewrite (Hz Hc)]; lra.
  - assert ((total_penalty l == 0)%Q
            <-> count_type error_ l = 0 /\ count_type warning l = 0
                /\ count_type suggestion l = 0) as Hiff.
    { clear Hz Hpos Hp. rewrite !count_type_zero, <- !Forall_and.
      induction Hfit as [|f k Hf Hk IH]; [by split|].
      inversion Hnn as [|? ? Hf0 Hk0]; subst.
      pose proof (total_penalty_nonneg k Hk0) as Hpk.
      pose proof (penalty_nonneg f Hf0) as Hpf.
      cbn [total_penalty]. rewrite Forall_cons, <- (IH Hk0).
      assert ((penalty f == 0)%Q
              <-> finding_type f <> error_ /\ finding_type f <> warning
                  /\ finding_type f <> suggestion) as Hf'.
      { unfold penalty, severity_fits_type in *. destruct (finding_type f).
        - split; [|by intros (? & _)]. intros H.
          assert (severity f * 2 = 0) by (apply inject_Z_injective; exact H). lia.
        - split; [|by intros (_ & ? & _)]. intros H.
          assert (severity f * 1 = 0) by (apply inject_Z_injective; exact H). lia.
        - split; [done | reflexivity].
        - split; [intros H; discriminate H | by intros (_ & _ & ?)]. }
      rewrite <- Hf'. split; [intros H; split; lra | intros [H1 H2]; lra]. }
    rewrite <- Hiff. split.
    + intros H. destruct (Qlt_le_dec 0 (100 - total_penalty l)) as [Hc|Hc].
      * rewrite (Hpos Hc) in H. lra.
      * rewrite (Hz Hc) in H. lra.
    + intros H. rewrite Hpos by lra. lra.
  - clear. intros l l' Hl Hl'.
    pose proof (total_penalty_nonneg l Hl). pose proof (total_penalty_nonneg l' Hl').
    pose proof (total_penalty_app l l') as Happ.
    destruct (quality_score_spec l) as [Hz Hpos].
    destruct (quality_score_spec (l ++ l')) as [Hz' Hpos'].
    destruct (Qlt_le_dec 0 (100 - total_penalty (l ++ l'))) as [Hc|Hc];
      destruct (Qlt_le_dec 0 (100 - total_penalty l)) as [Hd|Hd];
      rewrite ?(Hpos' Hc), ?(Hz' Hc), ?(Hpos Hd), ?(Hz Hd); lra.
Qed.

(** X18.  Execution results enter a report only under the status
    [FAILED], in capitals: then each listed failed step adds one logic
    error of severity 5 carrying its number, in order, and a report with
    such a step is not approved.  Under any other status nothing is
    added; in particular under each status value of the agent's own
    [StepStatus], whose members are spelled in lower case. *)
Theorem execution_results_count_only_when_FAILED
    (who : string) (now_epoch : Z) (now_iso : string) (sop : SOPDefinition)
    (res : ExecutionResults) :
  (er_status res = "FAILED" ->
   _check_execution sop res = failed_step_finding sop <$> er_failed_steps res
   /\ (er_failed_steps res <> [] ->
       is_approved (validate_sop_comprehensive who now_epoch now_iso sop (Some res))
       = false))
  /\ (er_status res <> "FAILED" ->
      findings (validate_sop_comprehensive who now_epoch now_iso sop (Some res))
      = findings (validate_sop_comprehensive who now_epoch now_iso sop None))
  /\ (forall st : StepStatus, step_status_value st <> "FAILED").
Proof.
  split_and!.
  - intros E. unfold _check_execution. rewrite E, String.eqb_refl.
    split; [done|]. intros Hne.
    destruct (er_failed_steps res) as [|n l] eqn:El; [done|].
    apply (not_approved_with_error who now_epoch now_iso sop (Some res)
             (failed_step_finding sop n)); [|done].
    unfold all_findings. rewrite !elem_of_app. do 5 right. cbn [from_option].
    unfold _check_execution. rewrite E, El, String.eqb_refl. left.
  - intros E. cbn [findings validate_sop_comprehensive]. unfold all_findings.
    cbn [from_option]. unfold _check_execution.
    destruct (String.eqb_spec (er_status res) "FAILED"); [done|]. reflexivity.
  - intros []; discriminate.
Qed.

(** X19.  [suggest_improvements] turns the warnings and suggestions of a
    report, and nothing else, into improvements, in the order of the
    findings.  On a report of [validate_sop_comprehensive] the priority of
    an improvement is never high: warnings come out as medium and
    suggestions as low. *)
Theorem improvements_are_never_high_priority
    (who : string) (now_epoch : Z) (now_iso : string) (sop : SOPDefinition)
    (res : option ExecutionResults) :
  let r := validate_sop_comprehensive who now_epoch now_iso sop res in
  Z.of_nat (length (suggest_improvements r)) = warnings r + suggestions r
  /\ Forall (fun i => priority i = "medium" \/ priority i = "low") (suggest_improvements r)
  /\ (forall f, f ∈ findings r -> finding_type f = warning ->
        improvement_of f ∈ suggest_improvements r /\ priority (improvement_of f) = "medium")
  /\ (forall f, f ∈ findings r -> finding_type f = suggestion ->
        improvement_of f ∈ suggest_improvements r /\ priority (improvement_of f) = "low").
Proof.
  intros r. subst r. unfold suggest_improvements.
  cbn [findings warnings suggestions validate_sop_comprehensive].
  set (l := all_findings sop res).
  pose proof (all_findings_fit sop res) as Hfit. fold l in Hfit.
  assert (forall f, f ∈ l -> finding_type f = warning ->
                    priority (improvement_of f) = "medium") as Hw.
  { intros f Hin Ht. rewrite Forall_forall in Hfit. specialize (Hfit f Hin).
    unfold severity_fits_type in Hfit. rewrite Ht in Hfit.
    cbn. unfold priority_of.
    destruct (Z.leb_spec 4 (severity f)); [lia|].
    destruct (Z.leb_spec 2 (severity f)); [done | lia]. }
  assert (forall f, f ∈ l -> finding_type f = suggestion ->
                    priority (improvement_of f) = "low") as Hs.
  { intros f Hin Ht. rewrite Forall_forall in Hfit. specialize (Hfit f Hin).
    unfold severity_fits_type in Hfit. rewrite Ht in Hfit.
    cbn. unfold priority_of. rewrite Hfit. reflexivity. }
  split_and!.
  - rewrite length_fmap. unfold count_type. clear.
    induction l as [|f k IH]; [done|].
    rewrite !filter_cons.
    destruct (finding_type f) eqn:Ef; repeat case_decide; cbn [length]; try lia;
      exfalso; intuition congruence.
  - apply Forall_fmap, Forall_forall. intros f [[Ht|Ht] Hin]%list_elem_of_filter; cbn.
    + right. by apply Hs.
    + left. by apply Hw.
  - intros f Hin Ht. split; [|by apply Hw].
    apply list_elem_of_fmap_2, list_elem_of_filter. auto.
  - intros f Hin Ht. split; [|by apply Hs].
    apply list_elem_of_fmap_2, list_elem_of_filter. auto.
Qed.

(** X20.  [refine_from_validation] fixes nothing: whatever the report,
    the definition it returns is the one it was given and the history
    entry it writes records zero refinements. *)
Theorem refine_from_validation_changes_nothing
    (now : string) (sop : SOPDefinition) (report : ValidationReport) :
  let x := refine_from_validation now sop report in
  x.1 = sop
  /\ refinements_applied x.2 = 0
  /\ rr_details x.2 = []
  /\ rr_sop_id x.2 = sop_id sop
  /\ rr_validation_id x.2 = validation_id report.
Proof.
  cbv zeta. unfold refine_from_validation. cbn [fst snd].
  assert (forall l acc,
            fold_left
              (fun (acc : list string) (f : ValidationFinding) =>
                 match finding_type f with
                 | error_ =>
                     let r := _apply_auto_fix sop f in if r.1 then acc ++ [r.2] else acc
                 | _ => acc
                 end) l acc = acc) as Hfold.
  { induction l as [|f k IH]; intros acc; [done|].
    cbn [fold_left]. destruct (finding_type f); cbn; apply IH. }
  rewrite Hfold. done.
Qed.

(** ** Refinement and versions *)

(** X21.  [refine_sop] touches one definition only: every other entry of
    the registry and the execution history stay as they were, and of the
    definition refined the id, name, status, description, component,
    purpose, creation data, prerequisites, tags, validation level and all
    four statistics are unchanged.  For an id that is not in the registry
    the call fails and changes nothing. *)
Theorem refine_leaves_the_rest_alone
    (sha256_hex : string -> string) (ag : Agent) (now id : string)
    (updates : list (Z * list change)) (who : string) :
  let x := refine_sop sha256_hex ag now id updates who in
  (forall id', id' <> id -> sops x.1 !! id' = sops ag !! id')
  /\ execution_history x.1 = execution_history ag
  /\ (sops ag !! id = None -> x = (ag, (false, "SOP not found: " +:+ id)))
  /\ (forall sop, sops ag !! id = Some sop ->
        exists sop',
          sops x.1 !! id = Some sop'
          /\ sop_id sop' = sop_id sop /\ sop_name sop' = sop_name sop
          /\ sop_status sop' = sop_status sop
          /\ sop_description sop' = sop_description sop
          /\ sop_component sop' = sop_component sop /\ purpose sop' = purpose sop
          /\ created_date sop' = created_date sop /\ created_by sop' = created_by sop
          /\ prerequisites sop' = prerequisites sop /\ sop_tags sop' = sop_tags sop
          /\ validation_level sop' = validation_level sop
          /\ execution_count sop' = execution_count sop
          /\ success_count sop' = success_count sop
          /\ failure_count sop' = failure_count sop
          /\ average_duration sop' = average_duration sop).
Proof.
  intros x. subst x. unfold refine_sop.
  destruct (sops ag !! id) as [sop|] eqn:Hsop.
  - destruct (bump_version _); cbn [fst snd sops execution_history];
      (split_and!; [by intros id' Hne; rewrite lookup_insert_ne | done | done |]);
      intros sop0 [= <-]; rewrite lookup_insert_eq; eexists; split_and!; reflexivity.
  - cbn. split_and!; try done.
Qed.

(** X22.  A refinement that fails on the version has already changed the
    steps: when the stored version has fewer than three dot-separated
    parts, or its third part is no integer literal, the call reports
    failure with the text of the exception ([IndexError], or the
    [ValueError] of [int()], which quotes the [repr] of that part) and
    leaves version, hash and modification data as they were, but the
    registry holds the updated steps. *)
Theorem failed_refinement_keeps_the_updates
    (sha256_hex : string -> string) (ag : Agent) (now id : string)
    (updates : list (Z * list change)) (who : string) (sop : SOPDefinition)
    (e : py_exception) :
  sops ag !! id = Some sop ->
  bump_version (version sop) = inl e ->
  let x := refine_sop sha256_hex ag now id updates who in
  x.2 = (false, "Failed to refine SOP: " +:+ exception_text e)
  /\ sops x.1 !! id = Some (with_steps sop (apply_updates updates (steps sop)))
  /\ ((e = IndexError /\ (length (split_dot (version sop)) <= 2)%nat
       /\ exception_text e = "list index out of range")
      \/ exists p,
           split_dot (version sop) !! 2%nat = Some p /\ py_int p = None
           /\ e = ValueError p
           /\ exception_text e
              = "invalid literal for int() with base 10: "
                  +:+ String.substring 0 200 (py_repr p)).
Proof.
  intros Hsop Hb x. subst x. unfold refine_sop. rewrite Hsop.
  cbn [version with_steps]. rewrite Hb. cbn [fst snd sops].
  rewrite lookup_insert_eq. split_and!; try done.
  unfold bump_version in Hb.
  destruct (split_dot (version sop) !! 2%nat) as [p|] eqn:Hp.
  - destruct (py_int p) eqn:Hi; [done|]. injection Hb as <-. right. by exists p.
  - injection Hb as <-. left. split_and!; [done | | done].
    by apply lookup_ge_None in Hp.
Qed.

Lemma failed_refinement_keeps_the_updates_witness :
  let sop := mkSOPDefinition "legacy" "Legacy" "2.1" DRAFT "d" "c" "p" "t" "t" "a" "a"
               [Fixtures.step_A1] [] [] PERMISSIVE 0 0 0 0%float "stale" in
  let ag := mkAgent {[ "legacy" := sop ]} [] in
  let updates := [(1, [set_command "echo changed"])] in
  let x := refine_sop Fixtures.plain_digest ag "2024-01-02T00:00:00" "legacy" updates
             "validator" in
  x.2 = (false, "Failed to refine SOP: " +:+ exception_text IndexError)
  /\ sops x.1 !! "legacy" = Some (with_steps sop (apply_updates updates (steps sop)))
  /\ ((IndexError = IndexError /\ (length (split_dot (version sop)) <= 2)%nat
       /\ exception_text IndexError = "list index out of range")
      \/ exists p,
           split_dot (version sop) !! 2%nat = Some p /\ py_int p = None
           /\ IndexError = ValueError p
           /\ exception_text IndexError
              = "invalid literal for int() with base 10: "
                  +:+ String.substring 0 200 (py_repr p)).
Proof.
  intros sop ag updates.
  apply (failed_refinement_keeps_the_updates Fixtures.plain_digest ag
           "2024-01-02T00:00:00" "legacy" updates "validator" sop IndexError);
    vm_compute; reflexivity.
Defined.

(** The text of the [ValueError]: the literal is quoted as [repr] prints
    it, between double quotes when it holds a single quote only, with
    escapes for what is not printable; and a separator such as U+001C
    around the digits is not skipped. *)
Example value_error_texts :
  bump_version "1.0.it's"
  = inl (ValueError "it's")
  /\ exception_text (ValueError "it's")
     = "invalid literal for int() with base 10: " +:+ chr dquote +:+ "it's" +:+ chr dquote
  /\ exception_text (ValueError "beta")
     = "invalid literal for int() with base 10: 'beta'"
  /\ exception_text (ValueError (String (ascii_of_N 28) "7"))
     = "invalid literal for int() with base 10: '" +:+ chr backslash +:+ "x1c7'"
  /\ py_int (String (ascii_of_N 28) "7") = None
  /\ py_int (String (ascii_of_N 160) " 7 ") = Some 7.
Proof. vm_compute. repeat split; reflexivity. Qed.

(** X23.  Starting from a definition of version 1.0.0 whose hash is
    current (as [create_sop_from_operations] leaves it), any sequence of
    [refine_sop] calls on it succeeds call by call, whatever the updates,
    and after k calls the version is 1.0.k and the hash is again the
    digest of the steps. *)
Theorem refinements_count_up_the_patch_number
    (sha256_hex : string -> string) (calls : list refinement) (ag : Agent) (id : string)
    (sop : SOPDefinition) :
  sops ag !! id = Some sop ->
  version sop = "1.0.0" ->
  hash_current sha256_hex sop ->
  let x := refine_all sha256_hex calls ag id in
  Forall (fun ok => ok = true) x.2
  /\ length x.2 = length calls
  /\ exists sop',
       sops x.1 !! id = Some sop'
       /\ version sop' = "1.0." +:+ str_of_int (Z.of_nat (length calls))
       /\ hash_current sha256_hex sop'.
Proof.
  intros Hsop Hv Hh.
  change "1.0.0" with ("1.0." +:+ str_of_int 0) in Hv.
  cut (forall n, 0 <= n -> forall ag sop,
         sops ag !! id = Some sop ->
         version sop = "1.0." +:+ str_of_int n ->
         hash_current sha256_hex sop ->
         let x := refine_all sha256_hex calls ag id in
         Forall (fun ok => ok = true) x.2
         /\ length x.2 = length calls
         /\ exists sop',
              sops x.1 !! id = Some sop'
              /\ version sop' = "1.0." +:+ str_of_int (n + Z.of_nat (length calls))
              /\ hash_current sha256_hex sop').
  { intros H. exact (H 0 (Z.le_refl 0) ag sop Hsop Hv Hh). }
  clear. induction calls as [|c rest IH]; intros n Hn ag sop Hsop Hv Hh; cbv zeta.
  - cbn. split_and!; [constructor | done |]. exists sop. by rewrite Z.add_0_r.
  - cbn [refine_all fst snd length].
    destruct (refine_sop_on_numbered_version sha256_hex ag (ref_now c) id
                (ref_updates c) (ref_by c) sop n Hsop Hn Hv)
      as (Hr & sop1 & Hs1 & Hv1 & Hh1).
    destruct (IH (n + 1) ltac:(lia) _ sop1 Hs1 Hv1 Hh1) as (Hall & Hlen & sop' & H1 & H2 & H3).
    rewrite Hr. cbn [fst]. split_and!.
    + by constructor.
    + by rewrite Hlen.
    + exists sop'. split_and!; [done| |done].
      rewrite H2. do 2 f_equal. lia.
Qed.

Lemma refinements_count_up_the_patch_number_witness :
  let calls := [ mkRefinement "2024-01-02T00:00:00" [(1, [set_name "First"])] "validator";
                 mkRefinement "2024-01-03T00:00:00" [(9, [set_name "None"])] "validator" ] in
  let x := refine_all Fixtures.plain_digest calls Fixtures.agent_A "scenario_a" in
  Forall (fun ok => ok = true) x.2
  /\ length x.2 = length calls
  /\ exists sop',
       sops x.1 !! "scenario_a" = Some sop'
       /\ version sop' = "1.0." +:+ str_of_int (Z.of_nat (length calls))
       /\ hash_current Fixtures.plain_digest sop'.
Proof.
  intros calls.
  apply (refinements_count_up_the_patch_number Fixtures.plain_digest calls
           Fixtures.agent_A "scenario_a" Fixtures.sop_A); vm_compute; reflexivity.
Defined.

Lemma append_cons c s t : String c s +:+ t = String c (s +:+ t).
Proof. reflexivity. Qed.

Lemma append_empty_l t : "" +:+ t = t.
Proof. reflexivity. Qed.

Lemma split_dot_nonempty s : split_dot s <> [].
Proof.
  destruct s as [|c r]; cbn; [done|].
  destruct (N_of_ascii c =? 46)%N; [done|]. by destruct (split_dot r).
Qed.

Lemma join_cons_char c p ps :
  join "." (String c p :: ps) = String c (join "." (p :: ps)).
Proof. destruct ps; reflexivity. Qed.

Lemma ascii_46 c : N_of_ascii c = 46%N -> c = "."%char.
Proof. intros H. rewrite <- (ascii_N_embedding c), H. reflexivity. Qed.

(** ['.'.join(s.split('.')) == s]. *)
Lemma join_split_dot s : join "." (split_dot s) = s.
Proof.
  induction s as [|c r IH]; [done|]. cbn [split_dot].
  destruct (N.eqb_spec (N_of_ascii c) 46) as [E|E].
  - apply ascii_46 in E as ->. pose proof (split_dot_nonempty r).
    destruct (split_dot r) as [|p ps] eqn:Er; [done|].
    cbn [join]. rewrite append_empty_l. cbn [join] in IH. rewrite IH. reflexivity.
  - pose proof (split_dot_nonempty r).
    destruct (split_dot r) as [|p ps] eqn:Er; [done|].
    rewrite join_cons_char. by rewrite IH.
Qed.

Lemma split_dot_dot_free s : dot_free s -> split_dot s = [s].
Proof.
  unfold dot_free. induction s as [|c r IH]; cbn; [done|].
  intros H. inversion H as [|? ? Hc Hr]; subst.
  destruct (N.eqb_spec (N_of_ascii c) 46); [done|]. by rewrite (IH Hr).
Qed.

Lemma split_dot_append p s :
  dot_free p -> split_dot (p +:+ "." +:+ s) = p :: split_dot s.
Proof.
  unfold dot_free. induction p as [|c r IH]; cbn [list_ascii_of_string]; intros H.
  - reflexivity.
  - inversion H as [|? ? Hc Hr]; subst. rewrite append_cons. cbn [split_dot].
    destruct (N.eqb_spec (N_of_ascii c) 46); [done|]. by rewrite (IH Hr).
Qed.

(** [('.'.join(parts)).split('.') == parts] for parts without dots. *)
Lemma split_dot_join parts :
  parts <> [] -> Forall dot_free parts -> split_dot (join "." parts) = parts.
Proof.
  intros Hne H. induction H as [|p ps Hp Hps IH]; [done|].
  destruct ps as [|q qs].
  - cbn [join]. by apply split_dot_dot_free.
  - cbn [join]. cbn [join] in IH. rewrite split_dot_append by done.
    f_equal. by apply IH.
Qed.

Lemma split_dot_parts_dot_free s : Forall dot_free (split_dot s).
Proof.
  induction s as [|c r IH]; cbn [split_dot]; [by repeat constructor|].
  destruct (N.eqb_spec (N_of_ascii c) 46) as [E|E].
  - constructor; [constructor | done].
  - destruct (split_dot r) as [|p ps]; [by repeat constructor|].
    inversion IH; subst. constructor; [|done]. by constructor.
Qed.

Lemma all_digits_dot_free s : all_digits s -> dot_free s.
Proof.
  unfold all_digits, dot_free. intros H. eapply Forall_impl; [exact H|].
  intros c Hc. cbn beta in Hc |- *. unfold is_digit in Hc. apply andb_true_iff in Hc as [H1 H2].
  apply N.leb_le in H1, H2. lia.
Qed.

Lemma str_of_int_pos_digits p :
  str_of_int (Z.pos p) = pretty_N_go (N.pos p) ""
  /\ all_digits (pretty_N_go (N.pos p) "")
  /\ pretty_N_go (N.pos p) "" <> "".
Proof.
  split_and!.
  - unfold str_of_int, pretty, pretty_Z, pretty, pretty_positive, pretty, pretty_N.
    by rewrite decide_False.
  - apply pretty_N_go_digits.
  - by apply pretty_N_go_nonempty.
Qed.

Lemma str_of_int_dot_free n : dot_free (str_of_int n).
Proof.
  destruct n as [|p|p].
  - by repeat constructor.
  - destruct (str_of_int_pos_digits p) as (-> & Hd & _). by apply all_digits_dot_free.
  - destruct (str_of_int_pos_digits p) as (E & Hd & _).
    change (str_of_int (Z.neg p)) with ("-" +:+ str_of_int (Z.pos p)). rewrite E.
    change ("-" +:+ pretty_N_go (N.pos p) "")
      with (String "-"%char (pretty_N_go (N.pos p) "")).
    constructor; [done|]. by apply all_digits_dot_free.
Qed.

Lemma lstrip_rev_digits l c :
  Forall (fun c => is_digit c = true) l -> l <> [] -> lstrip (rev l ++ [c]) = rev l ++ [c].
Proof.
  intros H Hne. destruct (rev l) as [|d r] eqn:E.
  - apply (f_equal (@rev _)) in E. rewrite rev_involutive in E. done.
  - assert (is_digit d = true) as Hd.
    { apply Forall_rev in H. rewrite E in H. by inversion H. }
    cbn. by rewrite digit_not_space.
Qed.

(** [int(str(n)) == n] for every integer. *)
Lemma py_int_str_of_int_all (n : Z) : py_int (str_of_int n) = Some n.
Proof.
  destruct n as [|p|p]; [reflexivity | by apply py_int_str_of_int |].
  destruct (str_of_int_pos_digits p) as (E & Hd & Hne).
  destruct (pretty_N_go_digits (N.pos p)) as [_ Hv].
  change (str_of_int (Z.neg p)) with ("-" +:+ str_of_int (Z.pos p)). rewrite E.
  change ("-" +:+ pretty_N_go (N.pos p) "")
    with (String "-"%char (pretty_N_go (N.pos p) "")).
  unfold py_int. cbn [list_ascii_of_string].
  set (l := list_ascii_of_string (pretty_N_go (N.pos p) "")) in *.
  unfold all_digits in Hd. fold l in Hd.
  assert (l <> []) as Hl.
  { subst l. destruct (pretty_N_go (N.pos p) ""); [done | discriminate]. }
  assert (strip ("-"%char :: l) = "-"%char :: l) as ->.
  { unfold strip. change (lstrip ("-"%char :: l)) with ("-"%char :: l).
    change (rev ("-"%char :: l)) with (rev l ++ ["-"%char]).
    rewrite lstrip_rev_digits by done.
    rewrite rev_app_distr, rev_involutive. reflexivity. }
  cbv beta iota. change (N_of_ascii "-"%char =? 45)%N with true. cbv iota.
  rewrite read_digits_feed by (done || by left). rewrite Hv. reflexivity.
Qed.

(** X24.  The version bump changes the third dot-separated part and
    nothing else: when it succeeds, the old version has a third part that
    reads as an integer n, and the new version has the same number of
    parts, the same parts at every other position, and as its third part
    the decimal text of n+1, which reads back as n+1; so the bump can be
    applied again. *)
Theorem bump_version_changes_only_the_patch_part (v v' : string) :
  bump_version v = inr v' ->
  exists p n,
    split_dot v !! 2%nat = Some p
    /\ py_int p = Some n
    /\ split_dot v' = <[2%nat := str_of_int (n + 1)]> (split_dot v)
    /\ py_int (str_of_int (n + 1)) = Some (n + 1)
    /\ exists v'', bump_version v' = inr v''.
Proof.
  unfold bump_version at 1. intros H.
  destruct (split_dot v !! 2%nat) as [p|] eqn:Hp; [|done].
  destruct (py_int p) as [n|] eqn:Hn; [|done].
  injection H as <-. exists p, n.
  assert (split_dot (join "." (<[2%nat := str_of_int (n + 1)]> (split_dot v)))
          = <[2%nat := str_of_int (n + 1)]> (split_dot v)) as Hsplit.
  { apply split_dot_join.
    - intros E. apply (f_equal length) in E. rewrite length_insert in E.
      pose proof (lookup_lt_Some _ _ _ Hp). cbn in E. lia.
    - apply Forall_insert; [apply split_dot_parts_dot_free | apply str_of_int_dot_free]. }
  split_and!; try done.
  - apply py_int_str_of_int_all.
  - unfold bump_version. rewrite Hsplit.
    rewrite list_lookup_insert_eq by (by apply (lookup_lt_Some _ _ p)).
    rewrite py_int_str_of_int_all. eauto.
Qed.

Lemma bump_version_changes_only_the_patch_part_witness :
  exists p n,
    split_dot "2.5.9.rc" !! 2%nat = Some p
    /\ py_int p = Some n
    /\ split_dot "2.5.10.rc" = <[2%nat := str_of_int (n + 1)]> (split_dot "2.5.9.rc")
    /\ py_int (str_of_int (n + 1)) = Some (n + 1)
    /\ exists v'', bump_version "2.5.10.rc" = inr v''.
Proof.
  apply (bump_version_changes_only_the_patch_part "2.5.9.rc" "2.5.10.rc").
  vm_compute. reflexivity.
Defined.

(** ** History, listing, rebuilding, persistence *)

(** X25.  A negative limit does not mean "none": with [limit < 0] the
    history call drops the oldest [-limit] matching records and returns
    all the later ones, so it returns nothing only when there are at most
    [-limit] of them. *)
Theorem history_negative_limit_drops_oldest (ag : Agent) (id : string) (limit : Z) :
  id <> "" ->
  limit < 0 ->
  let m := filter (fun e => exec_sop_id e = id) (execution_history ag) in
  get_execution_history ag (Some id) limit = drop (Z.to_nat (- limit)) m
  /\ length (get_execution_history ag (Some id) limit)
     = (length m - Z.to_nat (- limit))%nat
  /\ (get_execution_history ag (Some id) limit = [] <-> Z.of_nat (length m) <= - limit).
Proof.
  intros Hid Hl m. unfold get_execution_history.
  rewrite (str_truthy_nonempty _ Hid). fold m. unfold slice_from.
  destruct (Z.ltb_spec (- limit) 0) as [?|_]; [lia|].
  assert (drop (Z.to_nat (Z.min (- limit) (Z.of_nat (length m)))) m
          = drop (Z.to_nat (- limit)) m) as ->.
  { destruct (Z.le_gt_cases (- limit) (Z.of_nat (length m))).
    - by rewrite Z.min_l.
    - rewrite Z.min_r by lia. rewrite Nat2Z.id, !drop_ge by lia. done. }
  split_and!; [done | apply length_drop |].
  split.
  - intros E. apply (f_equal length) in E. rewrite length_drop in E. cbn in E. lia.
  - intros H. apply drop_ge. lia.
Qed.

Lemma history_negative_limit_drops_oldest_witness :
  let m := filter (fun e => exec_sop_id e = "a") (execution_history sample_history) in
  get_execution_history sample_history (Some "a") (-2) = drop (Z.to_nat (- -2)) m
  /\ length (get_execution_history sample_history (Some "a") (-2))
     = (length m - Z.to_nat (- -2))%nat
  /\ (get_execution_history sample_history (Some "a") (-2) = []
      <-> Z.of_nat (length m) <= - -2).
Proof.
  apply (history_negative_limit_drops_oldest sample_history "a" (-2)); [discriminate | lia].
Defined.

(** X26.  Listing by component returns the rows of exactly the
    definitions of that component, in their order, whatever their status;
    an absent or empty filter is no filter.  The status filter compares
    with the lower-case value of the status, so asking for a status by
    its member name, such as DRAFT, lists nothing. *)
Theorem list_sops_filters_by_component
    (values : list SOPDefinition) (comp : string) (st : option string) :
  comp <> "" ->
  list_sops values (Some comp) None
  = summary_of <$> filter (fun s => sop_component s = comp) values
  /\ Forall (fun row => sum_component row = comp) (list_sops values (Some comp) st)
  /\ list_sops values None None = summary_of <$> values
  /\ list_sops values (Some "") (Some "") = summary_of <$> values
  /\ (forall name : string,
        is_Some (status_by_name name) -> list_sops values None (Some name) = []).
Proof.
  intros Hc. unfold list_sops. cbn [opt_truthy default].
  rewrite (str_truthy_nonempty _ Hc). cbn [str_truthy].
  split_and!; try done.
  - destruct (opt_truthy st);
      apply Forall_fmap, Forall_forall; intros s Hin; unfold compose; cbn.
    + apply list_elem_of_filter in Hin as [_ Hin].
      by apply list_elem_of_filter in Hin as [Hin _].
    + by apply list_elem_of_filter in Hin as [Hin _].
  - intros name Hname.
    assert (name <> "") as Hne by (intros ->; by destruct Hname).
    cbn [opt_truthy default]. rewrite (str_truthy_nonempty _ Hne). unfold id.
    assert (filter (fun s => status_value (sop_status s) = name) values = []) as ->; [|done].
    induction values as [|s l IH]; [done|].
    rewrite filter_cons_False; [exact IH|].
    intros E. subst name. destruct (sop_status s); by destruct Hname.
Qed.

Lemma list_sops_filters_by_component_witness :
  let values := [Fixtures.sop_A; Fixtures.sop_with "g" [] []] in
  list_sops values (Some "demo") None
  = summary_of <$> filter (fun s => sop_component s = "demo") values
  /\ Forall (fun row => sum_component row = "demo") (list_sops values (Some "demo") None)
  /\ list_sops values None None = summary_of <$> values
  /\ list_sops values (Some "") (Some "") = summary_of <$> values
  /\ (forall name : string,
        is_Some (status_by_name name) -> list_sops values None (Some name) = []).
Proof.
  apply (list_sops_filters_by_component
           [Fixtures.sop_A; Fixtures.sop_with "g" [] []] "demo" None).
  discriminate.
Defined.

(** X27.  [rebuild_from_sop] runs the definition for real and always
    names what happened: on success every step of the definition
    completed and none declares a dependency; on failure the summary
    names the first failed step, which is a step number of the
    definition, so that the fallback text "unknown" is never produced;
    and the record is always there to be read. *)
Theorem rebuild_summary_names_a_step
    {World : Type} (run_command : World -> string -> Z -> cmd_result * World)
    (ag : Agent) (w : World) (clk : ExecClock) (id : string) (sop : SOPDefinition) :
  sops ag !! id = Some sop ->
  let x := rebuild_from_sop run_command ag w clk id in
  let n := Z.of_nat (length (steps sop)) in
  x.1 = (execute_sop run_command ag w clk id false).1
  /\ x.2 <> RebuildNoRecord
  /\ (forall summary, x.2 = Rebuilt true summary ->
        summary = "Rebuild successful: " +:+ str_of_int n +:+ "/" +:+ str_of_int n
                    +:+ " steps"
        /\ Forall (fun s => dependencies s = []) (steps sop))
  /\ (forall summary, x.2 = Rebuilt false summary ->
        exists k, k ∈ step_number <$> steps sop
                  /\ summary = "Rebuild failed at step " +:+ str_of_int k)
  /\ (execution_count sop <> -1 -> exists ok summary, x.2 = Rebuilt ok summary).
Proof.
  intros Hsop x n. subst x. unfold rebuild_from_sop. rewrite Hsop.
  pose proof (execute_sop_cases run_command ag w clk id false sop Hsop) as Hc.
  pose proof (run_execution_record run_command w clk id sop false) as Hrec.
  cbv zeta in Hc, Hrec.
  remember (run_execution run_command w clk id sop false) as r eqn:Er. clear Er.
  destruct (execute_sop run_command ag w clk id false) as [[ag' w'] res].
  cbn [fst snd] in Hc. destruct Hc as [_ [[-> _]|[-> [Hm _]]]].
  2:{ cbn. split_and!; try done. }
  destruct Hrec as (_ & _ & H3 & _ & _ & H6 & H7 & H8 & H9).
  rewrite H7. destruct (failed_steps r.1) as [|k l] eqn:Ef; cbn.
  - split_and!; try done; [|eauto].
    intros summary [= <-]. rewrite (H8 eq_refl), H3. split; [done|]. by apply H9.
  - split_and!; try done; [|eauto].
    intros summary [= <-]. exists k. split; [|done].
    eapply elem_of_sublist; [left | exact H6].
Qed.

Lemma rebuild_summary_names_a_step_witness :
  let x := rebuild_from_sop Fixtures.shell Fixtures.agent_C [] Fixtures.clock
             "scenario_c" in
  let n := Z.of_nat (length (steps Fixtures.sop_C)) in
  x.1 = (execute_sop Fixtures.shell Fixtures.agent_C [] Fixtures.clock
           "scenario_c" false).1
  /\ x.2 <> RebuildNoRecord
  /\ (forall summary, x.2 = Rebuilt true summary ->
        summary = "Rebuild successful: " +:+ str_of_int n +:+ "/" +:+ str_of_int n
                    +:+ " steps"
        /\ Forall (fun s => dependencies s = []) (steps Fixtures.sop_C))
  /\ (forall summary, x.2 = Rebuilt false summary ->
        exists k, k ∈ step_number <$> steps Fixtures.sop_C
                  /\ summary = "Rebuild failed at step " +:+ str_of_int k)
  /\ (execution_count Fixtures.sop_C <> -1 -> exists ok summary, x.2 = Rebuilt ok summary).
Proof.
  apply (rebuild_summary_names_a_step Fixtures.shell Fixtures.agent_C [] Fixtures.clock
           "scenario_c" Fixtures.sop_C).
  vm_compute. reflexivity.
Defined.

Example rebuild_scenario_C :
  (rebuild_from_sop Fixtures.shell Fixtures.agent_C [] Fixtures.clock "scenario_c").2
  = Rebuilt false "Rebuild failed at step 1".
Proof. vm_compute. reflexivity. Qed.

(** X28.  What the agent saves it cannot load: [_save_sop] writes the
    status and the validation level by value, in lower case, and
    [_load_sops] looks them up by member name, in capitals, so the
    reconstruction of every saved definition raises and the file is
    skipped; loading the files of a whole registry registers nothing.  A
    file whose two fields hold member names is loaded, with the other
    fields as written. *)
Theorem saved_definitions_are_not_loaded (ag : Agent) (saved : list SOPDefinition) :
  (forall sop, _load_sop (_save_sop sop) = None)
  /\ _load_sops ag (_save_sop <$> saved) = ag
  /\ (forall st lv,
        status_by_name (status_value st) = None
        /\ level_by_name (level_value lv) = None)
  /\ (forall sop st lv, exists nst nlv loaded,
        _load_sop (mkSavedSOP sop nst nlv) = Some loaded
        /\ sop_status loaded = st /\ validation_level loaded = lv
        /\ sop_id loaded = sop_id sop /\ version loaded = version sop
        /\ steps loaded = steps sop /\ content_hash loaded = content_hash sop
        /\ execution_count loaded = execution_count sop).
Proof.
  assert (forall sop, _load_sop (_save_sop sop) = None) as Hnone.
  { intros sop. unfold _load_sop, _save_sop. cbn [saved_status].
    by destruct (sop_status sop). }
  split_and!.
  - exact Hnone.
  - unfold _load_sops. induction saved as [|s l IH] in ag |- *; [done|].
    cbn [fmap list_fmap fold_left]. rewrite Hnone. apply IH.
  - intros st lv. split; [by destruct st | by destruct lv].
  - intros sop st lv.
    exists (match st with
            | DRAFT => "DRAFT" | VALIDATED => "VALIDATED" | IN_USE => "IN_USE"
            | DEPRECATED => "DEPRECATED" | ARCHIVED => "ARCHIVED"
            end),
           (match lv with
            | PERMISSIVE => "PERMISSIVE" | MODERATE => "MODERATE"
            | STRICT => "STRICT" | CERTIFIED => "CERTIFIED"
            end).
    destruct st, lv; eexists; split_and!; reflexivity.
Qed.

(** ** The serialisation of the steps *)

Lemma unescape_escape (c : ascii) (r : list ascii) :
  unescape_char (list_ascii_of_string (json_escape_char c) ++ r) = Some (c, r).
Proof. destruct c as [[] [] [] [] [] [] [] []]; reflexivity. Qed.

Lemma json_escape_prefix_free x y r1 r2 :
  list_ascii_of_string (json_escape x) ++ dquote :: r1
  = list_ascii_of_string (json_escape y) ++ dquote :: r2 ->
  x = y /\ r1 = r2.
Proof.
  revert y. induction x as [|a x IH]; intros [|b y]; cbn [json_escape];
    rewrite ?list_ascii_app, <- ?app_assoc; intros H.
  - cbn in H. by injection H as ->.
  - apply (f_equal unescape_char) in H. rewrite unescape_escape in H. discriminate.
  - apply (f_equal unescape_char) in H. rewrite unescape_escape in H. discriminate.
  - apply (f_equal unescape_char) in H. rewrite !unescape_escape in H.
    injection H as -> H. by destruct (IH _ H) as [-> ->].
Qed.

Lemma json_str_chars s r :
  list_ascii_of_string (json_str s) ++ r
  = dquote :: list_ascii_of_string (json_escape s) ++ dquote :: r.
Proof.
  unfold json_str. rewrite !list_ascii_app, <- !app_assoc. reflexivity.
Qed.

Lemma json_str_prefix_free : prefix_free json_str.
Proof.
  intros x y r1 r2 _ _. rewrite !json_str_chars. intros H.
  injection H as H. by apply json_escape_prefix_free.
Qed.

Lemma string_of_chars_inj s1 s2 :
  list_ascii_of_string s1 = list_ascii_of_string s2 -> s1 = s2.
Proof.
  intros H. apply (f_equal string_of_list_ascii) in H.
  by rewrite !string_of_list_ascii_of_string in H.
Qed.

Lemma delimiter_not_int_char r :
  delimited r -> match r with c :: _ => is_int_char c = false | [] => True end.
Proof.
  destruct r as [|c r]; [done|]. cbn [delimited].
  unfold is_delimiter, is_int_char, is_digit. intros H.
  repeat (apply orb_true_iff in H as [H|H]); apply N.eqb_eq in H; by rewrite H.
Qed.

Lemma span_unique (P : ascii -> bool) l1 l2 r1 r2 :
  Forall (fun c => P c = true) l1 -> Forall (fun c => P c = true) l2 ->
  match r1 with c :: _ => P c = false | [] => True end ->
  match r2 with c :: _ => P c = false | [] => True end ->
  l1 ++ r1 = l2 ++ r2 -> l1 = l2 /\ r1 = r2.
Proof.
  intros H1. revert l2. induction H1 as [|a l1 Ha _ IH]; intros l2 H2 S1 S2 E.
  - destruct H2 as [|b l2 Hb _]; [done|]. cbn in E. subst r1. congruence.
  - destruct H2 as [|b l2 Hb H2]; cbn in E.
    + subst r2. congruence.
    + injection E as -> E. by destruct (IH _ H2 S1 S2 E) as [-> ->].
Qed.

Lemma str_of_int_chars n :
  Forall (fun c => is_int_char c = true) (list_ascii_of_string (str_of_int n))
  /\ starts_value (str_of_int n).
Proof.
  assert (forall s, all_digits s ->
            Forall (fun c => is_int_char c = true) (list_ascii_of_string s)) as Hd.
  { intros s H. eapply Forall_impl; [exact H|].
    intros c Hc. cbn beta in Hc |- *. unfold is_int_char. by rewrite Hc. }
  assert (forall s, all_digits s -> s <> "" -> starts_value s) as Hs.
  { intros [|c s] H Hne; [done|]. cbn [starts_value].
    unfold all_digits in H. cbn [list_ascii_of_string] in H.
    apply Forall_cons_1 in H as [Hc _]. unfold is_digit in Hc.
    apply andb_true_iff in Hc as [Hl Hu]. apply N.leb_le in Hl, Hu.
    unfold is_delimiter. cbv zeta.
    repeat (apply orb_false_iff; split); apply N.eqb_neq; lia. }
  destruct n as [|p|p].
  - split; [by repeat constructor | done].
  - destruct (str_of_int_pos_digits p) as (-> & H & Hne). auto.
  - destruct (str_of_int_pos_digits p) as (E & H & Hne).
    change (str_of_int (Z.neg p)) with ("-" +:+ str_of_int (Z.pos p)). rewrite E.
    change ("-" +:+ pretty_N_go (N.pos p) "")
      with (String "-"%char (pretty_N_go (N.pos p) "")).
    split; [|done]. constructor; [done | auto].
Qed.

Lemma str_of_int_prefix_free : prefix_free str_of_int.
Proof.
  intros x y r1 r2 D1 D2 H.
  apply (span_unique is_int_char) in H as [H ->];
    try apply str_of_int_chars; try by apply delimiter_not_int_char.
  split; [|done]. apply string_of_chars_inj in H.
  apply (f_equal py_int) in H. rewrite !py_int_str_of_int_all in H. congruence.
Qed.

Lemma json_bool_prefix_free : prefix_free json_bool.
Proof.
  intros [] [] r1 r2 _ _ H; cbn in H; try discriminate; by injection H as ->.
Qed.

Lemma json_opt_str_prefix_free : prefix_free json_opt_str.
Proof.
  intros [x|] [y|] r1 r2 D1 D2; cbn [json_opt_str].
  - intros H. by destruct (json_str_prefix_free x y r1 r2 D1 D2 H) as [-> ->].
  - rewrite json_str_chars. discriminate.
  - rewrite json_str_chars. discriminate.
  - intros H. cbn in H. by injection H as ->.
Qed.

Lemma join_chars x items t :
  list_ascii_of_string (join ", " (x :: items)) ++ t
  = list_ascii_of_string x ++ join_tail items t.
Proof.
  destruct items as [|y items]; [done|].
  change (join ", " (x :: y :: items)) with (x +:+ ", " +:+ join ", " (y :: items)).
  rewrite !list_ascii_app, <- !app_assoc. reflexivity.
Qed.

Lemma json_list_chars items r :
  list_ascii_of_string (json_list items) ++ r
  = "["%char :: list_ascii_of_string (join ", " items) ++ "]"%char :: r.
Proof.
  unfold json_list. rewrite !list_ascii_app, <- !app_assoc. reflexivity.
Qed.

Lemma starts_value_chars s r :
  starts_value s ->
  exists c t, list_ascii_of_string s ++ r = c :: t /\ is_delimiter c = false.
Proof. destruct s as [|c s]; [done|]. intros H. by exists c, (list_ascii_of_string s ++ r). Qed.

Lemma join_tail_delimited items c r :
  is_delimiter c = true -> delimited (join_tail items (c :: r)).
Proof. by destruct items. Qed.

(** A JSON list of items is told from any other, whatever follows it. *)
Lemma json_list_prefix_free {A : Type} (enc : A -> string) :
  prefix_free enc -> (forall x, starts_value (enc x)) ->
  forall xs ys r1 r2,
    list_ascii_of_string (json_list (enc <$> xs)) ++ r1
    = list_ascii_of_string (json_list (enc <$> ys)) ++ r2 ->
    xs = ys /\ r1 = r2.
Proof.
  intros Hpf Hsv xs ys r1 r2. rewrite !json_list_chars. intros H. injection H as H.
  revert ys H. induction xs as [|x xs IH]; intros [|y ys] H.
  - cbn in H. by injection H as ->.
  - exfalso. cbn [fmap list_fmap] in H. rewrite join_chars in H.
    destruct (starts_value_chars (enc y) (join_tail (enc <$> ys) ("]"%char :: r2)) (Hsv y))
      as (c & t & E & Hc).
    rewrite E in H. cbn in H. injection H as <- _. done.
  - exfalso. cbn [fmap list_fmap] in H. rewrite join_chars in H.
    destruct (starts_value_chars (enc x) (join_tail (enc <$> xs) ("]"%char :: r1)) (Hsv x))
      as (c & t & E & Hc).
    rewrite E in H. cbn in H. injection H as -> _. done.
  - cbn [fmap list_fmap] in H. rewrite !join_chars in H.
    apply Hpf in H as [-> H]; try by apply join_tail_delimited.
    destruct xs as [|x' xs], ys as [|y' ys]; cbn [fmap list_fmap join_tail] in H.
    + by injection H as ->.
    + discriminate.
    + discriminate.
    + injection H as H. by destruct (IH (y' :: ys) H) as [-> ->].
Qed.

Lemma json_member_chars key v t :
  list_ascii_of_string (json_member key v) ++ t
  = list_ascii_of_string (json_str key)
    ++ ":"%char :: " "%char :: list_ascii_of_string v ++ t.
Proof.
  unfold json_member. rewrite !list_ascii_app, <- !app_assoc. reflexivity.
Qed.

Lemma json_step_chars s r :
  exists members,
    list_ascii_of_string (json_step s) ++ r
    = "{"%char :: list_ascii_of_string (join ", " members) ++ "}"%char :: r
    /\ members =
       [ json_member "command" (json_str (command s));
         json_member "component" (json_str (component s));
         json_member "dependencies" (json_list (str_of_int <$> dependencies s));
         json_member "description" (json_str (description s));
         json_member "expected_output" (json_opt_str (expected_output s));
         json_member "max_retries" (str_of_int (max_retries s));
         json_member "name" (json_str (name s));
         json_member "retry_on_failure" (json_bool (retry_on_failure s));
         json_member "rollback_command" (json_opt_str (rollback_command s));
         json_member "step_number" (str_of_int (step_number s));
         json_member "tags" (json_list (json_str <$> tags s));
         json_member "timeout_seconds" (str_of_int (timeout_seconds s));
         json_member "validation_check" (json_opt_str (validation_check s)) ].
Proof.
  eexists. split; [|reflexivity].
  unfold json_step. rewrite !list_ascii_app, <- !app_assoc. reflexivity.
Qed.

Lemma tail_eq (a : ascii) (l1 l2 : list ascii) : a :: l1 = a :: l2 -> l1 = l2.
Proof. congruence. Qed.

Lemma join_tail_brace_delimited items r : delimited (join_tail items ("}"%char :: r)).
Proof. by apply join_tail_delimited. Qed.

(** One member off the front of two joined lists of members with the same
    key: the values followed by the rest of the lists. *)
Local Ltac member_off H :=
  rewrite !join_chars, !json_member_chars in H;
  apply app_inv_head, tail_eq, tail_eq in H.

Local Ltac next_member H :=
  cbn [join_tail] in H; apply tail_eq, tail_eq in H.

Lemma json_step_prefix_free : prefix_free json_step.
Proof.
  intros s1 s2 r1 r2 _ _ H.
  destruct (json_step_chars s1 r1) as (m1 & Ea & ->).
  destruct (json_step_chars s2 r2) as (m2 & Eb & ->).
  rewrite Ea, Eb in H. clear Ea Eb. apply tail_eq in H.
  member_off H.
  apply json_str_prefix_free in H as [E1 H]; try apply join_tail_brace_delimited.
  next_member H. member_off H.
  apply json_str_prefix_free in H as [E2 H]; try apply join_tail_brace_delimited.
  next_member H. member_off H.
  apply (json_list_prefix_free str_of_int) in H as [E3 H];
    [| exact str_of_int_prefix_free | intros x; apply str_of_int_chars].
  next_member H. member_off H.
  apply json_str_prefix_free in H as [E4 H]; try apply join_tail_brace_delimited.
  next_member H. member_off H.
  apply json_opt_str_prefix_free in H as [E5 H]; try apply join_tail_brace_delimited.
  next_member H. member_off H.
  apply str_of_int_prefix_free in H as [E6 H]; try apply join_tail_brace_delimited.
  next_member H. member_off H.
  apply json_str_prefix_free in H as [E7 H]; try apply join_tail_brace_delimited.
  next_member H. member_off H.
  apply json_bool_prefix_free in H as [E8 H]; try apply join_tail_brace_delimited.
  next_member H. member_off H.
  apply json_opt_str_prefix_free in H as [E9 H]; try apply join_tail_brace_delimited.
  next_member H. member_off H.
  apply str_of_int_prefix_free in H as [E10 H]; try apply join_tail_brace_delimited.
  next_member H. member_off H.
  apply (json_list_prefix_free json_str) in H as [E11 H];
    [| exact json_str_prefix_free | done].
  next_member H. member_off H.
  apply str_of_int_prefix_free in H as [E12 H]; try apply join_tail_brace_delimited.
  next_member H. member_off H.
  apply json_opt_str_prefix_free in H as [E13 H]; try apply join_tail_brace_delimited.
  cbn [join_tail] in H. apply tail_eq in H as ->.
  split; [|done].
  destruct s1, s2. cbn in *. congruence.
Qed.

Lemma json_dumps_inj l1 l2 : json_dumps l1 = json_dumps l2 -> l1 = l2.
Proof.
  intros H. apply (f_equal list_ascii_of_string) in H.
  apply (f_equal (fun l => l ++ [])) in H. cbv beta in H.
  unfold json_dumps in H.
  by apply (json_list_prefix_free json_step) in H as [-> _];
    [| exact json_step_prefix_free | done].
Qed.

(** ** The content hash *)

(** C9, as found: a definition whose version has two parts only, holding
    the hash of its steps.  Refining it changes the command of its step
    and then fails on the version, before the hash is recomputed: the
    stored definition has the new steps and the hash of the old ones. *)
Lemma refine_failure_leaves_stale_hash :
  let sop := mkSOPDefinition "legacy" "Legacy" "2.1" DRAFT "d" "c" "p" "t" "t" "a" "a"
               [Fixtures.step_A1] [] [] PERMISSIVE 0 0 0 0%float
               (_compute_hash Fixtures.plain_digest [Fixtures.step_A1]) in
  let ag := mkAgent {[ "legacy" := sop ]} [] in
  let x := refine_sop Fixtures.plain_digest ag "2024-01-02T00:00:00" "legacy"
             [(1, [set_command "echo changed"])] "validator" in
  hash_current Fixtures.plain_digest sop
  /\ x.2 = (false, "Failed to refine SOP: list index out of range")
  /\ exists sop',
       sops x.1 !! "legacy" = Some sop'
       /\ command <$> steps sop = ["echo 1"]
       /\ command <$> steps sop' = ["echo changed"]
       /\ content_hash sop' = content_hash sop
       /\ ~ hash_current Fixtures.plain_digest sop'.
Proof.
  cbv zeta. split; [reflexivity|]. split; [vm_compute; reflexivity|].
  eexists. split; [vm_compute; reflexivity|].
  split_and!; [reflexivity | reflexivity | reflexivity |].
  unfold hash_current. vm_compute. discriminate.
Qed.

(** C9, as amended.  The content hash is the digest of the JSON text of
    the ordered step list and of nothing else, and that text tells the
    step lists apart: equal lists give equal hashes, and two lists that
    differ in any field of any step, or in order or length, have
    different texts, so that their hashes are equal only if the digest
    agrees on those two different texts.  [create_sop_from_operations]
    stores the hash of the steps it builds.  [refine_sop] always stores
    the updated steps; when the third part of the stored version reads as
    an integer it succeeds and stores the hash of the updated steps, and
    otherwise it fails and leaves hash and version as they were.
    [execute_sop] changes neither steps nor hash.  Hence definitions that
    hold the hash of their steps have equal hashes when their steps are
    equal, whatever their ids, names, versions, dates and counters. *)
Theorem content_hash_is_function_of_steps (sha256_hex : string -> string) :
  (forall l1 l2 : list SOPStep,
      (json_dumps l1 = json_dumps l2 <-> l1 = l2)
      /\ (l1 = l2 -> _compute_hash sha256_hex l1 = _compute_hash sha256_hex l2)
      /\ (l1 <> l2 ->
          _compute_hash sha256_hex l1 = _compute_hash sha256_hex l2 ->
          json_dumps l1 <> json_dumps l2
          /\ sha256_hex (json_dumps l1) = sha256_hex (json_dumps l2)))
  /\ (forall (ag : Agent) (now id nm descr comp purp : string) (ops : list Operation)
             (author : string),
        sops ag !! id = None ->
        exists sop,
          sops (create_sop_from_operations sha256_hex ag now id nm descr comp purp ops
                  author).1 !! id = Some sop
          /\ steps sop = steps_from comp 1 ops
          /\ hash_current sha256_hex sop)
  /\ (forall (ag : Agent) (now id : string) (updates : list (Z * list change))
             (who : string) (sop : SOPDefinition),
        sops ag !! id = Some sop ->
        let x := refine_sop sha256_hex ag now id updates who in
        exists sop',
          sops x.1 !! id = Some sop'
          /\ steps sop' = apply_updates updates (steps sop)
          /\ match bump_version (version sop) with
             | inr v =>
                 x.2.1 = true /\ version sop' = v /\ hash_current sha256_hex sop'
             | inl _ =>
                 x.2.1 = false /\ version sop' = version sop
                 /\ content_hash sop' = content_hash sop
             end)
  /\ (forall {World : Type} (run_command : World -> string -> Z -> cmd_result * World)
             (ag : Agent) (w : World) (clk : ExecClock) (id : string) (dry_run : bool)
             (sop : SOPDefinition),
        sops ag !! id = Some sop ->
        exists sop',
          sops (execute_sop run_command ag w clk id dry_run).1.1 !! id = Some sop'
          /\ steps sop' = steps sop
          /\ content_hash sop' = content_hash sop)
  /\ (forall sop1 sop2 : SOPDefinition,
        hash_current sha256_hex sop1 -> hash_current sha256_hex sop2 ->
        (steps sop1 = steps sop2 -> content_hash sop1 = content_hash sop2)
        /\ (steps sop1 <> steps sop2 -> content_hash sop1 = content_hash sop2 ->
            json_dumps (steps sop1) <> json_dumps (steps sop2)
            /\ sha256_hex (json_dumps (steps sop1)) = sha256_hex (json_dumps (steps sop2)))).
Proof.
  assert (forall l1 l2 : list SOPStep,
            l1 <> l2 ->
            _compute_hash sha256_hex l1 = _compute_hash sha256_hex l2 ->
            json_dumps l1 <> json_dumps l2
            /\ sha256_hex (json_dumps l1) = sha256_hex (json_dumps l2)) as Hapart.
  { intros l1 l2 Hne Hh. split; [|exact Hh]. intros E. by apply Hne, json_dumps_inj. }
  split_and!.
  - intros l1 l2. split_and!.
    + split; [apply json_dumps_inj | by intros ->].
    + by intros ->.
    + apply Hapart.
  - intros ag now id nm descr comp purp ops author Hnone.
    unfold create_sop_from_operations. rewrite Hnone. cbn [fst sops].
    rewrite lookup_insert_eq. eexists. split; [reflexivity|]. by split.
  - intros ag now id updates who sop Hsop x. subst x.
    unfold refine_sop. rewrite Hsop. cbn [version with_steps].
    destruct (bump_version (version sop)) as [e|v]; cbn [fst snd sops];
      rewrite lookup_insert_eq; eexists; (split; [reflexivity|]);
      (split; [reflexivity|]); by split_and!.
  - intros World run_command ag w clk id dry_run sop Hsop.
    destruct (execute_sop_registry run_command ag w clk id dry_run sop Hsop) as [-> _].
    rewrite lookup_insert_eq. eexists. split; [reflexivity|].
    apply stored_after_frame.
  - unfold hash_current. intros sop1 sop2 H1 H2. split.
    + intros E. by rewrite H1, H2, E.
    + intros Hne Hh. apply Hapart; [done|]. by rewrite <- H1, <- H2.
Qed.

(** Two definitions built from the same operations under different ids,
    names and authors, the second one also executed: same steps, same
    hash. *)
Example same_steps_same_hash :
  let ops := [ Fixtures.operation "echo 1" "Print the number one" None;
               Fixtures.operation "echo 2" "Print the number two" (Some [1]) ] in
  let ag1 := (create_sop_from_operations Fixtures.plain_digest Fixtures.empty_agent
                "2024-01-01T00:00:00" "first" "First" "One description" "demo" "p1"
                ops "alice").1 in
  let ag2 := (create_sop_from_operations Fixtures.plain_digest ag1
                "2024-02-02T00:00:00" "second" "Second" "Another description" "demo" "p2"
                ops "bob").1 in
  let ag3 := (execute_sop Fixtures.shell ag2 [] Fixtures.clock "second" false).1.1 in
  content_hash <$> sops ag3 !! "first" = content_hash <$> sops ag3 !! "second"
  /\ execution_count <$> sops ag3 !! "first" <> execution_count <$> sops ag3 !! "second".
Proof. vm_compute. split; [reflexivity | discriminate]. Qed.

(** X29.  The text [_compute_hash] digests tells the step lists apart: two
    lists of steps have the same serialisation only if they are the same
    list, field by field.  So two definitions with different steps have
    the same content hash only where the digest takes the same value on
    two different texts. *)
Theorem content_hash_tells_step_lists_apart (l1 l2 : list SOPStep) :
  (json_dumps l1 = json_dumps l2 <-> l1 = l2)
  /\ (forall sha256_hex : string -> string,
        l1 <> l2 ->
        _compute_hash sha256_hex l1 = _compute_hash sha256_hex l2 ->
        exists t1 t2, t1 <> t2 /\ sha256_hex t1 = sha256_hex t2).
Proof.
  split.
  - split; [apply json_dumps_inj | by intros ->].
  - intros sha Hne Hh. exists (json_dumps l1), (json_dumps l2). split; [|exact Hh].
    intros E. by apply Hne, json_dumps_inj.
Qed.
